(** * bluesky-sweep: the domain matcher, the scanner, the batch partitioner,
      the hourly quota check and the 429 retry loop of [bluesky-sweep.ts]

    The script is one async function.  Its pure helpers ([getRecordId],
    [chunked], the per-record matching block) are embedded as functions;
    its loops over remote calls are embedded with explicit state passing
    over a clock, an event trace and scripted server responses.

    Conventions of the embedding.
    - A JavaScript string is a [string]; a character stands for one code
      unit.  The separator ['/'] and every literal the script compares with
      are ASCII.
    - A JavaScript number that the script uses as a counter, an index or a
      time stamp is a [Z]; [NaN] is kept apart where [parseInt] can produce
      it.  Integers are exact below 2^53, which is the range the script
      works in.
    - A value of type [any] decoded from JSON is a [JValue]; [undefined]
      is the [None] of an [option JValue]. *)

From Stdlib Require Import String Ascii List ZArith Lia Bool.
Import ListNotations.

Local Open Scope string_scope.
Local Open Scope list_scope.
Local Open Scope Z_scope.

(* ================================================================== *)
(** * Strings *)
(* ================================================================== *)

Module JsString.

(** [s.startsWith(d)], the prefix test that [includes] repeats at every
    position. *)
Fixpoint startsWith (s d : string) {struct d} : bool :=
  match d with
  | EmptyString => true
  | String c d' =>
      match s with
      | EmptyString => false
      | String a s' => Ascii.eqb a c && startsWith s' d'
      end
  end.

(** [s.includes(d)]: [d] occurs in [s] at some position; case-sensitive,
    code unit by code unit. *)
Fixpoint includes (s d : string) : bool :=
  startsWith s d ||
  match s with
  | EmptyString => false
  | String _ s' => includes s' d
  end.

(** [s.lastIndexOf(c)] for a one-character search string: scanning with the
    index [i] of the head of [s], [acc] the last hit so far. *)
Fixpoint lastIndexOf_from (s : string) (c : ascii) (i acc : Z) : Z :=
  match s with
  | EmptyString => acc
  | String a s' => lastIndexOf_from s' c (i + 1) (if Ascii.eqb a c then i else acc)
  end.

(** The result is -1 when [c] does not occur. *)
Definition lastIndexOf (s : string) (c : ascii) : Z :=
  lastIndexOf_from s c 0 (-1).

Fixpoint drop (n : nat) (s : string) : string :=
  match n, s with
  | O, _ => s
  | S _, EmptyString => EmptyString
  | S n', String _ s' => drop n' s'
  end.

(** [s.slice(start)]: a negative [start] counts from the end, and the
    start is clamped to [0 .. length]. *)
Definition slice (s : string) (start : Z) : string :=
  let len := Z.of_nat (String.length s) in
  let from := if start <? 0 then Z.max (len + start) 0 else Z.min start len in
  drop (Z.to_nat from) s.

(** Declarative counterparts used in the statements. *)
Definition contains (s d : string) : Prop :=
  exists pre post, s = (pre ++ d ++ post)%string.

Fixpoint occurs (c : ascii) (s : string) : Prop :=
  match s with
  | EmptyString => False
  | String a s' => a = c \/ occurs c s'
  end.

End JsString.

(* ================================================================== *)
(** * getRecordId (lines 26-29) *)
(* ================================================================== *)

Definition slash : ascii := "/"%char.

(** [const idx = uri.lastIndexOf('/'); return uri.slice(idx + 1);] *)
Definition getRecordId (uri : string) : string :=
  let idx := JsString.lastIndexOf uri slash in
  JsString.slice uri (idx + 1).

(* ================================================================== *)
(** * Values of type [any] *)
(* ================================================================== *)

(** [record.value] is decoded from JSON and used at type [any].  Of a
    number the block only ever asks whether it is truthy, so an integer
    stands for it. *)
#[local] Set Warnings "-register-all".
Inductive JValue : Type :=
  | JNull
  | JBool (b : bool)
  | JNum (z : Z)
  | JStr (s : string)
  | JArr (items : list JValue)
  | JObj (fields : list (string * JValue)).

(** What an expression can do besides producing a value: throw the
    [TypeError] of reading a property of [null]/[undefined], of calling
    something that is not a function, or of iterating a non-iterable. *)
Inductive result (A : Type) : Type :=
  | Ok (a : A)
  | TypeError.
Arguments Ok {A} a.
Arguments TypeError {A}.

Definition bind {A B : Type} (r : result A) (k : A -> result B) : result B :=
  match r with
  | Ok a => k a
  | TypeError => TypeError
  end.

Notation "x <- r ;; k" := (bind r (fun x => k))
  (at level 61, r at next level, right associativity).

Module Js.

(** Own property of an object.  The object is kept as the list of its
    entries, and a key is bound by its first entry. *)
Fixpoint lookup (k : string) (fields : list (string * JValue)) : option JValue :=
  match fields with
  | [] => None
  | (k', v) :: rest => if String.eqb k' k then Some v else lookup k rest
  end.

(** [v.k] for a [v] that is neither [null] nor [undefined].  The keys the
    script reads ([facets], [features], [$type], [uri], [embed],
    [external], [entities], [type], [value]) are not properties of the
    String, Number, Boolean or Array prototypes, so only an object can
    answer something else than [undefined]. *)
Definition field (v : JValue) (k : string) : option JValue :=
  match v with
  | JObj fields => lookup k fields
  | _ => None
  end.

(** [v.k]: throws on [null] and [undefined]. *)
Definition get (v : option JValue) (k : string) : result (option JValue) :=
  match v with
  | None | Some JNull => TypeError
  | Some v' => Ok (field v' k)
  end.

(** [v?.k]: [undefined] on [null] and [undefined]. *)
Definition get_opt (v : option JValue) (k : string) : option JValue :=
  match v with
  | None | Some JNull => None
  | Some v' => field v' k
  end.

(** ToBoolean. *)
Definition truthy (v : option JValue) : bool :=
  match v with
  | None | Some JNull => false
  | Some (JBool b) => b
  | Some (JNum z) => negb (z =? 0)
  | Some (JStr s) => negb (String.eqb s "")
  | Some (JArr _) | Some (JObj _) => true
  end.

(** [v || []]. *)
Definition or_empty (v : option JValue) : JValue :=
  match v with
  | Some v' => if truthy v then v' else JArr []
  | None => JArr []
  end.

Fixpoint chars (s : string) : list JValue :=
  match s with
  | EmptyString => []
  | String c s' => JStr (String c EmptyString) :: chars s'
  end.

(** The elements a [for (const x of v)] loop visits: those of an array,
    the characters of a string; anything else is not iterable. *)
Definition iterate (v : JValue) : result (list JValue) :=
  match v with
  | JArr items => Ok items
  | JStr s => Ok (chars s)
  | _ => TypeError
  end.

(** [v === 'lit']. *)
Definition is_string (v : option JValue) (lit : string) : bool :=
  match v with
  | Some (JStr s) => String.eqb s lit
  | _ => false
  end.

(** [v.includes(d)] with a string argument: [String.prototype.includes] on
    a string, [Array.prototype.includes] on an array; on [null] and
    [undefined] the property read throws, and on every other value
    [includes] is not a function. *)
Definition includes (v : option JValue) (d : string) : result bool :=
  match v with
  | Some (JStr s) => Ok (JsString.includes s d)
  | Some (JArr items) => Ok (existsb (fun x => is_string (Some x) d) items)
  | _ => TypeError
  end.

(** [v?.includes(d)]: [undefined] (falsy) when [v] is [null] or
    [undefined], the call otherwise. *)
Definition includes_opt (v : option JValue) (d : string) : result bool :=
  match v with
  | None | Some JNull => Ok false
  | _ => includes v d
  end.

(** [Array.isArray(v)]. *)
Definition isArray (v : option JValue) : bool :=
  match v with
  | Some (JArr _) => true
  | _ => false
  end.

(** [for (const x of xs) { if (check(x)) { found = true; break; } }]:
    stops at the first hit, and at the first element whose check throws. *)
Fixpoint find_break (check : JValue -> result bool) (xs : list JValue) : result bool :=
  match xs with
  | [] => Ok false
  | x :: rest =>
      hit <- check x ;;
      if hit then Ok true else find_break check rest
  end.

End Js.

(* ================================================================== *)
(** * The matching block (lines 64-100) *)
(* ================================================================== *)

Definition FACET_LINK : string := "app.bsky.richtext.facet#link".
Definition EMBED_EXTERNAL : string := "app.bsky.embed.external".
Definition ENTITY_LINK : string := "link".

Section Matcher.

Variable TARGET_DOMAIN : string.

(** Line 73: [feature.$type === 'app.bsky.richtext.facet#link' &&
    feature.uri.includes(TARGET_DOMAIN)]. *)
Definition feature_hit (feature : JValue) : result bool :=
  ty <- Js.get (Some feature) "$type" ;;
  if Js.is_string ty FACET_LINK
  then (uri <- Js.get (Some feature) "uri" ;; Js.includes uri TARGET_DOMAIN)
  else Ok false.

(** Lines 71-78: the inner loop over [facet.features || []]. *)
Definition facet_hit (facet : JValue) : result bool :=
  fs <- Js.get (Some facet) "features" ;;
  features <- Js.iterate (Js.or_empty fs) ;;
  Js.find_break feature_hit features.

(** Lines 69-80. *)
Definition check_facets (val : JValue) : result bool :=
  facets <- Js.iterate (Js.or_empty (Js.get_opt (Some val) "facets")) ;;
  Js.find_break facet_hit facets.

(** Line 85, for an [embed] that is truthy:
    [embed.$type === 'app.bsky.embed.external' &&
     embed.external?.uri?.includes(TARGET_DOMAIN)]. *)
Definition embed_hit (embed : JValue) : result bool :=
  if Js.is_string (Js.field embed "$type") EMBED_EXTERNAL
  then Js.includes_opt (Js.get_opt (Js.field embed "external") "uri") TARGET_DOMAIN
  else Ok false.

(** Lines 83-89. *)
Definition check_embed (val : JValue) : result bool :=
  let embed := Js.get_opt (Some val) "embed" in
  if Js.truthy embed
  then match embed with Some e => embed_hit e | None => Ok false end
  else Ok false.

(** Line 94: [entity.type === 'link' && entity.value.includes(TARGET_DOMAIN)]. *)
Definition entity_hit (entity : JValue) : result bool :=
  ty <- Js.get (Some entity) "type" ;;
  if Js.is_string ty ENTITY_LINK
  then (v <- Js.get (Some entity) "value" ;; Js.includes v TARGET_DOMAIN)
  else Ok false.

(** Lines 92-100. *)
Definition check_entities (val : JValue) : result bool :=
  let entities := Js.get_opt (Some val) "entities" in
  if Js.truthy entities && Js.isArray entities
  then match entities with
       | Some (JArr items) => Js.find_break entity_hit items
       | _ => Ok false
       end
  else Ok false.

(** The value of [found] at line 102. *)
Definition matches (val : JValue) : result bool :=
  found <- check_facets val ;;
  found <- (if negb found then check_embed val else Ok found) ;;
  if negb found then check_entities val else Ok found.

End Matcher.

(* ================================================================== *)
(** * What the matching block looks for *)
(* ================================================================== *)

Section Evidence.

Variable domain : string.

(** A rich-text annotation of kind link whose uri contains the domain. *)
Definition link_evidence (val : JValue) : Prop :=
  exists facets facet features feature u,
    Js.field val "facets" = Some (JArr facets) /\ In facet facets /\
    Js.field facet "features" = Some (JArr features) /\ In feature features /\
    Js.field feature "$type" = Some (JStr FACET_LINK) /\
    Js.field feature "uri" = Some (JStr u) /\
    JsString.contains u domain.

(** An attached external embed whose uri contains the domain. *)
Definition embed_evidence (val : JValue) : Prop :=
  exists embed external u,
    Js.field val "embed" = Some embed /\
    Js.field embed "$type" = Some (JStr EMBED_EXTERNAL) /\
    Js.field embed "external" = Some external /\
    Js.field external "uri" = Some (JStr u) /\
    JsString.contains u domain.

(** A legacy entity of type link whose value contains the domain. *)
Definition entity_evidence (val : JValue) : Prop :=
  exists entities entity v,
    Js.field val "entities" = Some (JArr entities) /\ In entity entities /\
    Js.field entity "type" = Some (JStr ENTITY_LINK) /\
    Js.field entity "value" = Some (JStr v) /\
    JsString.contains v domain.

Definition evidence (val : JValue) : Prop :=
  link_evidence val \/ embed_evidence val \/ entity_evidence val.

(** The same three tests as booleans, on the fields read as strings. *)
Definition string_includes (v : option JValue) : bool :=
  match v with
  | Some (JStr s) => JsString.includes s domain
  | _ => false
  end.

Definition items_of (v : option JValue) : list JValue :=
  match v with
  | Some (JArr items) => items
  | _ => []
  end.

Definition link_feature (feature : JValue) : bool :=
  Js.is_string (Js.field feature "$type") FACET_LINK
  && string_includes (Js.field feature "uri").

Definition link_facet (facet : JValue) : bool :=
  existsb link_feature (items_of (Js.field facet "features")).

Definition has_link (val : JValue) : bool :=
  existsb link_facet (items_of (Js.field val "facets")).

Definition has_embed (val : JValue) : bool :=
  match Js.field val "embed" with
  | Some embed =>
      Js.is_string (Js.field embed "$type") EMBED_EXTERNAL
      && match Js.field embed "external" with
         | Some external => string_includes (Js.field external "uri")
         | None => false
         end
  | None => false
  end.

Definition link_entity (entity : JValue) : bool :=
  Js.is_string (Js.field entity "type") ENTITY_LINK
  && string_includes (Js.field entity "value").

Definition has_entity (val : JValue) : bool :=
  existsb link_entity (items_of (Js.field val "entities")).

End Evidence.

(** Shapes of fields. *)
Definition is_object (v : JValue) : bool :=
  match v with
  | JObj _ => true
  | _ => false
  end.

Definition absent_or_string (v : option JValue) : bool :=
  match v with
  | None | Some JNull | Some (JStr _) => true
  | _ => false
  end.

Definition present_string (v : option JValue) : bool :=
  match v with
  | Some (JStr _) => true
  | _ => false
  end.

Definition absent_or_array (wf : JValue -> bool) (v : option JValue) : bool :=
  match v with
  | None | Some JNull => true
  | Some (JArr items) => forallb wf items
  | _ => false
  end.

Definition wf_feature (feature : JValue) : bool :=
  is_object feature
  && (if Js.is_string (Js.field feature "$type") FACET_LINK
      then present_string (Js.field feature "uri")
      else true).

Definition wf_facet (facet : JValue) : bool :=
  is_object facet && absent_or_array wf_feature (Js.field facet "features").

Definition wf_external (external : option JValue) : bool :=
  match external with
  | None | Some JNull => true
  | Some x => is_object x && absent_or_string (Js.field x "uri")
  end.

Definition wf_embed (embed : option JValue) : bool :=
  match embed with
  | None | Some JNull => true
  | Some e =>
      is_object e
      && (if Js.is_string (Js.field e "$type") EMBED_EXTERNAL
          then wf_external (Js.field e "external")
          else true)
  end.

Definition wf_entity (entity : JValue) : bool :=
  is_object entity
  && (if Js.is_string (Js.field entity "type") ENTITY_LINK
      then present_string (Js.field entity "value")
      else true).

(** The shape of a value for which the matching block reads every field
    at the type it expects, [null] counting as absent: [facets],
    [features] and [entities] are absent or arrays of objects, a link
    feature has a string [uri], a link entity has a string [value],
    [embed] is absent or an object, and the [external] of an external embed
    is absent or an object whose [uri] is absent or a string. *)
Definition well_formed (val : JValue) : bool :=
  absent_or_array wf_facet (Js.field val "facets")
  && wf_embed (Js.field val "embed")
  && absent_or_array wf_entity (Js.field val "entities").

(** No annotation, no embed, no legacy entity. *)
Definition absent_or_empty (v : option JValue) : Prop :=
  v = None \/ v = Some (JArr []).

(** Sample values. *)
Module Samples.

Definition domain : string := "futura-sciences.com".

Definition obj_link_no_uri : JValue :=
  JObj [("$type", JStr FACET_LINK)].

Definition external_embed (u : string) : JValue :=
  JObj [("$type", JStr EMBED_EXTERNAL); ("external", JObj [("uri", JStr u)])].

(** A link feature without [uri]. *)
Definition facet_without_uri : JValue :=
  JObj [("text", JStr "hello");
        ("facets", JArr [JObj [("features", JArr [obj_link_no_uri])]])].


(** A link entity without [value]. *)
Definition entity_without_value : JValue :=
  JObj [("text", JStr "hello");
        ("entities", JArr [JObj [("type", JStr ENTITY_LINK)]])].


(** A post with a link annotation to the domain. *)
Definition post_with_link : JValue :=
  JObj [("text", JStr "see this");
        ("facets",
         JArr [JObj [("features",
                      JArr [JObj [("$type", JStr "app.bsky.richtext.facet#mention");
                                  ("did", JStr "did:plc:abc")];
                            JObj [("$type", JStr FACET_LINK);
                                  ("uri", JStr "https://www.futura-sciences.com/x")]])]])].

(** A post with nothing that links anywhere. *)
Definition plain_post : JValue :=
  JObj [("text", JStr "hello"); ("createdAt", JStr "2024-12-15T10:00:00Z")].

End Samples.

(* ================================================================== *)
(** * chunked (lines 31-37) *)
(* ================================================================== *)

(** [arr.slice(start, end)]: negative indices count from the end, both
    are clamped to [0 .. length], and an end before the start gives []. *)
Definition array_slice {T : Type} (arr : list T) (start stop : Z) : list T :=
  let len := Z.of_nat (List.length arr) in
  let k := if start <? 0 then Z.max (len + start) 0 else Z.min start len in
  let f := if stop <? 0 then Z.max (len + stop) 0 else Z.min stop len in
  firstn (Z.to_nat (f - k)) (skipn (Z.to_nat k) arr).

(** The [for] loop of [chunked], one unit of fuel per evaluation of
    [idx < arr.length]; [None] when the fuel runs out before the test
    fails. *)
Fixpoint chunked_loop {T : Type} (fuel : nat) (arr : list T) (size idx : Z)
    (chunks : list (list T)) : option (list (list T)) :=
  match fuel with
  | O => None
  | S fuel' =>
      if idx <? Z.of_nat (List.length arr)
      then chunked_loop fuel' arr size (idx + size)
             (chunks ++ [array_slice arr idx (idx + size)])
      else Some chunks
  end.

(** [chunked(arr, size)].  The fuel [length arr + 1] is enough whenever the
    loop ends at all ([chunked_loop_fuel_enough], [chunked_loop_never_ends]
    below), so [None] stands for a call whose loop has no last pass: it
    pushes a chunk at every pass, until the process has no memory left. *)
Definition chunked {T : Type} (arr : list T) (size : Z) : option (list (list T)) :=
  chunked_loop (S (List.length arr)) arr size 0 [].

(* ================================================================== *)
(** * Constants (lines 4-13) *)
(* ================================================================== *)

Record Config : Type := mkConfig {
  TARGET_DOMAIN : string;
  MAX_DELETES_PER_HOUR : Z;
  DELETES_PER_BATCH : Z;
  DELAY_BETWEEN_BATCHES_MS : Z;
  SAFE_MARGIN : Z
}.

(** The values the script is written with. *)
Definition source_config : Config :=
  {| TARGET_DOMAIN := "futura-sciences.com";
     MAX_DELETES_PER_HOUR := 5000;
     DELETES_PER_BATCH := 200;
     DELAY_BETWEEN_BATCHES_MS := 5000;
     SAFE_MARGIN := 100 |}.

(** [MAX_DELETES_PER_HOUR - SAFE_MARGIN], the bound of line 130. *)
Definition threshold (cfg : Config) : Z :=
  MAX_DELETES_PER_HOUR cfg - SAFE_MARGIN cfg.

Definition oneHourMs : Z := 3600000.
Arguments oneHourMs : simpl never.

(* ================================================================== *)
(** * The remote calls, the clock and the trace *)
(* ================================================================== *)

(** One element of [response.data.records]. *)
Record RepoRecord : Type := mkRecord {
  uri : string;
  value : JValue
}.

(** The object pushed at lines 103-107. *)
Record DeleteOp : Type := mkDelete {
  op_type : string;
  collection : string;
  rkey : string
}.

Definition POST_COLLECTION : string := "app.bsky.feed.post".
Definition DELETE_TYPE : string := "com.atproto.repo.applyWrites#delete".

(** The parameters of [listRecords] (lines 49-55), the repo apart. *)
Record ListParams : Type := mkListParams {
  lp_collection : string;
  lp_limit : Z;
  lp_cursor : option string;
  lp_reverse : bool
}.

(** What a failed call throws: [error.status] and [error.headers], either
    of which may be missing. *)
Record XrpcError : Type := mkError {
  status : option Z;
  headers : option (list (string * string))
}.

(** The two variables of lines 123-124. *)
Record QuotaWindow : Type := mkQuota {
  hourWindowStart : Z;
  deletesThisHour : Z
}.

(** What a run does that can be seen from outside: the two remote calls
    with their arguments, every [sleep], and three of the log lines
    (145, 157, 178).  [EvDeleting] carries, besides the batch number and
    size that line 145 prints, the values the two quota variables have
    at that line. *)
Inductive Event : Type :=
  | EvListRecords (p : ListParams)
  | EvApplyWrites (writes : list DeleteOp)
  | EvSleep (ms : Z)
  | EvDeleting (batch : Z) (n : Z) (q : QuotaWindow)
  | EvCompleted (batch : Z)
  | EvError (batch : Z) (e : XrpcError).

(** [clock] is what [Date.now()] returns; time passes during a [sleep] and
    during a remote call and nowhere else. *)
Record St : Type := mkSt {
  clock : Z;
  trace : list Event
}.

Definition emit (e : Event) (s : St) : St :=
  {| clock := clock s; trace := trace s ++ [e] |}.

Definition tick (ms : Z) (s : St) : St :=
  {| clock := clock s + ms; trace := trace s |}.

(** The delay [setTimeout] really uses: a delay below 1 ms or above
    2^31 - 1 ms is replaced by 1 ms. *)
Definition TIMEOUT_MAX : Z := 2147483647.

Definition timer_delay (ms : Z) : Z :=
  if (1 <=? ms) && (ms <=? TIMEOUT_MAX) then ms else 1.

(** [await sleep(ms)]: the timer is set for [timer_delay ms] and is taken
    to fire when it is due, not later. *)
Definition sleep (ms : Z) (s : St) : St :=
  tick (timer_delay ms) (emit (EvSleep ms) s).

(** What the server answers to the n-th call of each kind, and how long
    the call (the limiter's queue included) takes.  [WriteErr] is a call
    that rejects with an error object, whose [status] and [headers] may be
    missing; [WriteRejected] is a call that rejects with [null] or
    [undefined], on which the [catch] block itself throws when it reads
    [error.status] at line 160. *)
Inductive PageResponse : Type :=
  | PageOk (latency : Z) (records : list RepoRecord) (cursor : option string)
  | PageErr (latency : Z) (e : XrpcError).

Inductive WriteResponse : Type :=
  | WriteOk (latency : Z)
  | WriteErr (latency : Z) (e : XrpcError)
  | WriteRejected (latency : Z).

Inductive Exn : Type :=
  | ExnTypeError
  | ExnRpc (e : XrpcError).

(** How a piece of the async function ends: it returns, it throws, or it
    does not get any further ([Hangs]): an [await] on a call the script has
    no answer for, or a loop that has no last pass, which a real process
    leaves only when it runs out of memory. *)
Inductive Outcome (A : Type) : Type :=
  | Returned (a : A) (s : St)
  | Threw (e : Exn) (s : St)
  | Hangs (s : St).
Arguments Returned {A} a s.
Arguments Threw {A} e s.
Arguments Hangs {A} s.

Definition final {A : Type} (o : Outcome A) : St :=
  match o with
  | Returned _ s | Threw _ s | Hangs s => s
  end.

(* ================================================================== *)
(** * The scan (lines 41-110) *)
(* ================================================================== *)

Definition delete_of (r : RepoRecord) : DeleteOp :=
  {| op_type := DELETE_TYPE;
     collection := POST_COLLECTION;
     rkey := getRecordId (uri r) |}.

(** Lines 62-109: the loop over one page, pushing onto [deletes]. *)
Fixpoint classify (domain : string) (records : list RepoRecord)
    (deletes : list DeleteOp) : result (list DeleteOp) :=
  match records with
  | [] => Ok deletes
  | r :: rest =>
      found <- matches domain (value r) ;;
      classify domain rest (if found then deletes ++ [delete_of r] else deletes)
  end.

Definition list_params (cursor : option string) : ListParams :=
  {| lp_collection := POST_COLLECTION;
     lp_limit := 100;
     lp_cursor := cursor;
     lp_reverse := true |}.

(** [while (cursor)]. *)
Definition cursor_truthy (cursor : option string) : bool :=
  match cursor with
  | Some c => negb (String.eqb c "")
  | None => false
  end.

(** The [do ... while (cursor)] loop, one scripted answer per pass. *)
Fixpoint scan_loop (domain : string) (pages : list PageResponse)
    (cursor : option string) (deletes : list DeleteOp) (s : St)
    : Outcome (list DeleteOp) :=
  let s1 := emit (EvListRecords (list_params cursor)) s in
  match pages with
  | [] => Hangs s1
  | PageErr latency e :: _ => Threw (ExnRpc e) (tick latency s1)
  | PageOk latency records cursor' :: rest =>
      let s2 := tick latency s1 in
      match classify domain records deletes with
      | TypeError => Threw ExnTypeError s2
      | Ok deletes' =>
          if cursor_truthy cursor'
          then scan_loop domain rest cursor' deletes' s2
          else Returned deletes' s2
      end
  end.

(** Lines 41-42 and the loop: [deletes = []], [cursor] undefined. *)
Definition scan (cfg : Config) (pages : list PageResponse) (s : St)
    : Outcome (list DeleteOp) :=
  scan_loop (TARGET_DOMAIN cfg) pages None [] s.

(* ================================================================== *)
(** * The wait after a 429 (lines 162-172) *)
(* ================================================================== *)

(** A number that may be [NaN]. *)
Inductive JsNumber : Type :=
  | NaN
  | Num (z : Z).

(** The integers a double holds exactly. *)
Definition safe_integer (z : Z) : Prop :=
  - 9007199254740992 <= z <= 9007199254740992.

Module JsNumber.

Definition sub (a b : JsNumber) : JsNumber :=
  match a, b with
  | Num x, Num y => Num (x - y)
  | _, _ => NaN
  end.

(** [a > 0]; every comparison with [NaN] is false. *)
Definition positive (a : JsNumber) : bool :=
  match a with
  | Num x => 0 <? x
  | NaN => false
  end.

(** White space that [parseInt] skips, among the characters a header
    value can hold: TAB, LF, VT, FF, CR, space, NBSP. *)
Definition is_space (c : ascii) : bool :=
  let n := nat_of_ascii c in
  (Nat.eqb n 9 || Nat.eqb n 10 || Nat.eqb n 11 || Nat.eqb n 12
   || Nat.eqb n 13 || Nat.eqb n 32 || Nat.eqb n 160)%bool.

Fixpoint skip_spaces (s : string) : string :=
  match s with
  | String c s' => if is_space c then skip_spaces s' else s
  | EmptyString => s
  end.

Definition digit (c : ascii) : option Z :=
  let n := nat_of_ascii c in
  if (Nat.leb 48 n && Nat.leb n 57)%bool then Some (Z.of_nat n - 48) else None.

(** The longest prefix of decimal digits, read left to right; [acc] is
    [None] until a digit has been read. *)
Fixpoint digits (s : string) (acc : option Z) : option Z :=
  match s with
  | String c s' =>
      match digit c with
      | Some d => digits s' (Some (10 * match acc with Some a => a | None => 0 end + d))
      | None => acc
      end
  | EmptyString => acc
  end.

(** [parseInt(s, 10)]: leading white space, an optional sign, then
    digits; [NaN] when no digit follows.  The digits are read as the exact
    integer.  The source gets a double, which is that integer up to 2^53 in
    absolute value and a rounding of it beyond: statements that use the
    value of [Num z] are made for [safe_integer z] only. *)
Definition parseInt (s : string) : JsNumber :=
  let s1 := skip_spaces s in
  let '(sign, s2) :=
    match s1 with
    | String c rest =>
        if Ascii.eqb c "-" then (-1, rest)
        else if Ascii.eqb c "+" then (1, rest)
        else (1, s1)
    | EmptyString => (1, s1)
    end in
  match digits s2 None with
  | Some n => Num (sign * n)
  | None => NaN
  end.

End JsNumber.

Fixpoint header (name : string) (hs : list (string * string)) : option string :=
  match hs with
  | [] => None
  | (k, v) :: rest => if String.eqb k name then Some v else header name rest
  end.

(** [error.headers?.['ratelimit-reset']]. *)
Definition resetTimeStr (e : XrpcError) : option string :=
  match headers e with
  | Some hs => header "ratelimit-reset" hs
  | None => None
  end.

(** Lines 162-172: the value of [waitSeconds] at line 174, [now_ms] being
    what [Date.now()] returns at line 167. *)
Definition waitSeconds (e : XrpcError) (now_ms : Z) : Z :=
  match resetTimeStr e with
  | Some str =>
      if negb (String.eqb str "")
      then
        let resetTime := JsNumber.parseInt str in
        let nowSec := now_ms / 1000 in
        let diff := JsNumber.sub resetTime (Num nowSec) in
        if JsNumber.positive diff
        then match diff with Num d => d | NaN => 60 end
        else 60
      else 60
  | None => 60
  end.

(* ================================================================== *)
(** * The dispatch loop (lines 122-194) *)
(* ================================================================== *)

(** [error.status === 429]. *)
Definition is_rate_limit (e : XrpcError) : bool :=
  match status e with
  | Some st => st =? 429
  | None => false
  end.

(** Lines 148-183: [while (!success)], one scripted answer per pass.  The
    boolean is the value of [success] when the loop is left. *)
Fixpoint retry_loop (batch : Z) (chunk : list DeleteOp)
    (answers : list WriteResponse) (s : St)
    : Outcome (bool * list WriteResponse) :=
  let s1 := emit (EvApplyWrites chunk) s in
  match answers with
  | [] => Hangs s1
  | WriteOk latency :: rest =>
      Returned (true, rest) (emit (EvCompleted batch) (tick latency s1))
  | WriteErr latency e :: rest =>
      let s2 := tick latency s1 in
      if is_rate_limit e
      then retry_loop batch chunk rest (sleep (waitSeconds e (clock s2) * 1000) s2)
      else Returned (false, rest) (emit (EvError batch e) s2)
  | WriteRejected latency :: _ => Threw ExnTypeError (tick latency s1)
  end.

(** Lines 130-143: the check made before a batch of [n] deletes. *)
Definition quota_check (cfg : Config) (q : QuotaWindow) (n : Z) (s : St)
    : QuotaWindow * St :=
  if deletesThisHour q + n >? threshold cfg
  then
    let elapsed := clock s - hourWindowStart q in
    let s1 := if elapsed <? oneHourMs then sleep (oneHourMs - elapsed) s else s in
    ({| hourWindowStart := clock s1; deletesThisHour := 0 |}, s1)
  else (q, s).

(** Lines 126-194: the [for] loop over the chunks, [idx] counting from 0. *)
Fixpoint dispatch_loop (cfg : Config) (chunks : list (list DeleteOp)) (idx : Z)
    (q : QuotaWindow) (answers : list WriteResponse) (s : St)
    : Outcome (QuotaWindow * list WriteResponse) :=
  match chunks with
  | [] => Returned (q, answers) s
  | chunk :: later =>
      let n := Z.of_nat (List.length chunk) in
      let '(q1, s1) := quota_check cfg q n s in
      let s2 := emit (EvDeleting (idx + 1) n q1) s1 in
      match retry_loop (idx + 1) chunk answers s2 with
      | Returned (true, rest) s3 =>
          let q2 := {| hourWindowStart := hourWindowStart q1;
                       deletesThisHour := deletesThisHour q1 + n |} in
          dispatch_loop cfg later (idx + 1) q2 rest
            (sleep (DELAY_BETWEEN_BATCHES_MS cfg) s3)
      | Returned (false, rest) s3 => Returned (q1, rest) s3
      | Threw e s3 => Threw e s3
      | Hangs s3 => Hangs s3
      end
  end.

(** The body of the async function from line 41 on. *)
Definition main (cfg : Config) (pages : list PageResponse)
    (answers : list WriteResponse) (s : St) : Outcome unit :=
  match scan cfg pages s with
  | Returned deletes s1 =>
      if Nat.eqb (List.length deletes) 0
      then Returned tt s1
      else
        match chunked deletes (DELETES_PER_BATCH cfg) with
        | None => Hangs s1
        | Some chunkedDeletes =>
            let q := {| hourWindowStart := clock s1; deletesThisHour := 0 |} in
            match dispatch_loop cfg chunkedDeletes 0 q answers s1 with
            | Returned _ s2 => Returned tt s2
            | Threw e s2 => Threw e s2
            | Hangs s2 => Hangs s2
            end
        end
  | Threw e s1 => Threw e s1
  | Hangs s1 => Hangs s1
  end.

(* ================================================================== *)
(** * Reading a trace *)
(* ================================================================== *)

(** How a work unit ends (the two log lines 157 and 178). *)
Inductive DispatchOutcome : Type :=
  | Succeeded
  | Aborted (e : XrpcError).

(** The argument of every [applyWrites] call, in order. *)
Fixpoint attempts (evs : list Event) : list (list DeleteOp) :=
  match evs with
  | [] => []
  | EvApplyWrites writes :: rest => writes :: attempts rest
  | _ :: rest => attempts rest
  end.

(** The argument of every [sleep], in order. *)
Fixpoint sleeps (evs : list Event) : list Z :=
  match evs with
  | [] => []
  | EvSleep ms :: rest => ms :: sleeps rest
  | _ :: rest => sleeps rest
  end.

(** The batches that ended, with how they ended. *)
Fixpoint outcomes (evs : list Event) : list (Z * DispatchOutcome) :=
  match evs with
  | [] => []
  | EvCompleted batch :: rest => (batch, Succeeded) :: outcomes rest
  | EvError batch e :: rest => (batch, Aborted e) :: outcomes rest
  | _ :: rest => outcomes rest
  end.

(** The size of each batch about to be sent, with the quota variables at
    that moment. *)
Fixpoint probes (evs : list Event) : list (Z * QuotaWindow) :=
  match evs with
  | [] => []
  | EvDeleting _ n q :: rest => (n, q) :: probes rest
  | _ :: rest => probes rest
  end.

(** The parameters of every [listRecords] call, in order. *)
Fixpoint requests (evs : list Event) : list ListParams :=
  match evs with
  | [] => []
  | EvListRecords p :: rest => p :: requests rest
  | _ :: rest => requests rest
  end.

(** [n] batches numbered from [idx + 1] on, all succeeded. *)
Fixpoint succeeded_from (idx : Z) (n : nat) : list (Z * DispatchOutcome) :=
  match n with
  | O => []
  | S n' => (idx + 1, Succeeded) :: succeeded_from (idx + 1) n'
  end.

(** Scripted answers: [errors] are the failed calls of one unit, each with
    its latency. *)
Definition failures (errors : list (Z * XrpcError)) : list WriteResponse :=
  map (fun le => WriteErr (fst le) (snd le)) errors.

Definition all_rate_limited (errors : list (Z * XrpcError)) : Prop :=
  Forall (fun le => is_rate_limit (snd le) = true) errors.

(** The wait that follows each failed call: what line 175 computes from
    that error at some reading of the clock. *)
Definition waits_match (ms : list Z) (errors : list (Z * XrpcError)) : Prop :=
  Forall2 (fun w le => exists t, w = waitSeconds (snd le) t * 1000 /\ 0 < w) ms errors.

(** A unit that goes through: its chunk, the 429 answers it meets first,
    and the latency of the call that succeeds. *)
Record GoodUnit : Type := mkGoodUnit {
  gu_chunk : list DeleteOp;
  gu_errors : list (Z * XrpcError);
  gu_latency : Z
}.

Definition good_answers (u : GoodUnit) : list WriteResponse :=
  failures (gu_errors u) ++ [WriteOk (gu_latency u)].

Definition good_attempts (u : GoodUnit) : list (list DeleteOp) :=
  repeat (gu_chunk u) (S (List.length (gu_errors u))).

(** What line 130 and the reset leave true when a batch of [n] is about
    to be sent with the quota variables [q]: the batch fits under the
    threshold, or the window has just been reset. *)
Definition probe_ok (cfg : Config) (np : Z * QuotaWindow) : Prop :=
  0 <= fst np /\
  0 <= deletesThisHour (snd np) /\
  (deletesThisHour (snd np) + fst np <= threshold cfg
   \/ deletesThisHour (snd np) = 0).

(** Scripted pages: the pages before the last, each with a cursor. *)
Definition middle_pages (mid : list (Z * list RepoRecord * string)) : list PageResponse :=
  map (fun p => PageOk (fst (fst p)) (snd (fst p)) (Some (snd p))) mid.

Definition middle_records (mid : list (Z * list RepoRecord * string)) : list RepoRecord :=
  concat (map (fun p => snd (fst p)) mid).

Definition middle_cursors (mid : list (Z * list RepoRecord * string)) : list (option string) :=
  map (fun p => Some (snd p)) mid.

(** The verdict of the matching block on a record, [false] when it throws. *)
Definition is_match (domain : string) (r : RepoRecord) : bool :=
  match matches domain (value r) with
  | Ok true => true
  | _ => false
  end.

(** The matching block returns on this record, with whichever verdict. *)
Definition classifiable (domain : string) (r : RepoRecord) : Prop :=
  exists b, matches domain (value r) = Ok b.

(** The run made no remote call and went to no sleep before it ended. *)
Definition halts_before_any_call {A : Type} (s : St) (o : Outcome A) : Prop :=
  match o with
  | Returned _ s' | Threw _ s' => trace s' = trace s
  | Hangs _ => False
  end.

(** Sample runs. *)
Module Runs.

Definition start : St := {| clock := 1734256800000; trace := [] |}.

Definition limited (reset : option string) : XrpcError :=
  {| status := Some 429;
     headers := match reset with
                | Some r => Some [("ratelimit-limit", "5000"); ("ratelimit-reset", r)]
                | None => Some [("ratelimit-limit", "5000")]
                end |}.

Definition server_error : XrpcError :=
  {| status := Some 500; headers := None |}.

Definition post (u : string) (val : JValue) : RepoRecord :=
  {| uri := u; value := val |}.

Definition op (key : string) : DeleteOp :=
  {| op_type := DELETE_TYPE; collection := POST_COLLECTION; rkey := key |}.

Definition zero_batch : Config :=
  {| TARGET_DOMAIN := TARGET_DOMAIN source_config;
     MAX_DELETES_PER_HOUR := MAX_DELETES_PER_HOUR source_config;
     DELETES_PER_BATCH := 0;
     DELAY_BETWEEN_BATCHES_MS := DELAY_BETWEEN_BATCHES_MS source_config;
     SAFE_MARGIN := SAFE_MARGIN source_config |}.

Definition one_page : list PageResponse :=
  [PageOk 120 [post "at://did:plc:abc/app.bsky.feed.post/3kaaa" Samples.post_with_link] None].

End Runs.

(* ================================================================== *)
(** * Statements about whole runs *)
(* ================================================================== *)

(** Two values agree on the three fields the matching block reads. *)
Definition same_sources (v v' : JValue) : Prop :=
  Js.field v "facets" = Js.field v' "facets" /\
  Js.field v "embed" = Js.field v' "embed" /\
  Js.field v "entities" = Js.field v' "entities".

(** A delete as lines 103-107 build it: the two literals, and a record
    key with no ['/'] in it. *)
Definition delete_ok (d : DeleteOp) : Prop :=
  op_type d = "com.atproto.repo.applyWrites#delete"%string /\
  collection d = "app.bsky.feed.post"%string /\
  ~ JsString.occurs slash (rkey d).

(** A batch of [n] deletes, at most [bound] of them, sent with the quota
    variables [q] such that the hour's count stays under the threshold
    even when the batch succeeds. *)
Definition batch_fits (cfg : Config) (bound : Z) (np : Z * QuotaWindow) : Prop :=
  0 <= fst np <= bound /\
  0 <= deletesThisHour (snd np) /\
  deletesThisHour (snd np) + fst np <= threshold cfg.

(** The [listRecords] calls of a scan that starts with [cursor] and goes
    through the pages [mid]. *)
Definition scan_requests (cursor : option string)
    (mid : list (Z * list RepoRecord * string)) : list Event :=
  map (fun c => EvListRecords {| lp_collection := "app.bsky.feed.post";
                                 lp_limit := 100;
                                 lp_cursor := c;
                                 lp_reverse := true |})
      (cursor :: middle_cursors mid).

(** A link annotation to the domain, beside entities that the block
    cannot read: a [null] and a link entity without [value]. *)
Definition linked_with_bad_entities : JValue :=
  JObj [("facets",
         JArr [JObj [("features",
                      JArr [JObj [("$type", JStr FACET_LINK);
                                  ("uri", JStr "https://futura-sciences.com/")]])]]);
        ("entities", JArr [JNull; JObj [("type", JStr ENTITY_LINK)]])].

(** The records of the pages of a script, failed calls holding none. *)
Definition page_records (pages : list PageResponse) : list RepoRecord :=
  concat (map (fun p => match p with
                        | PageOk _ records _ => records
                        | PageErr _ _ => []
                        end) pages).

(** The delete of a record of these pages on which the matching block
    answers [true]. *)
Definition delete_of_a_match (domain : string) (pages : list PageResponse)
    (d : DeleteOp) : Prop :=
  exists r, In r (page_records pages) /\
            matches domain (value r) = Ok true /\
            d = delete_of r.

(** No batch is reported completed in these events. *)
Definition no_completed (evs : list Event) : Prop :=
  Forall (fun ev => match ev with EvCompleted _ => False | _ => True end) evs.

(** Every batch reported completed is followed at once by a sleep of
    [delay] ms. *)
Fixpoint paced (delay : Z) (evs : list Event) : Prop :=
  match evs with
  | [] => True
  | EvCompleted _ :: rest =>
      (exists rest', rest = EvSleep delay :: rest') /\ paced delay rest
  | _ :: rest => paced delay rest
  end.

(** The matching block throws on this record. *)
Definition unclassifiable (domain : string) (r : RepoRecord) : Prop :=
  matches domain (value r) = TypeError.

(* ================================================================== *)
(** * The matching block on every value *)
(* ================================================================== *)

Section ElementEvidence.

Variable domain : string.













End ElementEvidence.












(* ================================================================== *)
(** * The loop of chunked, pass by pass *)
(* ================================================================== *)

(** One pass of the [for] loop of lines 33-35 from the state [(idx,
    chunks)]: the next state, or [None] when the test [idx < arr.length]
    fails and the loop is left. *)
Definition chunked_pass {T : Type} (arr : list T) (size : Z)
    (st : Z * list (list T)) : option (Z * list (list T)) :=
  if fst st <? Z.of_nat (List.length arr)
  then Some (fst st + size, snd st ++ [array_slice arr (fst st) (fst st + size)])
  else None.

(** The state after [k] passes, [None] when the loop was left before. *)
Fixpoint chunked_passes {T : Type} (k : nat) (arr : list T) (size : Z)
    (st : Z * list (list T)) : option (Z * list (list T)) :=
  match k with
  | O => Some st
  | S k' =>
      match chunked_pass arr size st with
      | Some st' => chunked_passes k' arr size st'
      | None => None
      end
  end.

(* ================================================================== *)
(** * Statements about the quota window and the retries *)
(* ================================================================== *)

Definition latency_of (a : WriteResponse) : Z :=
  match a with
  | WriteOk latency | WriteErr latency _ | WriteRejected latency => latency
  end.

(** No call takes a negative time. *)
Definition timely (answers : list WriteResponse) : Prop :=
  Forall (fun a => 0 <= latency_of a) answers.

(** What line 130 and lines 131-142 make of the quota variables [q]
    before a batch of [n]: left as they are when the batch fits under
    [MAX_DELETES_PER_HOUR - SAFE_MARGIN], a count of 0 otherwise. *)
Definition checked (cfg : Config) (q : QuotaWindow) (n : Z) (q1 : QuotaWindow) : Prop :=
  (deletesThisHour q + n <= MAX_DELETES_PER_HOUR cfg - SAFE_MARGIN cfg /\ q1 = q)
  \/ (deletesThisHour q + n > MAX_DELETES_PER_HOUR cfg - SAFE_MARGIN cfg /\
      deletesThisHour q1 = 0).

(** The batches of a run in turn, from the quota variables [q]: each is
    sent with the variables the check makes of those left by the batch
    before, which counted its own size when it succeeded. *)
Fixpoint windows_from (cfg : Config) (q : QuotaWindow)
    (ps : list (Z * QuotaWindow)) : Prop :=
  match ps with
  | [] => True
  | (n, q1) :: rest =>
      checked cfg q n q1 /\
      windows_from cfg {| hourWindowStart := hourWindowStart q1;
                          deletesThisHour := deletesThisHour q1 + n |} rest
  end.

(** Each batch of a run is sent in the window of the batch before, or in
    one started 3600000 ms or more after that one. *)
Fixpoint hours_apart (q : QuotaWindow) (ps : list (Z * QuotaWindow)) : Prop :=
  match ps with
  | [] => True
  | (n, q1) :: rest =>
      (q1 = q \/ hourWindowStart q + 3600000 <= hourWindowStart q1) /\
      hours_apart {| hourWindowStart := hourWindowStart q1;
                     deletesThisHour := deletesThisHour q1 + n |} rest
  end.

(** The sizes of the first [k] chunks. *)
Definition sizes (chunks : list (list DeleteOp)) : list Z :=
  map (fun c => Z.of_nat (List.length c)) chunks.

(** Errors whose [status] is the number 429. *)
Definition all_429 (errors : list (Z * XrpcError)) : Prop :=
  Forall (fun le => status (snd le) = Some 429) errors.

(** The reading of the clock when a unit that has met the 429 answers
    [errors] from the reading [t] on makes its next call: each failed call
    takes its latency, and the timer of the sleep that follows takes
    [timer_delay] of the wait computed when the call has failed. *)
Fixpoint resumes_at (errors : list (Z * XrpcError)) (t : Z) : Z :=
  match errors with
  | [] => t
  | (latency, e) :: rest =>
      resumes_at rest
        (t + latency + timer_delay (waitSeconds e (t + latency) * 1000))
  end.

(** No unit has ended on an error whose [status] is 429. *)
Definition no_429_surfaces (outs : list (Z * DispatchOutcome)) : Prop :=
  Forall (fun o => match snd o with
                   | Aborted e => status e <> Some 429
                   | Succeeded => True
                   end) outs.

(** The header list holds no entry of this name. *)
Definition no_header (name : string) (hs : list (string * string)) : Prop :=
  Forall (fun kv => fst kv <> name) hs.

(** The loop over [done], run from [idx], [q0], [answers0] and [s0], has
    gone through with every unit succeeded, and stands before the next
    unit with the quota variables [q], the answers [rest] still to come and
    the state [s]. *)
Definition reaches (cfg : Config) (done : list (list DeleteOp)) (idx : Z)
    (q0 : QuotaWindow) (answers0 : list WriteResponse) (s0 : St)
    (q : QuotaWindow) (rest : list WriteResponse) (s : St) : Prop :=
  dispatch_loop cfg done idx q0 answers0 s0 = Returned (q, rest) s /\
  exists evs,
    trace s = trace s0 ++ evs /\
    outcomes evs = succeeded_from idx (List.length done).

(** Induction on a trace, by the kind of its first event. *)
Ltac by_events evs :=
  induction evs as [|[] ? ?]; simpl; intros; try f_equal; auto.

(* ================================================================== *)
(** * Properties of the string operations *)
(* ================================================================== *)

Section StringFacts.

Import JsString.

Lemma startsWith_spec (s d : string) :
  startsWith s d = true <-> exists post, s = (d ++ post)%string.
Proof.
  revert s. induction d as [|c d IH]; intros s; simpl.
  - split; [intros _; now exists s | reflexivity].
  - destruct s as [|a s].
    + split; [discriminate | intros [post H]; discriminate].
    + rewrite andb_true_iff, IH. split.
      * intros [Hac [post ->]]. apply Ascii.eqb_eq in Hac. subst. now exists post.
      * intros [post H]. injection H as -> ->. split.
        -- apply Ascii.eqb_refl.
        -- now exists post.
Qed.

Lemma includes_spec (s d : string) :
  includes s d = true <-> contains s d.
Proof.
  unfold contains. induction s as [|a s IH]; simpl.
  - rewrite orb_false_r, startsWith_spec. split.
    + intros [post H]. now exists EmptyString, post.
    + intros [pre [post H]]. destruct pre; simpl in H.
      * now exists post.
      * discriminate.
  - rewrite orb_true_iff, startsWith_spec, IH. split.
    + intros [[post H] | [pre [post H]]].
      * now exists EmptyString, post.
      * exists (String a pre), post. simpl. now rewrite H.
    + intros [pre [post H]]. destruct pre as [|b pre]; simpl in H.
      * left. now exists post.
      * right. injection H as _ H. now exists pre, post.
Qed.

Lemma drop_app (pre t : string) : drop (String.length pre) (pre ++ t) = t.
Proof. induction pre; simpl; auto. Qed.

Lemma occurs_app (c : ascii) (a b : string) :
  occurs c (a ++ b) <-> occurs c a \/ occurs c b.
Proof. induction a; simpl; tauto. Qed.

(** Where the scan of [lastIndexOf] ends: on the accumulator when the
    character is absent, on the position of its last occurrence otherwise. *)
Lemma lastIndexOf_from_spec (s : string) (c : ascii) (i acc : Z) :
  (~ occurs c s /\ lastIndexOf_from s c i acc = acc) \/
  (exists pre post, s = (pre ++ String c post)%string /\ ~ occurs c post /\
     lastIndexOf_from s c i acc = i + Z.of_nat (String.length pre)).
Proof.
  revert i acc. induction s as [|a s IH]; intros i acc; simpl.
  - left. tauto.
  - destruct (IH (i + 1) (if Ascii.eqb a c then i else acc))
      as [[Hno Heq] | [pre [post [Hs [Hno Heq]]]]].
    + destruct (Ascii.eqb_spec a c) as [->|Hne].
      * right. exists EmptyString, s. simpl. repeat split; auto. lia.
      * left. split; [tauto | assumption].
    + right. exists (String a pre), post. rewrite Heq. subst s. simpl.
      repeat split; auto. lia.
Qed.

(** The last occurrence splits a string in one way only. *)
Lemma last_split_unique (c : ascii) (p1 t1 p2 t2 : string) :
  (p1 ++ String c t1 = p2 ++ String c t2)%string ->
  ~ occurs c t1 -> ~ occurs c t2 -> p1 = p2 /\ t1 = t2.
Proof.
  revert p2. induction p1 as [|a p1 IH]; intros [|b p2] H H1 H2; simpl in H.
  - injection H as ->. auto.
  - injection H as -> ->. exfalso. apply H1. apply occurs_app. right. simpl. auto.
  - injection H as -> <-. exfalso. apply H2. apply occurs_app. right. simpl. auto.
  - injection H as -> H. destruct (IH _ H H1 H2) as [-> ->]. auto.
Qed.

Lemma slice_zero (s : string) : slice s 0 = s.
Proof.
  unfold slice. simpl. rewrite Z.min_l by lia. reflexivity.
Qed.

Lemma slice_after (pre : string) (c : ascii) (post : string) :
  slice (pre ++ String c post) (Z.of_nat (String.length pre) + 1) = post.
Proof.
  unfold slice.
  assert (Hlen : String.length (pre ++ String c post)
                 = (String.length pre + S (String.length post))%nat).
  { induction pre; simpl; auto. }
  rewrite Hlen.
  destruct (Z.ltb_spec (Z.of_nat (String.length pre) + 1) 0); [lia|].
  rewrite Z.min_l by lia.
  replace (Z.to_nat (Z.of_nat (String.length pre) + 1)) with (S (String.length pre)) by lia.
  clear. induction pre; simpl; auto.
Qed.

(** The two cases of [getRecordId]. *)
Lemma getRecordId_cases (uri : string) :
  (~ occurs slash uri /\ getRecordId uri = uri) \/
  (exists pre, uri = (pre ++ String slash (getRecordId uri))%string /\
     ~ occurs slash (getRecordId uri)).
Proof.
  unfold getRecordId, lastIndexOf.
  destruct (lastIndexOf_from_spec uri slash 0 (-1))
    as [[Hno ->] | [pre [post [-> [Hno ->]]]]].
  - left. split; auto. apply slice_zero.
  - right. exists pre. simpl (0 + _). rewrite slice_after. auto.
Qed.

End StringFacts.

(** C10.  Whatever the uri, [getRecordId] returns what follows its last
    ['/']: for a uri [pre ++ "/" ++ post] with no ['/'] in [post] it returns
    [post]; for a uri with no ['/'] at all it returns the whole uri; for a
    uri that ends in ['/'] it returns the empty string. *)
Theorem getRecordId_after_last_slash (uri : string) :
  (forall pre post, uri = (pre ++ "/" ++ post)%string ->
     ~ JsString.occurs slash post -> getRecordId uri = post) /\
  (~ JsString.occurs slash uri -> getRecordId uri = uri) /\
  (forall pre, uri = (pre ++ "/")%string -> getRecordId uri = ""%string).
Proof.
  assert (Hgen : forall pre post, uri = (pre ++ "/" ++ post)%string ->
            ~ JsString.occurs slash post -> getRecordId uri = post).
  { intros pre post Huri Hpost.
    destruct (getRecordId_cases uri) as [[Hno _] | [pre' [Hsplit Hno]]].
    - exfalso. apply Hno. rewrite Huri. apply occurs_app. right. simpl. auto.
    - rewrite Huri in Hsplit at 1. simpl in Hsplit.
      destruct (last_split_unique _ _ _ _ _ Hsplit Hpost Hno) as [_ Heq].
      now rewrite <- Heq. }
  split; [exact Hgen|]. split.
  - intros Hno. destruct (getRecordId_cases uri) as [[_ H] | [pre [Hsplit _]]]; auto.
    exfalso. apply Hno. rewrite Hsplit. apply occurs_app. right. simpl. auto.
  - intros pre Huri. apply (Hgen pre ""%string); auto.
Qed.

Lemma getRecordId_after_last_slash_witness :
  getRecordId "at://did:plc:abc/app.bsky.feed.post/3kabc" = "3kabc"%string /\
  getRecordId "3kabc" = "3kabc"%string /\
  getRecordId "at://did:plc:abc/" = ""%string.
Proof.
  split; [|split].
  - apply (proj1 (getRecordId_after_last_slash _) "at://did:plc:abc/app.bsky.feed.post"%string).
    + reflexivity.
    + simpl. intros H. repeat (destruct H as [H|H]; [discriminate H|]). exact H.
  - apply (proj1 (proj2 (getRecordId_after_last_slash _))).
    simpl. intros H. repeat (destruct H as [H|H]; [discriminate H|]). exact H.
  - apply (proj2 (proj2 (getRecordId_after_last_slash _)) "at://did:plc:abc"%string).
    reflexivity.
Defined.

(* ================================================================== *)
(** * chunked *)
(* ================================================================== *)

Section ChunkedFacts.

Context {T : Type}.

Implicit Types (arr : list T) (chunks more : list (list T)).

(** The slice taken at line 34 when the index is inside the array. *)
Lemma array_slice_inside arr (size idx : Z) :
  0 < size -> 0 <= idx < Z.of_nat (List.length arr) ->
  array_slice arr idx (idx + size) =
  firstn (Z.to_nat (Z.min size (Z.of_nat (List.length arr) - idx)))
         (skipn (Z.to_nat idx) arr).
Proof.
  intros Hsize Hidx. unfold array_slice.
  destruct (Z.ltb_spec idx 0); [lia|].
  destruct (Z.ltb_spec (idx + size) 0); [lia|].
  rewrite (Z.min_l idx) by lia. f_equal. lia.
Qed.

(** More fuel does not change a result. *)
Lemma chunked_loop_fuel_mono (fuel fuel' : nat) arr (size idx : Z) chunks r :
  chunked_loop fuel arr size idx chunks = Some r -> (fuel <= fuel')%nat ->
  chunked_loop fuel' arr size idx chunks = Some r.
Proof.
  revert fuel' idx chunks. induction fuel as [|fuel IH]; intros fuel' idx chunks H Hle.
  - discriminate.
  - destruct fuel' as [|fuel']; [lia|]. simpl in *.
    destruct (idx <? Z.of_nat (List.length arr)); auto.
    apply IH; [assumption | lia].
Qed.

(** With a step that does not advance, the test of line 33 never fails. *)
Lemma chunked_loop_never_ends (fuel : nat) arr (size idx : Z) chunks :
  size <= 0 -> idx < Z.of_nat (List.length arr) ->
  chunked_loop fuel arr size idx chunks = None.
Proof.
  intros Hsize. revert idx chunks.
  induction fuel as [|fuel IH]; intros idx chunks Hidx; simpl; auto.
  destruct (Z.ltb_spec idx (Z.of_nat (List.length arr))); [|lia].
  apply IH. lia.
Qed.

(** What the loop adds to [chunks] from index [idx] on. *)
Lemma chunked_loop_spec (fuel : nat) arr (size idx : Z) chunks :
  0 < size -> 0 <= idx ->
  (Z.to_nat (Z.of_nat (List.length arr) - idx) < fuel)%nat ->
  exists more,
    chunked_loop fuel arr size idx chunks = Some (chunks ++ more) /\
    concat more = skipn (Z.to_nat idx) arr /\
    Z.of_nat (List.length more)
      = (Z.max (Z.of_nat (List.length arr) - idx) 0 + size - 1) / size /\
    Forall (fun u => 0 < Z.of_nat (List.length u) <= size) more /\
    Forall (fun u => Z.of_nat (List.length u) = size) (removelast more).
Proof.
  intros Hsize. revert idx chunks.
  induction fuel as [|fuel IH]; intros idx chunks Hidx Hfuel; [lia|].
  simpl. set (len := Z.of_nat (List.length arr)) in *.
  destruct (Z.ltb_spec idx len) as [Hlt|Hge].
  - destruct (IH (idx + size) (chunks ++ [array_slice arr idx (idx + size)]))
      as [more [Hrun [Hcat [Hcount [Hall Hfront]]]]]; [lia | lia |].
    exists (array_slice arr idx (idx + size) :: more).
    assert (Hslice := array_slice_inside arr size idx Hsize (conj Hidx Hlt)).
    fold len in Hslice.
    assert (Hlen : Z.of_nat (List.length (array_slice arr idx (idx + size)))
                   = Z.min size (len - idx)).
    { rewrite Hslice, length_firstn, length_skipn. unfold len. lia. }
    split; [|split; [|split; [|split]]].
    + rewrite Hrun, <- app_assoc. reflexivity.
    + simpl. rewrite Hcat, Hslice.
      destruct (Z.le_gt_cases (len - idx) size) as [Hshort|Hlong].
      * rewrite Z.min_r by lia.
        rewrite (skipn_all2 (n := Z.to_nat (idx + size))) by (unfold len in *; lia).
        rewrite app_nil_r. apply firstn_all2. rewrite length_skipn. unfold len. lia.
      * rewrite Z.min_l by lia.
        replace (Z.to_nat (idx + size)) with (Z.to_nat size + Z.to_nat idx)%nat by lia.
        rewrite <- skipn_skipn. apply firstn_skipn.
    + simpl List.length. rewrite Nat2Z.inj_succ, Hcount.
      destruct (Z.le_gt_cases (len - idx) size) as [Hshort|Hlong].
      * rewrite (Z.max_r (len - (idx + size))) by lia.
        rewrite (Z.max_l (len - idx)) by lia.
        rewrite (Z.div_small (0 + size - 1)) by lia.
        apply Z.div_unique with (r := len - idx - 1); lia.
      * rewrite (Z.max_l (len - (idx + size))) by lia.
        rewrite (Z.max_l (len - idx)) by lia.
        replace (len - idx + size - 1) with (len - (idx + size) + size - 1 + 1 * size) by lia.
        rewrite Z.div_add by lia. lia.
    + constructor; [lia | assumption].
    + destruct more as [|u more']; [constructor|].
      change (removelast (array_slice arr idx (idx + size) :: u :: more'))
        with (array_slice arr idx (idx + size) :: removelast (u :: more')).
      constructor; [|assumption].
      destruct (Z.le_gt_cases (len - idx) size) as [Hshort|Hlong]; [|lia].
      exfalso. simpl List.length in Hcount. rewrite Nat2Z.inj_succ in Hcount.
      rewrite (Z.max_r (len - (idx + size))) in Hcount by lia.
      rewrite (Z.div_small (0 + size - 1)) in Hcount by lia. lia.
  - exists []. rewrite app_nil_r. split; [reflexivity|].
    split; [|split; [|split]].
    + simpl. symmetry. apply skipn_all2. unfold len in *. lia.
    + simpl. rewrite Z.max_r by lia. symmetry. apply Z.div_small. lia.
    + constructor.
    + constructor.
Qed.

(** [chunked] answers [None] exactly when no amount of fuel ends the loop. *)
Lemma chunked_none_iff_diverges arr (size : Z) :
  chunked arr size = None <->
  forall fuel, chunked_loop fuel arr size 0 [] = None.
Proof.
  split; [|intros H; apply H].
  intros Hnone fuel. unfold chunked in Hnone.
  destruct (Z.le_gt_cases size 0) as [Hsize|Hsize].
  - destruct arr as [|x arr]; [discriminate|].
    apply chunked_loop_never_ends; simpl List.length; lia.
  - destruct (chunked_loop_spec (S (List.length arr)) arr size 0 [] Hsize)
      as [more [Hrun _]]; [lia | lia |].
    rewrite Hrun in Hnone. discriminate.
Qed.

End ChunkedFacts.

(** C6.  For a list of length L and a batch size B > 0, [chunked] returns
    ceil(L / B) units (none for the empty list); every unit holds between 1
    and B elements and every unit but the last holds exactly B; the units
    concatenated in order are the list. *)
Theorem chunked_partition {T : Type} (arr : list T) (B : Z) :
  0 < B ->
  exists units,
    chunked arr B = Some units /\
    Z.of_nat (List.length units) = (Z.of_nat (List.length arr) + B - 1) / B /\
    (arr = [] -> units = []) /\
    Forall (fun u => 0 < Z.of_nat (List.length u) <= B) units /\
    Forall (fun u => Z.of_nat (List.length u) = B) (removelast units) /\
    concat units = arr.
Proof.
  intros HB.
  destruct (chunked_loop_spec (S (List.length arr)) arr B 0 [] HB)
    as [more [Hrun [Hcat [Hcount [Hall Hfront]]]]]; [lia | lia |].
  exists more. unfold chunked. rewrite Hrun. simpl app.
  rewrite Z.sub_0_r, Z.max_l in Hcount by lia.
  repeat split; auto.
  intros ->. simpl in Hcount. rewrite Z.div_small in Hcount by lia.
  destruct more; [reflexivity | discriminate].
Qed.

Lemma chunked_partition_witness :
  exists units,
    chunked [1; 2; 3; 4; 5] 2 = Some units /\
    Z.of_nat (List.length units) = (Z.of_nat (List.length [1; 2; 3; 4; 5]) + 2 - 1) / 2 /\
    ([1; 2; 3; 4; 5] = [] -> units = []) /\
    Forall (fun u => 0 < Z.of_nat (List.length u) <= 2) units /\
    Forall (fun u => Z.of_nat (List.length u) = 2) (removelast units) /\
    concat units = [1; 2; 3; 4; 5].
Proof. apply (chunked_partition [1; 2; 3; 4; 5] 2). lia. Defined.

Example chunked_five_by_two :
  chunked [1; 2; 3; 4; 5] 2 = Some [[1; 2]; [3; 4]; [5]].
Proof. reflexivity. Qed.

(* ================================================================== *)
(** * The matching block *)
(* ================================================================== *)

Section MatcherFacts.

Variable domain : string.

Lemma find_break_existsb (check : JValue -> result bool) (p : JValue -> bool)
    (xs : list JValue) :
  (forall x, In x xs -> check x = Ok (p x)) ->
  Js.find_break check xs = Ok (existsb p xs).
Proof.
  induction xs as [|x xs IH]; intros H; simpl; [reflexivity|].
  rewrite (H x) by (left; reflexivity). simpl.
  destruct (p x); [reflexivity|].
  apply IH. intros y Hy. apply H. right. exact Hy.
Qed.

Lemma get_opt_some (val : JValue) (k : string) :
  Js.get_opt (Some val) k = Js.field val k.
Proof. destruct val; reflexivity. Qed.

Lemma is_string_true (v : option JValue) (lit : string) :
  Js.is_string v lit = true <-> v = Some (JStr lit).
Proof.
  destruct v as [[| | |s| |]|]; simpl; try (split; [discriminate | intros H; discriminate H]).
  rewrite String.eqb_eq. split; [intros -> | intros H; injection H]; auto.
Qed.

Lemma string_includes_true (v : option JValue) :
  string_includes domain v = true <->
  exists u, v = Some (JStr u) /\ JsString.contains u domain.
Proof.
  destruct v as [[| | |s| |]|]; simpl;
    try (split; [discriminate | intros [u [H _]]; discriminate H]).
  rewrite includes_spec. split.
  - intros H. now exists s.
  - intros [u [H Hu]]. injection H as ->. exact Hu.
Qed.

Lemma in_items_of (x : JValue) (v : option JValue) :
  In x (items_of v) <-> exists items, v = Some (JArr items) /\ In x items.
Proof.
  destruct v as [[| | | |items|]|]; simpl;
    try (split; [contradiction | intros [items' [H _]]; discriminate H]).
  split.
  - intros H. now exists items.
  - intros [items' [H Hin]]. injection H as ->. exact Hin.
Qed.

(** On a well-formed value each check returns, and returns its boolean
    counterpart. *)
Lemma feature_hit_wf (feature : JValue) :
  wf_feature feature = true ->
  feature_hit domain feature = Ok (link_feature domain feature).
Proof.
  unfold wf_feature, feature_hit, link_feature.
  destruct feature; simpl; try discriminate.
  destruct (Js.is_string (Js.lookup "$type" fields) FACET_LINK); simpl; [|reflexivity].
  destruct (Js.lookup "uri" fields) as [[| | |u| |]|]; simpl; try discriminate.
  reflexivity.
Qed.

Lemma facet_hit_wf (facet : JValue) :
  wf_facet facet = true ->
  facet_hit domain facet = Ok (link_facet domain facet).
Proof.
  unfold wf_facet, facet_hit, link_facet.
  destruct facet; simpl; try discriminate.
  destruct (Js.lookup "features" fields) as [[| | | |features|]|]; simpl;
    try discriminate; try reflexivity.
  intros Hall. apply find_break_existsb.
  intros x Hx. apply feature_hit_wf.
  rewrite forallb_forall in Hall. apply Hall, Hx.
Qed.

Lemma check_facets_wf (val : JValue) :
  absent_or_array wf_facet (Js.field val "facets") = true ->
  check_facets domain val = Ok (has_link domain val).
Proof.
  unfold check_facets, has_link. rewrite get_opt_some.
  destruct (Js.field val "facets") as [[| | | |facets|]|]; simpl;
    try discriminate; try reflexivity.
  intros Hall. apply find_break_existsb.
  intros x Hx. apply facet_hit_wf.
  rewrite forallb_forall in Hall. apply Hall, Hx.
Qed.

Lemma check_embed_wf (val : JValue) :
  wf_embed (Js.field val "embed") = true ->
  check_embed domain val = Ok (has_embed domain val).
Proof.
  unfold check_embed, has_embed. rewrite get_opt_some.
  destruct (Js.field val "embed") as [embed|]; simpl; [|reflexivity].
  destruct embed; simpl; try discriminate; try reflexivity.
  unfold embed_hit. simpl.
  destruct (Js.is_string (Js.lookup "$type" fields) EMBED_EXTERNAL); simpl; [|reflexivity].
  destruct (Js.lookup "external" fields) as [external|]; simpl; [|reflexivity].
  destruct external; simpl; try discriminate; try reflexivity.
  destruct (Js.lookup "uri" fields0) as [[| | |u| |]|]; simpl; try discriminate;
    reflexivity.
Qed.

Lemma entity_hit_wf (entity : JValue) :
  wf_entity entity = true ->
  entity_hit domain entity = Ok (link_entity domain entity).
Proof.
  unfold wf_entity, entity_hit, link_entity.
  destruct entity; simpl; try discriminate.
  destruct (Js.is_string (Js.lookup "type" fields) ENTITY_LINK); simpl; [|reflexivity].
  destruct (Js.lookup "value" fields) as [[| | |u| |]|]; simpl; try discriminate.
  reflexivity.
Qed.

Lemma check_entities_wf (val : JValue) :
  absent_or_array wf_entity (Js.field val "entities") = true ->
  check_entities domain val = Ok (has_entity domain val).
Proof.
  unfold check_entities, has_entity. rewrite get_opt_some.
  destruct (Js.field val "entities") as [[| | | |entities|]|]; simpl;
    try discriminate; try reflexivity.
  intros Hall. apply find_break_existsb.
  intros x Hx. apply entity_hit_wf.
  rewrite forallb_forall in Hall. apply Hall, Hx.
Qed.

Lemma matches_wf (val : JValue) :
  well_formed val = true ->
  matches domain val
  = Ok (has_link domain val || has_embed domain val || has_entity domain val).
Proof.
  unfold well_formed, matches. rewrite !andb_true_iff. intros [[Hf Hm] He].
  rewrite (check_facets_wf _ Hf). simpl.
  destruct (has_link domain val); simpl; [reflexivity|].
  rewrite (check_embed_wf _ Hm). simpl.
  destruct (has_embed domain val); simpl; [reflexivity|].
  apply (check_entities_wf _ He).
Qed.

(** The boolean tests decide the three kinds of evidence. *)
Lemma has_link_true (val : JValue) :
  has_link domain val = true <-> link_evidence domain val.
Proof.
  unfold has_link, link_evidence. rewrite existsb_exists. split.
  - intros [facet [Hfacet Hhit]]. apply in_items_of in Hfacet.
    destruct Hfacet as [facets [Hfacets Hin]].
    unfold link_facet in Hhit. rewrite existsb_exists in Hhit.
    destruct Hhit as [feature [Hfeature Hlink]]. apply in_items_of in Hfeature.
    destruct Hfeature as [features [Hfeatures Hin']].
    unfold link_feature in Hlink. rewrite andb_true_iff in Hlink.
    destruct Hlink as [Hty Huri]. apply is_string_true in Hty.
    apply string_includes_true in Huri. destruct Huri as [u [Hu Hc]].
    exists facets, facet, features, feature, u. tauto.
  - intros [facets [facet [features [feature [u [H1 [H2 [H3 [H4 [H5 [H6 H7]]]]]]]]]]].
    exists facet. split.
    + apply in_items_of. now exists facets.
    + unfold link_facet. rewrite existsb_exists. exists feature. split.
      * apply in_items_of. now exists features.
      * unfold link_feature. rewrite andb_true_iff. split.
        -- now apply is_string_true.
        -- apply string_includes_true. now exists u.
Qed.

Lemma has_embed_true (val : JValue) :
  has_embed domain val = true <-> embed_evidence domain val.
Proof.
  unfold has_embed, embed_evidence. split.
  - destruct (Js.field val "embed") as [embed|]; [|discriminate].
    rewrite andb_true_iff. intros [Hty Hext]. apply is_string_true in Hty.
    destruct (Js.field embed "external") as [external|] eqn:Hx; [|discriminate].
    apply string_includes_true in Hext. destruct Hext as [u [Hu Hc]].
    exists embed, external, u. tauto.
  - intros [embed [external [u [H1 [H2 [H3 [H4 H5]]]]]]].
    rewrite H1, H3. rewrite andb_true_iff. split.
    + now apply is_string_true.
    + apply string_includes_true. now exists u.
Qed.

Lemma has_entity_true (val : JValue) :
  has_entity domain val = true <-> entity_evidence domain val.
Proof.
  unfold has_entity, entity_evidence. rewrite existsb_exists. split.
  - intros [entity [Hentity Hlink]]. apply in_items_of in Hentity.
    destruct Hentity as [entities [Hentities Hin]].
    unfold link_entity in Hlink. rewrite andb_true_iff in Hlink.
    destruct Hlink as [Hty Hv]. apply is_string_true in Hty.
    apply string_includes_true in Hv. destruct Hv as [v [Hv Hc]].
    exists entities, entity, v. tauto.
  - intros [entities [entity [v [H1 [H2 [H3 [H4 H5]]]]]]].
    exists entity. split.
    + apply in_items_of. now exists entities.
    + unfold link_entity. rewrite andb_true_iff. split.
      * now apply is_string_true.
      * apply string_includes_true. now exists v.
Qed.

Lemma evidence_decided (val : JValue) :
  (has_link domain val || has_embed domain val || has_entity domain val) = true
  <-> evidence domain val.
Proof.
  unfold evidence. rewrite !orb_true_iff, has_link_true, has_embed_true, has_entity_true.
  tauto.
Qed.

(** A value with none of the three fields is well formed and holds no
    evidence. *)
Lemma nothing_to_find (val : JValue) :
  absent_or_empty (Js.field val "facets") ->
  Js.field val "embed" = None ->
  absent_or_empty (Js.field val "entities") ->
  well_formed val = true /\ ~ evidence domain val.
Proof.
  intros Hf Hm He. split.
  - unfold well_formed. rewrite Hm.
    destruct Hf as [-> | ->], He as [-> | ->]; reflexivity.
  - intros [Hl | [Hb | Hn]].
    + destruct Hl as [facets [facet [features [feature [u [H1 [H2 _]]]]]]].
      destruct Hf as [Hf | Hf]; rewrite Hf in H1; [discriminate|].
      injection H1 as <-. contradiction.
    + destruct Hb as [embed [external [u [H1 _]]]]. rewrite Hm in H1. discriminate.
    + destruct Hn as [entities [entity [v [H1 [H2 _]]]]].
      destruct He as [He | He]; rewrite He in H1; [discriminate|].
      injection H1 as <-. contradiction.
Qed.

End MatcherFacts.

(** On a value with the shape of a post ([well_formed]), the block
    returns a boolean, which is [true] exactly when one of the three
    sources holds the domain as a substring: a link annotation's uri, the
    external embed's uri, or a link entity's value; with no annotation, no
    embed and no entity it returns [false]. *)
Lemma matches_on_well_formed (domain : string) (val : JValue) :
  well_formed val = true ->
  (matches domain val = Ok true <-> evidence domain val) /\
  (matches domain val = Ok false <-> ~ evidence domain val) /\
  (absent_or_empty (Js.field val "facets") ->
   Js.field val "embed" = None ->
   absent_or_empty (Js.field val "entities") ->
   matches domain val = Ok false).
Proof.
  intros Hwf. rewrite (matches_wf domain val Hwf).
  pose proof (evidence_decided domain val) as Hdec.
  destruct (has_link domain val || has_embed domain val || has_entity domain val).
  - split; [|split].
    + split; [intros _; now apply Hdec | reflexivity].
    + split; [discriminate | intros Hno; exfalso; apply Hno; now apply Hdec].
    + intros Hf Hm He. exfalso.
      destruct (nothing_to_find domain val Hf Hm He) as [_ Hno].
      apply Hno. now apply Hdec.
  - split; [|split].
    + split; [discriminate | intros Hev; apply Hdec in Hev; discriminate].
    + split; [intros _ Hev; apply Hdec in Hev; discriminate | reflexivity].
    + reflexivity.
Qed.

Lemma matches_on_well_formed_samples :
  well_formed Samples.post_with_link = true /\
  (matches Samples.domain Samples.post_with_link = Ok true
   <-> evidence Samples.domain Samples.post_with_link) /\
  well_formed Samples.plain_post = true /\
  matches Samples.domain Samples.plain_post = Ok false.
Proof.
  split; [reflexivity|]. split.
  - apply (matches_on_well_formed Samples.domain Samples.post_with_link). reflexivity.
  - split; [reflexivity|].
    apply (matches_on_well_formed Samples.domain Samples.plain_post);
      [reflexivity | left; reflexivity | reflexivity | left; reflexivity].
Defined.

Example matches_post_with_link :
  matches Samples.domain Samples.post_with_link = Ok true.
Proof. reflexivity. Qed.


(** C2.  The block is not total: a link feature with no [uri] and a link
    entity with no [value] each make it throw a TypeError, where the claim
    has it return a boolean.  (The embed test, written with [?.], does
    return on an external embed with no [external] or no [uri].) *)
Theorem matches_throws_on_missing_field :
  matches Samples.domain Samples.facet_without_uri = TypeError /\
  matches Samples.domain Samples.entity_without_value = TypeError /\
  matches Samples.domain (JObj [("embed", JObj [("$type", JStr EMBED_EXTERNAL)])])
  = Ok false.
Proof. repeat split. Qed.

(* ================================================================== *)
(** * The wait after a 429 *)
(* ================================================================== *)

Section WaitFacts.

(** The truthiness test of line 165 only spares a [parseInt] that would
    answer [NaN]: the wait is the parsed reset time minus the current second
    when that is a positive number, 60 otherwise. *)
Lemma waitSeconds_rule (e : XrpcError) (now_ms : Z) :
  waitSeconds e now_ms =
  match resetTimeStr e with
  | Some str =>
      match JsNumber.parseInt str with
      | Num reset => if 0 <? reset - now_ms / 1000 then reset - now_ms / 1000 else 60
      | NaN => 60
      end
  | None => 60
  end.
Proof.
  unfold waitSeconds. destruct (resetTimeStr e) as [str|]; [|reflexivity].
  destruct (String.eqb_spec str "") as [->|_]; simpl; [reflexivity|].
  destruct (JsNumber.parseInt str) as [|reset]; simpl; [reflexivity|].
  destruct (0 <? reset - now_ms / 1000); reflexivity.
Qed.

Lemma waitSeconds_positive (e : XrpcError) (now_ms : Z) :
  0 < waitSeconds e now_ms.
Proof.
  rewrite waitSeconds_rule. destruct (resetTimeStr e) as [str|]; [|lia].
  destruct (JsNumber.parseInt str) as [|reset]; [lia|].
  destruct (Z.ltb_spec 0 (reset - now_ms / 1000)); lia.
Qed.

(** One pass of the retry loop on a 429 answer. *)
Lemma retry_loop_rate_limited (batch : Z) (chunk : list DeleteOp) (latency : Z)
    (e : XrpcError) (rest : list WriteResponse) (s : St) :
  is_rate_limit e = true ->
  retry_loop batch chunk (WriteErr latency e :: rest) s =
  retry_loop batch chunk rest
    (sleep (waitSeconds e (clock s + latency) * 1000)
       (tick latency (emit (EvApplyWrites chunk) s))).
Proof. intros H. simpl. rewrite H. reflexivity. Qed.

End WaitFacts.

(** C9.  When the [ratelimit-reset] header of a 429 error is present and
    [parseInt] answers [NaN] on it, the wait is the default 60 seconds, the
    same as for the error without headers; the retry loop then sleeps
    60000 ms and goes on with the next attempt, and throws nothing. *)
Theorem waitSeconds_unparseable_reset (e : XrpcError) (str : string) (now_ms : Z) :
  resetTimeStr e = Some str ->
  JsNumber.parseInt str = NaN ->
  waitSeconds e now_ms = 60 /\
  waitSeconds e now_ms = waitSeconds {| status := status e; headers := None |} now_ms /\
  (is_rate_limit e = true ->
   forall batch chunk latency rest s,
     retry_loop batch chunk (WriteErr latency e :: rest) s =
     retry_loop batch chunk rest
       (sleep 60000 (tick latency (emit (EvApplyWrites chunk) s)))).
Proof.
  intros Hstr Hnan.
  assert (H60 : forall t, waitSeconds e t = 60).
  { intros t. rewrite waitSeconds_rule, Hstr, Hnan. reflexivity. }
  split; [apply H60|]. split; [rewrite H60; reflexivity|].
  intros Hlim batch chunk latency rest s.
  rewrite (retry_loop_rate_limited _ _ _ _ _ _ Hlim), H60. reflexivity.
Qed.

Lemma waitSeconds_unparseable_reset_witness :
  waitSeconds (Runs.limited (Some "soon")) 1734256800000 = 60 /\
  waitSeconds (Runs.limited (Some "soon")) 1734256800000
  = waitSeconds {| status := status (Runs.limited (Some "soon")); headers := None |}
      1734256800000 /\
  (is_rate_limit (Runs.limited (Some "soon")) = true ->
   forall batch chunk latency rest s,
     retry_loop batch chunk (WriteErr latency (Runs.limited (Some "soon")) :: rest) s =
     retry_loop batch chunk rest
       (sleep 60000 (tick latency (emit (EvApplyWrites chunk) s)))).
Proof.
  apply (waitSeconds_unparseable_reset (Runs.limited (Some "soon")) "soon"); reflexivity.
Defined.

Example parseInt_samples :
  JsNumber.parseInt "1734256830" = Num 1734256830 /\
  JsNumber.parseInt "  42abc" = Num 42 /\
  JsNumber.parseInt "-7" = Num (-7) /\
  JsNumber.parseInt "soon" = NaN /\
  JsNumber.parseInt "" = NaN /\
  JsNumber.parseInt "Mon, 16 Dec 2024" = NaN.
Proof. repeat split. Qed.

(* ================================================================== *)
(** * The retry loop *)
(* ================================================================== *)

Section TraceFacts.

Lemma attempts_app (a b : list Event) : attempts (a ++ b) = attempts a ++ attempts b.
Proof. by_events a. Qed.

Lemma sleeps_app (a b : list Event) : sleeps (a ++ b) = sleeps a ++ sleeps b.
Proof. by_events a. Qed.

Lemma outcomes_app (a b : list Event) : outcomes (a ++ b) = outcomes a ++ outcomes b.
Proof. by_events a. Qed.

Lemma probes_app (a b : list Event) : probes (a ++ b) = probes a ++ probes b.
Proof. by_events a. Qed.

Lemma requests_app (a b : list Event) : requests (a ++ b) = requests a ++ requests b.
Proof. by_events a. Qed.

End TraceFacts.

Section RetryFacts.

Variables (batch : Z) (chunk : list DeleteOp).

(** Any number of 429 answers is absorbed: each costs one call with the
    same chunk and one sleep, and the loop goes on with the next answer. *)
Lemma retry_loop_failures (errors : list (Z * XrpcError)) (s : St) :
  all_rate_limited errors ->
  exists s1 evs,
    (forall tail, retry_loop batch chunk (failures errors ++ tail) s
                  = retry_loop batch chunk tail s1) /\
    trace s1 = trace s ++ evs /\
    attempts evs = repeat chunk (List.length errors) /\
    waits_match (sleeps evs) errors /\
    outcomes evs = [] /\ probes evs = [].
Proof.
  intros Hall. revert s. induction Hall as [|[latency e] errors He _ IH]; intros s.
  - exists s, []. rewrite app_nil_r. repeat split; constructor.
  - simpl in He.
    destruct (IH (sleep (waitSeconds e (clock s + latency) * 1000)
                    (tick latency (emit (EvApplyWrites chunk) s))))
      as [s1 [evs [Hrun [Htr [Hatt [Hsl [Hout Hpr]]]]]]].
    exists s1, (EvApplyWrites chunk
                :: EvSleep (waitSeconds e (clock s + latency) * 1000) :: evs).
    split; [|split; [|split; [|split; [|split]]]].
    + intros tail. simpl app.
      rewrite (retry_loop_rate_limited _ _ _ _ _ _ He). apply Hrun.
    + rewrite Htr. simpl. rewrite <- !app_assoc. reflexivity.
    + simpl. now rewrite Hatt.
    + simpl. constructor; [|exact Hsl].
      exists (clock s + latency). split; [reflexivity|].
      pose proof (waitSeconds_positive e (clock s + latency)). simpl. lia.
    + exact Hout.
    + exact Hpr.
Qed.

Lemma retry_loop_succeeds (errors : list (Z * XrpcError)) (latency : Z)
    (rest : list WriteResponse) (s : St) :
  all_rate_limited errors ->
  exists s' evs,
    retry_loop batch chunk (failures errors ++ WriteOk latency :: rest) s
    = Returned (true, rest) s' /\
    trace s' = trace s ++ evs /\
    attempts evs = repeat chunk (S (List.length errors)) /\
    waits_match (sleeps evs) errors /\
    outcomes evs = [(batch, Succeeded)] /\ probes evs = [].
Proof.
  intros Hall.
  destruct (retry_loop_failures errors s Hall)
    as [s1 [evs [Hrun [Htr [Hatt [Hsl [Hout Hpr]]]]]]].
  exists (emit (EvCompleted batch) (tick latency (emit (EvApplyWrites chunk) s1))),
         (evs ++ [EvApplyWrites chunk; EvCompleted batch]).
  split; [|split; [|split; [|split; [|split]]]].
  - rewrite Hrun. reflexivity.
  - simpl. rewrite Htr, <- !app_assoc. reflexivity.
  - rewrite attempts_app, Hatt. simpl. rewrite repeat_cons. reflexivity.
  - rewrite sleeps_app. simpl. rewrite app_nil_r. exact Hsl.
  - rewrite outcomes_app, Hout. reflexivity.
  - rewrite probes_app, Hpr. reflexivity.
Qed.

Lemma retry_loop_aborts (errors : list (Z * XrpcError)) (latency : Z)
    (e : XrpcError) (rest : list WriteResponse) (s : St) :
  all_rate_limited errors -> is_rate_limit e = false ->
  exists s' evs,
    retry_loop batch chunk (failures errors ++ WriteErr latency e :: rest) s
    = Returned (false, rest) s' /\
    trace s' = trace s ++ evs /\
    attempts evs = repeat chunk (S (List.length errors)) /\
    waits_match (sleeps evs) errors /\
    outcomes evs = [(batch, Aborted e)] /\ probes evs = [].
Proof.
  intros Hall He.
  destruct (retry_loop_failures errors s Hall)
    as [s1 [evs [Hrun [Htr [Hatt [Hsl [Hout Hpr]]]]]]].
  exists (emit (EvError batch e) (tick latency (emit (EvApplyWrites chunk) s1))),
         (evs ++ [EvApplyWrites chunk; EvError batch e]).
  split; [|split; [|split; [|split; [|split]]]].
  - rewrite Hrun. simpl. rewrite He. reflexivity.
  - simpl. rewrite Htr, <- !app_assoc. reflexivity.
  - rewrite attempts_app, Hatt. simpl. rewrite repeat_cons. reflexivity.
  - rewrite sleeps_app. simpl. rewrite app_nil_r. exact Hsl.
  - rewrite outcomes_app, Hout. reflexivity.
  - rewrite probes_app, Hpr. reflexivity.
Qed.

(** However the answers go, the loop is left with [success] false only on
    an error object that is not a 429, and it throws only when a call
    rejects without an error object. *)
Lemma retry_loop_ends (answers : list WriteResponse) (s : St) :
  match retry_loop batch chunk answers s with
  | Threw ex _ =>
      ex = ExnTypeError /\
      exists errors latency rest,
        answers = failures errors ++ WriteRejected latency :: rest /\
        all_rate_limited errors
  | Returned (true, rest) _ =>
      exists errors latency,
        answers = failures errors ++ WriteOk latency :: rest /\
        all_rate_limited errors
  | Returned (false, rest) _ =>
      exists errors latency e,
        answers = failures errors ++ WriteErr latency e :: rest /\
        all_rate_limited errors /\ is_rate_limit e = false
  | Hangs _ => exists errors, answers = failures errors /\ all_rate_limited errors
  end.
Proof.
  revert s. induction answers as [|[latency|latency e|latency] answers IH]; intros s.
  - simpl. exists []. split; [reflexivity | constructor].
  - simpl. exists [], latency. split; [reflexivity | constructor].
  - simpl. destruct (is_rate_limit e) eqn:He.
    + specialize (IH (sleep (waitSeconds e (clock (tick latency (emit (EvApplyWrites chunk) s))) * 1000)
                        (tick latency (emit (EvApplyWrites chunk) s)))).
      destruct (retry_loop batch chunk answers _) as [[[|] rest] s'|ex s'|s'].
      * destruct IH as [errors [lat [-> Hall]]].
        exists ((latency, e) :: errors), lat. split; [reflexivity|].
        constructor; assumption.
      * destruct IH as [errors [lat [e' [-> [Hall He']]]]].
        exists ((latency, e) :: errors), lat, e'. split; [reflexivity|].
        split; [constructor; assumption | assumption].
      * destruct IH as [-> [errors [lat [rest [-> Hall]]]]]. split; [reflexivity|].
        exists ((latency, e) :: errors), lat, rest. split; [reflexivity|].
        constructor; assumption.
      * destruct IH as [errors [-> Hall]].
        exists ((latency, e) :: errors). split; [reflexivity|].
        constructor; assumption.
    + exists [], latency, e. split; [reflexivity|]. split; [constructor | assumption].
  - simpl. split; [reflexivity|]. exists [], latency, answers.
    split; [reflexivity | constructor].
Qed.

End RetryFacts.

(** A 429 whose reset time is 30 seconds ahead, then a success: one wait of
    30000 ms, two calls with the same chunk. *)
Example retry_waits_until_reset :
  retry_loop 1 [Runs.op "3kaaa"]
    [WriteErr 200 (Runs.limited (Some "1734256830")); WriteOk 150] Runs.start
  = Returned (true, [])
      {| clock := 1734256830350;
         trace := [EvApplyWrites [Runs.op "3kaaa"]; EvSleep 30000;
                   EvApplyWrites [Runs.op "3kaaa"]; EvCompleted 1] |}.
Proof. vm_compute. reflexivity. Qed.

(** A reset time in the past, and no header at all: 60 seconds. *)
Example waitSeconds_defaults :
  waitSeconds (Runs.limited (Some "1734256700")) 1734256800200 = 60 /\
  waitSeconds (Runs.limited None) 1734256800200 = 60 /\
  waitSeconds (Runs.limited (Some "1734256830")) 1734256800200 = 30.
Proof. vm_compute. repeat split. Qed.

(* ================================================================== *)
(** * The quota check and the dispatch loop *)
(* ================================================================== *)

Section DispatchFacts.

Variable cfg : Config.

Lemma clock_sleep (ms : Z) (s : St) : clock (sleep ms s) = clock s + timer_delay ms.
Proof. reflexivity. Qed.

Lemma timer_delay_in_range (ms : Z) :
  1 <= ms <= 2147483647 -> timer_delay ms = ms.
Proof.
  intros [Hlo Hhi]. unfold timer_delay, TIMEOUT_MAX.
  destruct (Z.leb_spec 1 ms); [|lia].
  destruct (Z.leb_spec ms 2147483647); [reflexivity | lia].
Qed.

Lemma timer_delay_positive (ms : Z) : 1 <= timer_delay ms <= 2147483647.
Proof.
  unfold timer_delay, TIMEOUT_MAX.
  destruct (Z.leb_spec 1 ms); cbn [andb]; [|lia].
  destruct (Z.leb_spec ms 2147483647); lia.
Qed.

Lemma oneHourMs_value : oneHourMs = 3600000.
Proof. reflexivity. Qed.

Lemma trace_sleep (ms : Z) (s : St) : trace (sleep ms s) = trace s ++ [EvSleep ms].
Proof. reflexivity. Qed.

Lemma quota_check_pass (q : QuotaWindow) (n : Z) (s : St) :
  deletesThisHour q + n <= threshold cfg ->
  quota_check cfg q n s = (q, s).
Proof.
  intros H. unfold quota_check.
  destruct (Z.gtb_spec (deletesThisHour q + n) (threshold cfg)); [lia | reflexivity].
Qed.

Lemma quota_check_wait (q : QuotaWindow) (n : Z) (s : St) :
  deletesThisHour q + n > threshold cfg ->
  clock s - hourWindowStart q < oneHourMs ->
  quota_check cfg q n s =
  ({| hourWindowStart := clock (sleep (oneHourMs - (clock s - hourWindowStart q)) s);
      deletesThisHour := 0 |},
   sleep (oneHourMs - (clock s - hourWindowStart q)) s).
Proof.
  intros H Hel. unfold quota_check.
  destruct (Z.gtb_spec (deletesThisHour q + n) (threshold cfg)); [|lia].
  destruct (Z.ltb_spec (clock s - hourWindowStart q) oneHourMs); [|lia].
  reflexivity.
Qed.

(** When the window did not start in the future, the wait is within the
    range of the timer, and the new window starts one hour after the old
    one. *)
Lemma clock_after_quota_wait (q : QuotaWindow) (s : St) :
  0 <= clock s - hourWindowStart q < oneHourMs ->
  clock (sleep (oneHourMs - (clock s - hourWindowStart q)) s)
  = hourWindowStart q + oneHourMs.
Proof.
  intros Hel. pose proof oneHourMs_value as Hhour. rewrite clock_sleep.
  rewrite timer_delay_in_range by lia. lia.
Qed.

Lemma quota_check_roll (q : QuotaWindow) (n : Z) (s : St) :
  deletesThisHour q + n > threshold cfg ->
  oneHourMs <= clock s - hourWindowStart q ->
  quota_check cfg q n s =
  ({| hourWindowStart := clock s; deletesThisHour := 0 |}, s).
Proof.
  intros H Hel. unfold quota_check.
  destruct (Z.gtb_spec (deletesThisHour q + n) (threshold cfg)); [|lia].
  destruct (Z.ltb_spec (clock s - hourWindowStart q) oneHourMs); [lia|].
  reflexivity.
Qed.

(** What the check leaves behind, whichever branch it takes. *)
Lemma quota_check_effect (q : QuotaWindow) (n : Z) (s : St) :
  exists evs,
    trace (snd (quota_check cfg q n s)) = trace s ++ evs /\
    attempts evs = [] /\ outcomes evs = [] /\ probes evs = [] /\
    (List.length (sleeps evs) <= 1)%nat /\
    (deletesThisHour (fst (quota_check cfg q n s)) + n <= threshold cfg
     \/ deletesThisHour (fst (quota_check cfg q n s)) = 0) /\
    (0 <= deletesThisHour q -> 0 <= deletesThisHour (fst (quota_check cfg q n s))).
Proof.
  destruct (Z.le_gt_cases (deletesThisHour q + n) (threshold cfg)) as [Hle|Hgt].
  - rewrite quota_check_pass by assumption. exists []. cbn [fst snd].
    rewrite app_nil_r. repeat split; auto.
  - destruct (Z.lt_ge_cases (clock s - hourWindowStart q) oneHourMs) as [Hel|Hel].
    + rewrite quota_check_wait by lia.
      exists [EvSleep (oneHourMs - (clock s - hourWindowStart q))].
      cbn [fst snd deletesThisHour]. rewrite trace_sleep.
      repeat split; auto; cbn [sleeps List.length]; lia.
    + rewrite quota_check_roll by lia. exists []. cbn [fst snd deletesThisHour].
      rewrite app_nil_r. repeat split; auto; cbn [sleeps List.length]; lia.
Qed.

Lemma dispatch_loop_cons (chunk : list DeleteOp) (later : list (list DeleteOp))
    (idx : Z) (q : QuotaWindow) (answers : list WriteResponse) (s : St) :
  dispatch_loop cfg (chunk :: later) idx q answers s =
  let n := Z.of_nat (List.length chunk) in
  let q1 := fst (quota_check cfg q n s) in
  let s1 := snd (quota_check cfg q n s) in
  match retry_loop (idx + 1) chunk answers (emit (EvDeleting (idx + 1) n q1) s1) with
  | Returned (true, rest) s3 =>
      dispatch_loop cfg later (idx + 1)
        {| hourWindowStart := hourWindowStart q1;
           deletesThisHour := deletesThisHour q1 + n |}
        rest (sleep (DELAY_BETWEEN_BATCHES_MS cfg) s3)
  | Returned (false, rest) s3 => Returned (q1, rest) s3
  | Threw e s3 => Threw e s3
  | Hangs s3 => Hangs s3
  end.
Proof.
  simpl. destruct (quota_check cfg q (Z.of_nat (List.length chunk)) s). reflexivity.
Qed.

(** What one run of the retry loop adds to the trace, however it ends. *)
Lemma retry_loop_effect (batch : Z) (chunk : list DeleteOp)
    (answers : list WriteResponse) (s : St) :
  exists evs,
    trace (final (retry_loop batch chunk answers s)) = trace s ++ evs /\
    probes evs = [] /\
    attempts evs <> [] /\
    Forall (eq chunk) (attempts evs) /\
    match retry_loop batch chunk answers s with
    | Returned (true, _) _ => outcomes evs = [(batch, Succeeded)]
    | Returned (false, _) _ => exists e, outcomes evs = [(batch, Aborted e)]
    | Threw ex _ => ex = ExnTypeError /\ outcomes evs = []
    | Hangs _ => outcomes evs = []
    end.
Proof.
  pose proof (retry_loop_ends batch chunk answers s) as Hend.
  destruct (retry_loop batch chunk answers s) as [[[|] rest] s'|ex s'|s'] eqn:Hrun.
  - destruct Hend as [errors [latency [-> Hall]]].
    destruct (retry_loop_succeeds batch chunk errors latency rest s Hall)
      as [s2 [evs [H1 [H2 [H3 [H4 [H5 H6]]]]]]].
    rewrite H1 in Hrun. injection Hrun as <-. exists evs. simpl.
    rewrite H3. repeat split; auto; [discriminate | apply Forall_forall].
    intros x Hx. symmetry. exact (repeat_spec _ _ _ Hx).
  - destruct Hend as [errors [latency [e [-> [Hall He]]]]].
    destruct (retry_loop_aborts batch chunk errors latency e rest s Hall He)
      as [s2 [evs [H1 [H2 [H3 [H4 [H5 H6]]]]]]].
    rewrite H1 in Hrun. injection Hrun as <-. exists evs. simpl.
    rewrite H3. repeat split; auto; [discriminate | apply Forall_forall | now exists e].
    intros x Hx. symmetry. exact (repeat_spec _ _ _ Hx).
  - destruct Hend as [-> [errors [latency [rest [-> Hall]]]]].
    destruct (retry_loop_failures batch chunk errors s Hall)
      as [s1 [evs [H1 [H2 [H3 [H4 [H5 H6]]]]]]].
    rewrite H1 in Hrun. simpl in Hrun. injection Hrun as <-.
    exists (evs ++ [EvApplyWrites chunk]). simpl.
    rewrite H2, <- app_assoc, attempts_app, probes_app, outcomes_app, H3, H5, H6.
    simpl. repeat split; auto.
    + intros Hnil. apply app_eq_nil in Hnil. destruct Hnil as [_ Hnil]. discriminate.
    + apply Forall_app. split.
      * apply Forall_forall. intros x Hx. symmetry. exact (repeat_spec _ _ _ Hx).
      * constructor; auto.
  - destruct Hend as [errors [-> Hall]].
    destruct (retry_loop_failures batch chunk errors s Hall)
      as [s1 [evs [H1 [H2 [H3 [H4 [H5 H6]]]]]]].
    specialize (H1 []). rewrite app_nil_r in H1. rewrite H1 in Hrun.
    simpl in Hrun. injection Hrun as <-.
    exists (evs ++ [EvApplyWrites chunk]). simpl.
    rewrite H2, <- app_assoc, attempts_app, probes_app, outcomes_app, H3, H5, H6.
    simpl. repeat split; auto.
    + intros Hnil. apply app_eq_nil in Hnil. destruct Hnil as [_ Hnil]. discriminate.
    + apply Forall_app. split.
      * apply Forall_forall. intros x Hx. symmetry. exact (repeat_spec _ _ _ Hx).
      * constructor; auto.
Qed.

End DispatchFacts.

Section DispatchRuns.

Variable cfg : Config.

(** Every batch is sent under the threshold or right after a reset, in
    every run and however the run ends. *)
Lemma dispatch_loop_probes (chunks : list (list DeleteOp)) :
  forall idx q answers s,
    0 <= deletesThisHour q ->
    exists evs,
      trace (final (dispatch_loop cfg chunks idx q answers s)) = trace s ++ evs /\
      Forall (probe_ok cfg) (probes evs).
Proof.
  induction chunks as [|chunk later IH]; intros idx q answers s Hq.
  - exists []. simpl. rewrite app_nil_r. split; [reflexivity | constructor].
  - rewrite dispatch_loop_cons. cbv zeta.
    set (n := Z.of_nat (List.length chunk)).
    destruct (quota_check_effect cfg q n s)
      as [evs0 [Htr0 [_ [_ [Hpr0 [_ [Hfit Hpos]]]]]]].
    set (q1 := fst (quota_check cfg q n s)) in *.
    set (s1 := snd (quota_check cfg q n s)) in *.
    destruct (retry_loop_effect (idx + 1) chunk answers (emit (EvDeleting (idx + 1) n q1) s1))
      as [evs1 [Htr1 [Hpr1 _]]].
    assert (Hok : probe_ok cfg (n, q1)).
    { unfold probe_ok. cbn [fst snd]. split; [unfold n; lia|]. split; auto. }
    destruct (retry_loop (idx + 1) chunk answers (emit (EvDeleting (idx + 1) n q1) s1))
      as [[[|] rest] s3|ex s3|s3]; cbn [final] in Htr1.
    + destruct (IH (idx + 1)
                  {| hourWindowStart := hourWindowStart q1;
                     deletesThisHour := deletesThisHour q1 + n |}
                  rest (sleep (DELAY_BETWEEN_BATCHES_MS cfg) s3))
        as [evs2 [Htr2 Hpr2]].
      { cbn [deletesThisHour]. unfold n. specialize (Hpos Hq). lia. }
      exists (evs0 ++ EvDeleting (idx + 1) n q1 :: evs1
              ++ EvSleep (DELAY_BETWEEN_BATCHES_MS cfg) :: evs2).
      split.
      * rewrite Htr2, trace_sleep, Htr1. cbn [emit trace]. rewrite Htr0.
        rewrite <- !app_assoc. reflexivity.
      * rewrite probes_app, Hpr0. cbn [app probes]. rewrite probes_app, Hpr1.
        cbn [app probes]. constructor; assumption.
    + exists (evs0 ++ EvDeleting (idx + 1) n q1 :: evs1). split.
      * cbn [final]. rewrite Htr1. cbn [emit trace]. rewrite Htr0.
        rewrite <- !app_assoc. reflexivity.
      * rewrite probes_app, Hpr0. cbn [app probes]. rewrite Hpr1.
        constructor; [assumption | constructor].
    + exists (evs0 ++ EvDeleting (idx + 1) n q1 :: evs1). split.
      * cbn [final]. rewrite Htr1. cbn [emit trace]. rewrite Htr0.
        rewrite <- !app_assoc. reflexivity.
      * rewrite probes_app, Hpr0. cbn [app probes]. rewrite Hpr1.
        constructor; [assumption | constructor].
    + exists (evs0 ++ EvDeleting (idx + 1) n q1 :: evs1). split.
      * cbn [final]. rewrite Htr1. cbn [emit trace]. rewrite Htr0.
        rewrite <- !app_assoc. reflexivity.
      * rewrite probes_app, Hpr0. cbn [app probes]. rewrite Hpr1.
        constructor; [assumption | constructor].
Qed.

(** One unit: the check, line 145, then calls that all carry the whole
    chunk; the counter moves by the size of the chunk when the unit
    succeeds and not at all when it is abandoned. *)
Lemma dispatch_one_unit (chunk : list DeleteOp) (idx : Z) (q : QuotaWindow)
    (answers : list WriteResponse) (s : St) :
  let n := Z.of_nat (List.length chunk) in
  let q1 := fst (quota_check cfg q n s) in
  let s1 := snd (quota_check cfg q n s) in
  exists evs,
    trace (final (dispatch_loop cfg [chunk] idx q answers s))
    = trace s1 ++ EvDeleting (idx + 1) n q1 :: evs /\
    attempts evs <> [] /\
    Forall (eq chunk) (attempts evs) /\
    match dispatch_loop cfg [chunk] idx q answers s with
    | Returned (q', _) _ =>
        (outcomes evs = [(idx + 1, Succeeded)] /\
         q' = {| hourWindowStart := hourWindowStart q1;
                 deletesThisHour := deletesThisHour q1 + n |})
        \/ (exists e, outcomes evs = [(idx + 1, Aborted e)] /\ q' = q1)
    | Threw ex _ => ex = ExnTypeError /\ outcomes evs = []
    | Hangs _ => outcomes evs = []
    end.
Proof.
  intros n q1 s1. rewrite dispatch_loop_cons. cbv zeta. fold n q1 s1.
  destruct (retry_loop_effect (idx + 1) chunk answers (emit (EvDeleting (idx + 1) n q1) s1))
    as [evs [Htr [_ [Hne [Hall Hout]]]]].
  destruct (retry_loop (idx + 1) chunk answers (emit (EvDeleting (idx + 1) n q1) s1))
    as [[[|] rest] s3|ex s3|s3]; cbn [final] in Htr.
  - exists (evs ++ [EvSleep (DELAY_BETWEEN_BATCHES_MS cfg)]).
    cbn [dispatch_loop final]. rewrite trace_sleep, Htr. cbn [emit trace].
    rewrite attempts_app, outcomes_app, Hout. cbn [attempts outcomes app].
    rewrite app_nil_r, <- !app_assoc. cbn [app]. repeat split; auto.
  - exists evs. cbn [final]. rewrite Htr. cbn [emit trace].
    rewrite <- app_assoc. cbn [app]. destruct Hout as [e He].
    repeat split; auto. right. exists e. auto.
  - exists evs. cbn [final]. rewrite Htr. cbn [emit trace].
    rewrite <- app_assoc. cbn [app]. destruct Hout as [-> Hout].
    repeat split; auto.
  - exists evs. cbn [final]. rewrite Htr. cbn [emit trace].
    rewrite <- app_assoc. cbn [app]. repeat split; auto.
Qed.

(** Units that go through, then a unit that meets an error other than a
    429: the loop is left there, with the answers that remain untouched. *)
Lemma dispatch_loop_halts (units : list GoodUnit) :
  forall c later errors latency e rest idx q s,
    Forall (fun u => all_rate_limited (gu_errors u)) units ->
    all_rate_limited errors -> is_rate_limit e = false ->
    exists q' s' evs,
      dispatch_loop cfg (map gu_chunk units ++ c :: later) idx q
        (concat (map good_answers units) ++ failures errors ++ WriteErr latency e :: rest) s
      = Returned (q', rest) s' /\
      trace s' = trace s ++ evs /\
      outcomes evs = succeeded_from idx (List.length units)
                     ++ [(idx + Z.of_nat (List.length units) + 1, Aborted e)] /\
      attempts evs = concat (map good_attempts units) ++ repeat c (S (List.length errors)).
Proof.
  induction units as [|u units IH]; intros c later errors latency e rest idx q s Hgood Hall He.
  - cbn [map app concat List.length succeeded_from]. rewrite dispatch_loop_cons. cbv zeta.
    set (n := Z.of_nat (List.length c)).
    destruct (quota_check_effect cfg q n s) as [evs0 [Htr0 [Hat0 [Hout0 _]]]].
    set (q1 := fst (quota_check cfg q n s)) in *.
    set (s1 := snd (quota_check cfg q n s)) in *.
    destruct (retry_loop_aborts (idx + 1) c errors latency e rest
                (emit (EvDeleting (idx + 1) n q1) s1) Hall He)
      as [s' [evs1 [Hrun [Htr1 [Hat1 [_ [Hout1 _]]]]]]].
    rewrite Hrun. exists q1, s', (evs0 ++ EvDeleting (idx + 1) n q1 :: evs1).
    split; [reflexivity|]. split; [|split].
    + rewrite Htr1. cbn [emit trace]. rewrite Htr0, <- !app_assoc. reflexivity.
    + rewrite outcomes_app, Hout0. cbn [app outcomes]. rewrite Hout1.
      repeat f_equal. lia.
    + rewrite attempts_app, Hat0. cbn [app attempts]. exact Hat1.
  - inversion Hgood as [|? ? Hu Hgood']; subst.
    cbn [map app concat]. rewrite dispatch_loop_cons. cbv zeta.
    set (n := Z.of_nat (List.length (gu_chunk u))).
    destruct (quota_check_effect cfg q n s) as [evs0 [Htr0 [Hat0 [Hout0 _]]]].
    set (q1 := fst (quota_check cfg q n s)) in *.
    set (s1 := snd (quota_check cfg q n s)) in *.
    unfold good_answers at 1. rewrite <- !app_assoc. cbn [app].
    destruct (retry_loop_succeeds (idx + 1) (gu_chunk u) (gu_errors u) (gu_latency u)
                (concat (map good_answers units) ++ failures errors
                 ++ WriteErr latency e :: rest)
                (emit (EvDeleting (idx + 1) n q1) s1) Hu)
      as [s3 [evs1 [Hrun [Htr1 [Hat1 [_ [Hout1 _]]]]]]].
    rewrite Hrun.
    destruct (IH c later errors latency e rest (idx + 1)
                {| hourWindowStart := hourWindowStart q1;
                   deletesThisHour := deletesThisHour q1 + n |}
                (sleep (DELAY_BETWEEN_BATCHES_MS cfg) s3) Hgood' Hall He)
      as [q' [s' [evs2 [Hrun2 [Htr2 [Hout2 Hat2]]]]]].
    rewrite Hrun2.
    exists q', s', (evs0 ++ EvDeleting (idx + 1) n q1 :: evs1
                    ++ EvSleep (DELAY_BETWEEN_BATCHES_MS cfg) :: evs2).
    split; [reflexivity|]. split; [|split].
    + rewrite Htr2, trace_sleep, Htr1. cbn [emit trace]. rewrite Htr0.
      rewrite <- !app_assoc. reflexivity.
    + rewrite outcomes_app, Hout0. cbn [app outcomes]. rewrite outcomes_app, Hout1.
      cbn [app outcomes]. rewrite Hout2. cbn [List.length succeeded_from app].
      replace (idx + Z.of_nat (S (List.length units)) + 1)
        with (idx + 1 + Z.of_nat (List.length units) + 1) by lia.
      reflexivity.
    + rewrite attempts_app, Hat0. cbn [app attempts]. rewrite attempts_app, Hat1.
      cbn [app attempts]. rewrite Hat2. unfold good_attempts.
      rewrite <- ?app_assoc. reflexivity.
Qed.

End DispatchRuns.

(** Under the script's constants: 4800 deletes done ten minutes into the
    window, a batch of 200 more would reach 5000 > 4900, so the run sleeps
    the fifty minutes left and starts a new window; with 4700 done the
    batch goes out at once. *)
Example quota_check_at_source_constants :
  quota_check source_config
    {| hourWindowStart := 1734256800000; deletesThisHour := 4800 |} 200
    {| clock := 1734257400000; trace := [] |}
  = ({| hourWindowStart := 1734260400000; deletesThisHour := 0 |},
     {| clock := 1734260400000; trace := [EvSleep 3000000] |}) /\
  quota_check source_config
    {| hourWindowStart := 1734256800000; deletesThisHour := 4700 |} 200
    {| clock := 1734257400000; trace := [] |}
  = ({| hourWindowStart := 1734256800000; deletesThisHour := 4700 |},
     {| clock := 1734257400000; trace := [] |}).
Proof. vm_compute. split; reflexivity. Qed.

(** C5.  When the units before unit k go through (each after any number of
    429 answers) and unit k meets an error that is not a 429 (after any
    number of 429 answers), the loop is left at unit k: the batches before
    it are reported completed, unit k is reported in error once, the calls
    made are those of the units up to k and none for a later unit, the last
    call is the one that failed, and the answers scripted for later calls
    are not consumed. *)
Theorem dispatch_halts_on_first_error (cfg : Config) (units : list GoodUnit)
    (c : list DeleteOp) (later : list (list DeleteOp))
    (errors : list (Z * XrpcError)) (latency : Z) (e : XrpcError)
    (rest : list WriteResponse) (idx : Z) (q : QuotaWindow) (s : St) :
  Forall (fun u => all_rate_limited (gu_errors u)) units ->
  all_rate_limited errors ->
  is_rate_limit e = false ->
  exists q' s' evs,
    dispatch_loop cfg (map gu_chunk units ++ c :: later) idx q
      (concat (map good_answers units) ++ failures errors ++ WriteErr latency e :: rest) s
    = Returned (q', rest) s' /\
    trace s' = trace s ++ evs /\
    outcomes evs = succeeded_from idx (List.length units)
                   ++ [(idx + Z.of_nat (List.length units) + 1, Aborted e)] /\
    attempts evs = concat (map good_attempts units) ++ repeat c (S (List.length errors)).
Proof. intros. now apply dispatch_loop_halts. Qed.

Lemma dispatch_halts_on_first_error_witness :
  exists q' s' evs,
    dispatch_loop source_config
      (map gu_chunk [mkGoodUnit [Runs.op "3kaaa"] [] 150]
       ++ [Runs.op "3kbbb"] :: [[Runs.op "3kccc"]]) 0
      {| hourWindowStart := clock Runs.start; deletesThisHour := 0 |}
      (concat (map good_answers [mkGoodUnit [Runs.op "3kaaa"] [] 150])
       ++ failures [] ++ WriteErr 90 Runs.server_error :: [WriteOk 100]) Runs.start
    = Returned (q', [WriteOk 100]) s' /\
    trace s' = trace Runs.start ++ evs /\
    outcomes evs = succeeded_from 0 (List.length [mkGoodUnit [Runs.op "3kaaa"] [] 150])
                   ++ [(0 + Z.of_nat (List.length [mkGoodUnit [Runs.op "3kaaa"] [] 150]) + 1,
                        Aborted Runs.server_error)] /\
    attempts evs = concat (map good_attempts [mkGoodUnit [Runs.op "3kaaa"] [] 150])
                   ++ repeat [Runs.op "3kbbb"] (S (List.length (@nil (Z * XrpcError)))).
Proof.
  apply (dispatch_halts_on_first_error source_config
           [mkGoodUnit [Runs.op "3kaaa"] [] 150] [Runs.op "3kbbb"] [[Runs.op "3kccc"]]
           [] 90 Runs.server_error [WriteOk 100] 0).
  - repeat constructor.
  - constructor.
  - reflexivity.
Defined.

(** Three units, a 500 on the second: one call for the first, one for the
    second, none for the third. *)
Example dispatch_three_units_error_on_second :
  dispatch_loop source_config
    [[Runs.op "3kaaa"]; [Runs.op "3kbbb"]; [Runs.op "3kccc"]] 0
    {| hourWindowStart := 1734256800000; deletesThisHour := 0 |}
    [WriteOk 150; WriteErr 90 Runs.server_error; WriteOk 100] Runs.start
  = Returned ({| hourWindowStart := 1734256800000; deletesThisHour := 1 |}, [WriteOk 100])
      {| clock := 1734256805240;
         trace := [EvDeleting 1 1 {| hourWindowStart := 1734256800000; deletesThisHour := 0 |};
                   EvApplyWrites [Runs.op "3kaaa"]; EvCompleted 1; EvSleep 5000;
                   EvDeleting 2 1 {| hourWindowStart := 1734256800000; deletesThisHour := 1 |};
                   EvApplyWrites [Runs.op "3kbbb"]; EvError 2 Runs.server_error] |}.
Proof. vm_compute. reflexivity. Qed.

(* ================================================================== *)
(** * The scan *)
(* ================================================================== *)

Section ScanFacts.

Variable domain : string.

Lemma classify_spec (records : list RepoRecord) :
  forall deletes,
    Forall (classifiable domain) records ->
    classify domain records deletes
    = Ok (deletes ++ map delete_of (filter (is_match domain) records)).
Proof.
  induction records as [|r records IH]; intros deletes Hall.
  - simpl. now rewrite app_nil_r.
  - inversion Hall as [|? ? [b Hb] Hall']; subst. simpl.
    unfold is_match. rewrite Hb. simpl. rewrite IH by assumption.
    destruct b; simpl; [rewrite <- app_assoc|]; reflexivity.
Qed.


End ScanFacts.




(** Two pages, three records, two matches. *)
Example scan_two_pages :
  scan source_config
    [PageOk 120 [Runs.post "at://did:plc:abc/app.bsky.feed.post/3kaaa" Samples.post_with_link;
                 Runs.post "at://did:plc:abc/app.bsky.feed.post/3kbbb" Samples.plain_post]
       (Some "c1"%string);
     PageOk 80 [Runs.post "at://did:plc:abc/app.bsky.feed.post/3kccc" Samples.post_with_link]
       None] Runs.start
  = Returned [Runs.op "3kaaa"; Runs.op "3kccc"]
      {| clock := 1734256800200;
         trace := [EvListRecords (list_params None);
                   EvListRecords (list_params (Some "c1"%string))] |}.
Proof. vm_compute. reflexivity. Qed.

(* ================================================================== *)
(** * The batch size *)
(* ================================================================== *)

Lemma main_with_batch_size_at_most_zero (cfg : Config) (pages : list PageResponse)
    (answers : list WriteResponse) (s : St) :
  DELETES_PER_BATCH cfg <= 0 ->
  main cfg pages answers s =
  match scan cfg pages s with
  | Returned [] s1 => Returned tt s1
  | Returned (_ :: _) s1 => Hangs s1
  | Threw e s1 => Threw e s1
  | Hangs s1 => Hangs s1
  end.
Proof.
  intros Hsize. unfold main.
  destruct (scan cfg pages s) as [[|d deletes] s1|e s1|s1]; try reflexivity.
  cbn [List.length Nat.eqb]. unfold chunked.
  rewrite chunked_loop_never_ends; [reflexivity | assumption |].
  cbn [List.length]. lia.
Qed.

(** [chunked_pass] is the body of the loop of [chunked]. *)
Lemma chunked_loop_pass {T : Type} (fuel : nat) (arr : list T) (size idx : Z)
    (chunks : list (list T)) :
  chunked_loop (S fuel) arr size idx chunks =
  match chunked_pass arr size (idx, chunks) with
  | Some (idx', chunks') => chunked_loop fuel arr size idx' chunks'
  | None => Some chunks
  end.
Proof.
  unfold chunked_pass. cbn [chunked_loop fst snd].
  destruct (idx <? Z.of_nat (List.length arr)); reflexivity.
Qed.

(** With a size of 0 or less every pass is followed by another, and has
    pushed one more chunk. *)
Lemma chunked_passes_grow {T : Type} (arr : list T) (size : Z) (k : nat) :
  size <= 0 ->
  forall idx chunks,
    idx < Z.of_nat (List.length arr) ->
    exists chunks',
      chunked_passes k arr size (idx, chunks) = Some (idx + Z.of_nat k * size, chunks') /\
      List.length chunks' = (List.length chunks + k)%nat.
Proof.
  intros Hsize. induction k as [|k IH]; intros idx chunks Hidx.
  - exists chunks. cbn [chunked_passes]. split; [f_equal; f_equal; lia | lia].
  - cbn [chunked_passes]. unfold chunked_pass. cbn [fst snd].
    destruct (Z.ltb_spec idx (Z.of_nat (List.length arr))) as [_|Hge]; [|lia].
    destruct (IH (idx + size) (chunks ++ [array_slice arr idx (idx + size)]))
      as [chunks' [Hrun Hlen]]; [lia|].
    exists chunks'. split.
    + rewrite Hrun. f_equal. f_equal. lia.
    + rewrite Hlen, length_app. cbn [List.length]. lia.
Qed.

(** C7, as amended.  The batch size is the constant 200 of line 11, with
    which [chunked] returns on every list; nothing validates it.  With a
    batch size of 0 or less the run still scans first; it then returns
    when nothing matched, and otherwise enters the loop of [chunked],
    whose test never fails and whose every pass pushes one more chunk: no
    delete is sent, and the loop goes on for as long as there is memory
    for the chunks. *)
Theorem batch_size_is_fixed_not_validated :
  DELETES_PER_BATCH source_config = 200 /\
  (forall (T : Type) (arr : list T),
     exists units, chunked arr (DELETES_PER_BATCH source_config) = Some units) /\
  (forall cfg pages answers s,
     DELETES_PER_BATCH cfg <= 0 ->
     main cfg pages answers s =
     match scan cfg pages s with
     | Returned [] s1 => Returned tt s1
     | Returned (_ :: _) s1 => Hangs s1
     | Threw e s1 => Threw e s1
     | Hangs s1 => Hangs s1
     end) /\
  (forall (T : Type) (arr : list T) (size : Z) (fuel : nat),
     size <= 0 -> arr <> [] -> chunked_loop fuel arr size 0 [] = None) /\
  (forall (T : Type) (arr : list T) (size : Z) (k : nat),
     size <= 0 -> arr <> [] ->
     exists chunks,
       chunked_passes k arr size (0, []) = Some (Z.of_nat k * size, chunks) /\
       List.length chunks = k) /\
  (forall (T : Type) (fuel : nat) (arr : list T) (size idx : Z) (chunks : list (list T)),
     chunked_loop (S fuel) arr size idx chunks =
     match chunked_pass arr size (idx, chunks) with
     | Some (idx', chunks') => chunked_loop fuel arr size idx' chunks'
     | None => Some chunks
     end).
Proof.
  split; [reflexivity|]. split; [|split; [|split; [|split]]].
  - intros T arr.
    destruct (chunked_loop_spec (S (List.length arr)) arr 200 0 []) as [more [Hrun _]];
      [lia | lia | lia |].
    exists more. exact Hrun.
  - exact main_with_batch_size_at_most_zero.
  - intros T arr size fuel Hsize Hne. apply chunked_loop_never_ends; [assumption|].
    destruct arr; [contradiction | cbn [List.length]; lia].
  - intros T arr size k Hsize Hne.
    destruct (chunked_passes_grow arr size k Hsize 0 []) as [chunks [Hrun Hlen]].
    + destruct arr; [contradiction | cbn [List.length]; lia].
    + exists chunks. split; [exact Hrun | exact Hlen].
  - intros T fuel arr size idx chunks. apply chunked_loop_pass.
Qed.

(** C7 as stated fails: with a batch size of 0 and one matching post, the
    run calls [listRecords] and then enters the loop of [chunked], which
    has no last pass; nothing is reported before the scan. *)
Lemma batch_size_zero_scans_then_hangs :
  DELETES_PER_BATCH Runs.zero_batch <= 0 /\
  main Runs.zero_batch Runs.one_page [] Runs.start
  = Hangs {| clock := 1734256800120; trace := [EvListRecords (list_params None)] |} /\
  ~ halts_before_any_call Runs.start (main Runs.zero_batch Runs.one_page [] Runs.start).
Proof.
  split; [vm_compute; discriminate|].
  assert (H : main Runs.zero_batch Runs.one_page [] Runs.start
              = Hangs {| clock := 1734256800120;
                         trace := [EvListRecords (list_params None)] |}).
  { vm_compute. reflexivity. }
  split; [exact H|]. rewrite H. intros Hhalt. exact Hhalt.
Qed.

(* ================================================================== *)
(** * Whole runs *)
(* ================================================================== *)

(** The scan makes no write call and goes to no sleep, however it ends. *)
Lemma scan_loop_effect (domain : string) (pages : list PageResponse) :
  forall cursor deletes s,
    exists evs,
      trace (final (scan_loop domain pages cursor deletes s)) = trace s ++ evs /\
      attempts evs = [] /\ sleeps evs = [] /\ probes evs = [].
Proof.
  induction pages as [|[latency records cursor'|latency e] pages IH];
    intros cursor deletes s.
  - exists [EvListRecords (list_params cursor)]. repeat split.
  - cbn [scan_loop]. destruct (classify domain records deletes) as [deletes'|].
    + destruct (cursor_truthy cursor').
      * destruct (IH cursor' deletes'
                    (tick latency (emit (EvListRecords (list_params cursor)) s)))
          as [evs [Htr [Hat [Hsl Hpr]]]].
        exists (EvListRecords (list_params cursor) :: evs). rewrite Htr.
        cbn [tick emit trace attempts sleeps probes]. rewrite <- app_assoc.
        repeat split; assumption.
      * exists [EvListRecords (list_params cursor)]. repeat split.
    + exists [EvListRecords (list_params cursor)]. repeat split.
  - exists [EvListRecords (list_params cursor)]. repeat split.
Qed.

(** X1.  When the scan finds nothing, the run ends there: it returns in
    the state the scan left, and the trace of the whole run holds no
    [applyWrites] call and no sleep. *)
Theorem empty_match_set_is_noop (cfg : Config) (pages : list PageResponse)
    (answers : list WriteResponse) (s s1 : St) :
  scan cfg pages s = Returned [] s1 ->
  main cfg pages answers s = Returned tt s1 /\
  exists evs, trace s1 = trace s ++ evs /\ attempts evs = [] /\ sleeps evs = [].
Proof.
  intros Hscan. split.
  - unfold main. rewrite Hscan. reflexivity.
  - destruct (scan_loop_effect (TARGET_DOMAIN cfg) pages None [] s)
      as [evs [Htr [Hat [Hsl _]]]].
    unfold scan in Hscan. rewrite Hscan in Htr. exists evs. auto.
Qed.

Lemma empty_match_set_is_noop_witness :
  main source_config
    [PageOk 120 [Runs.post "at://did:plc:abc/app.bsky.feed.post/3kbbb" Samples.plain_post] None]
    [WriteOk 100] Runs.start
  = Returned tt {| clock := 1734256800120; trace := [EvListRecords (list_params None)] |} /\
  exists evs,
    trace {| clock := 1734256800120; trace := [EvListRecords (list_params None)] |}
    = trace Runs.start ++ evs /\ attempts evs = [] /\ sleeps evs = [].
Proof.
  apply (empty_match_set_is_noop source_config
           [PageOk 120 [Runs.post "at://did:plc:abc/app.bsky.feed.post/3kbbb"
                          Samples.plain_post] None]
           [WriteOk 100] Runs.start).
  vm_compute. reflexivity.
Defined.

(** X2.  When every unit goes through (each after any number of 429
    answers), the loop sends the chunks in the order of the partition,
    reports each batch completed in turn, and returns with the answers
    that remain. *)
Theorem dispatch_in_order_when_all_succeed (cfg : Config) (units : list GoodUnit) :
  forall (rest : list WriteResponse) (idx : Z) (q : QuotaWindow) (s : St),
    Forall (fun u => all_rate_limited (gu_errors u)) units ->
    exists q' s' evs,
      dispatch_loop cfg (map gu_chunk units) idx q
        (concat (map good_answers units) ++ rest) s
      = Returned (q', rest) s' /\
      trace s' = trace s ++ evs /\
      outcomes evs = succeeded_from idx (List.length units) /\
      attempts evs = concat (map good_attempts units).
Proof.
  induction units as [|u units IH]; intros rest idx q s Hgood.
  - exists q, s, []. cbn. rewrite app_nil_r. repeat split.
  - inversion Hgood as [|? ? Hu Hgood']; subst.
    cbn [map app concat]. rewrite dispatch_loop_cons. cbv zeta.
    set (n := Z.of_nat (List.length (gu_chunk u))).
    destruct (quota_check_effect cfg q n s) as [evs0 [Htr0 [Hat0 [Hout0 _]]]].
    set (q1 := fst (quota_check cfg q n s)) in *.
    set (s1 := snd (quota_check cfg q n s)) in *.
    unfold good_answers at 1. rewrite <- !app_assoc. cbn [app].
    destruct (retry_loop_succeeds (idx + 1) (gu_chunk u) (gu_errors u) (gu_latency u)
                (concat (map good_answers units) ++ rest)
                (emit (EvDeleting (idx + 1) n q1) s1) Hu)
      as [s3 [evs1 [Hrun [Htr1 [Hat1 [_ [Hout1 _]]]]]]].
    rewrite Hrun.
    destruct (IH rest (idx + 1)
                {| hourWindowStart := hourWindowStart q1;
                   deletesThisHour := deletesThisHour q1 + n |}
                (sleep (DELAY_BETWEEN_BATCHES_MS cfg) s3) Hgood')
      as [q' [s' [evs2 [Hrun2 [Htr2 [Hout2 Hat2]]]]]].
    rewrite Hrun2.
    exists q', s', (evs0 ++ EvDeleting (idx + 1) n q1 :: evs1
                    ++ EvSleep (DELAY_BETWEEN_BATCHES_MS cfg) :: evs2).
    split; [reflexivity|]. split; [|split].
    + rewrite Htr2, trace_sleep, Htr1. cbn [emit trace]. rewrite Htr0.
      rewrite <- !app_assoc. reflexivity.
    + rewrite outcomes_app, Hout0. cbn [app outcomes]. rewrite outcomes_app, Hout1.
      cbn [app outcomes]. rewrite Hout2. reflexivity.
    + rewrite attempts_app, Hat0. cbn [app attempts]. rewrite attempts_app, Hat1.
      cbn [app attempts]. rewrite Hat2. reflexivity.
Qed.

Lemma dispatch_in_order_when_all_succeed_witness :
  exists q' s' evs,
    dispatch_loop source_config
      (map gu_chunk [mkGoodUnit [Runs.op "3kaaa"] [(200, Runs.limited None)] 150;
                     mkGoodUnit [Runs.op "3kbbb"] [] 90]) 0
      {| hourWindowStart := clock Runs.start; deletesThisHour := 0 |}
      (concat (map good_answers
                 [mkGoodUnit [Runs.op "3kaaa"] [(200, Runs.limited None)] 150;
                  mkGoodUnit [Runs.op "3kbbb"] [] 90]) ++ []) Runs.start
    = Returned (q', []) s' /\
    trace s' = trace Runs.start ++ evs /\
    outcomes evs
    = succeeded_from 0
        (List.length [mkGoodUnit [Runs.op "3kaaa"] [(200, Runs.limited None)] 150;
                      mkGoodUnit [Runs.op "3kbbb"] [] 90]) /\
    attempts evs
    = concat (map good_attempts
                [mkGoodUnit [Runs.op "3kaaa"] [(200, Runs.limited None)] 150;
                 mkGoodUnit [Runs.op "3kbbb"] [] 90]).
Proof.
  apply (dispatch_in_order_when_all_succeed source_config
           [mkGoodUnit [Runs.op "3kaaa"] [(200, Runs.limited None)] 150;
            mkGoodUnit [Runs.op "3kbbb"] [] 90] [] 0).
  repeat constructor.
Defined.

(** The match is by substring and by exact case: a host that merely
    contains the domain matches, the domain in capitals does not. *)
Example matching_is_substring_and_case_sensitive :
  matches "futura-sciences.com"
    (JObj [("embed", Samples.external_embed "https://notfutura-sciences.com.example.org/a")])
  = Ok true /\
  matches "futura-sciences.com"
    (JObj [("embed", Samples.external_embed "https://www.Futura-Sciences.com/a")])
  = Ok false.
Proof. vm_compute. split; reflexivity. Qed.

(* ================================================================== *)
(** * More on the matching block *)
(* ================================================================== *)

Section MatcherFrame.

Variable domain : string.

Lemma check_facets_frame (v v' : JValue) :
  Js.field v "facets" = Js.field v' "facets" ->
  check_facets domain v = check_facets domain v'.
Proof. intros H. unfold check_facets. rewrite !get_opt_some, H. reflexivity. Qed.

Lemma check_embed_frame (v v' : JValue) :
  Js.field v "embed" = Js.field v' "embed" ->
  check_embed domain v = check_embed domain v'.
Proof. intros H. unfold check_embed. rewrite !get_opt_some, H. reflexivity. Qed.

Lemma check_entities_frame (v v' : JValue) :
  Js.field v "entities" = Js.field v' "entities" ->
  check_entities domain v = check_entities domain v'.
Proof. intros H. unfold check_entities. rewrite !get_opt_some, H. reflexivity. Qed.

Lemma string_app_assoc (a b c : string) :
  ((a ++ b) ++ c = a ++ (b ++ c))%string.
Proof. induction a as [|x a IH]; simpl; [reflexivity | now rewrite IH]. Qed.

Lemma contains_trans (u d d' : string) :
  JsString.contains u d -> JsString.contains d d' -> JsString.contains u d'.
Proof.
  intros [p [q ->]] [p' [q' ->]]. exists (p ++ p')%string, (q' ++ q)%string.
  now rewrite !string_app_assoc.
Qed.

End MatcherFrame.

(** X3.  The verdict on a record depends on its [facets], [embed] and
    [entities] fields alone: two values that agree on these three get the
    same result, whatever their other fields (the text of the post
    included) hold. *)
Theorem matches_reads_three_fields_only (domain : string) (v v' : JValue) :
  same_sources v v' -> matches domain v = matches domain v'.
Proof.
  intros [Hf [Hm He]]. unfold matches.
  rewrite (check_facets_frame domain v v' Hf), (check_embed_frame domain v v' Hm),
    (check_entities_frame domain v v' He).
  reflexivity.
Qed.

Lemma matches_reads_three_fields_only_witness :
  matches Samples.domain
    (JObj [("text", JStr "read https://www.futura-sciences.com/a");
           ("langs", JArr [JStr "fr"])])
  = matches Samples.domain (JObj []).
Proof.
  apply (matches_reads_three_fields_only Samples.domain
           (JObj [("text", JStr "read https://www.futura-sciences.com/a");
                  ("langs", JArr [JStr "fr"])])
           (JObj [])).
  repeat split.
Defined.

(** X4.  On a well-formed value a hit for a domain is a hit for every
    string that occurs in that domain: shortening the target domain to one
    of its substrings never loses a match. *)
Theorem matches_monotone_in_domain (d d' : string) (val : JValue) :
  well_formed val = true ->
  JsString.contains d d' ->
  matches d val = Ok true ->
  matches d' val = Ok true.
Proof.
  intros Hwf Hsub Hhit.
  rewrite (matches_wf d val Hwf) in Hhit. rewrite (matches_wf d' val Hwf).
  injection Hhit as Hhit. f_equal.
  apply evidence_decided. apply evidence_decided in Hhit.
  destruct Hhit as [Hl | [Hm | He]].
  - left. destruct Hl as [fs [f [ts [t [u [H1 [H2 [H3 [H4 [H5 [H6 H7]]]]]]]]]]].
    exists fs, f, ts, t, u. repeat split; auto. exact (contains_trans _ _ _ H7 Hsub).
  - right. left. destruct Hm as [m [x [u [H1 [H2 [H3 [H4 H5]]]]]]].
    exists m, x, u. repeat split; auto. exact (contains_trans _ _ _ H5 Hsub).
  - right. right. destruct He as [es [n [v [H1 [H2 [H3 [H4 H5]]]]]]].
    exists es, n, v. repeat split; auto. exact (contains_trans _ _ _ H5 Hsub).
Qed.

Lemma matches_monotone_in_domain_witness :
  matches "sciences.com" Samples.post_with_link = Ok true.
Proof.
  apply (matches_monotone_in_domain Samples.domain "sciences.com" Samples.post_with_link).
  - reflexivity.
  - exists "futura-"%string, ""%string. reflexivity.
  - reflexivity.
Defined.

(** X5.  The three sources are tried in order and the first hit ends the
    search: when the facets are well formed and hold a link to the domain,
    the block answers [true] whatever [embed] and [entities] look like, and
    when the facets hold no such link and the embed is well formed and
    points at the domain, it answers [true] whatever [entities] looks
    like. *)
Theorem first_hit_shields_later_sources (domain : string) (val : JValue) :
  absent_or_array wf_facet (Js.field val "facets") = true ->
  (has_link domain val = true -> matches domain val = Ok true) /\
  (has_link domain val = false ->
   wf_embed (Js.field val "embed") = true ->
   has_embed domain val = true ->
   matches domain val = Ok true).
Proof.
  intros Hf. unfold matches. rewrite (check_facets_wf domain val Hf). split.
  - intros ->. reflexivity.
  - intros -> Hm Hhit. cbn [bind negb]. rewrite (check_embed_wf domain val Hm), Hhit.
    reflexivity.
Qed.

Lemma first_hit_shields_later_sources_witness :
  absent_or_array wf_facet (Js.field linked_with_bad_entities "facets") = true /\
  has_link Samples.domain linked_with_bad_entities = true /\
  matches Samples.domain linked_with_bad_entities = Ok true.
Proof.
  split; [reflexivity|]. split; [reflexivity|].
  apply (proj1 (first_hit_shields_later_sources Samples.domain
                  linked_with_bad_entities eq_refl)).
  reflexivity.
Defined.

(** The same malformed entities alone make the block throw. *)
Example malformed_entities_alone_throw :
  matches Samples.domain
    (JObj [("entities", JArr [JNull; JObj [("type", JStr ENTITY_LINK)]])]) = TypeError.
Proof. reflexivity. Qed.

(* ================================================================== *)
(** * More on the scan *)
(* ================================================================== *)

Section ScanRuns.

Variable domain : string.

(** Pages that carry a cursor and whose records the block can read are
    gone through one call each, and the loop goes on with the rest of the
    script. *)
Lemma scan_loop_through (mid : list (Z * list RepoRecord * string)) :
  forall cursor deletes s tail,
    Forall (fun p => snd p <> ""%string) mid ->
    Forall (classifiable domain) (middle_records mid) ->
    exists cursor' s1,
      scan_loop domain (middle_pages mid ++ tail) cursor deletes s
      = scan_loop domain tail cursor'
          (deletes ++ map delete_of (filter (is_match domain) (middle_records mid))) s1 /\
      trace s1 ++ [EvListRecords (list_params cursor')]
      = trace s ++ scan_requests cursor mid.
Proof.
  induction mid as [|[[lat recs] cur] mid IH]; intros cursor deletes s tail Hcur Hall.
  - exists cursor, s. cbn [middle_pages map app middle_records concat filter].
    rewrite app_nil_r. split; reflexivity.
  - inversion Hcur as [|? ? Hc Hcur']; subst. cbn [snd] in Hc.
    change (middle_records ((lat, recs, cur) :: mid)) with (recs ++ middle_records mid) in *.
    apply Forall_app in Hall. destruct Hall as [Hrecs Hall].
    destruct (IH (Some cur) (deletes ++ map delete_of (filter (is_match domain) recs))
                (tick lat (emit (EvListRecords (list_params cursor)) s)) tail Hcur' Hall)
      as [cursor' [s1 [Hrun Htr]]].
    exists cursor', s1. split.
    + cbn [middle_pages map app fst snd scan_loop].
      rewrite (classify_spec domain recs deletes Hrecs).
      destruct (String.eqb_spec cur "") as [->|_]; [contradiction|].
      cbn [cursor_truthy negb].
      destruct (String.eqb_spec cur "") as [->|_]; [contradiction|]. cbn [negb].
      fold (middle_pages mid). rewrite Hrun.
      rewrite filter_app, map_app, <- !app_assoc. reflexivity.
    + rewrite Htr. cbn [tick emit trace]. rewrite <- app_assoc. reflexivity.
Qed.

(** One record the block throws on is enough for the loop over the page
    to throw. *)
Lemma classify_throws (records : list RepoRecord) :
  Exists (unclassifiable domain) records ->
  forall deletes, classify domain records deletes = TypeError.
Proof.
  induction 1 as [r records Hr | r records _ IH]; intros deletes; simpl.
  - unfold unclassifiable in Hr. rewrite Hr. reflexivity.
  - destruct (matches domain (value r)); simpl; [apply IH | reflexivity].
Qed.

(** Whatever the loop over a page adds keeps a property that every built
    delete has. *)
Lemma classify_keeps (P : DeleteOp -> Prop) (records : list RepoRecord) :
  (forall r, P (delete_of r)) ->
  forall deletes deletes',
    Forall P deletes ->
    classify domain records deletes = Ok deletes' ->
    Forall P deletes'.
Proof.
  intros Hbuilt. induction records as [|r records IH]; intros deletes deletes' Hall Hrun.
  - simpl in Hrun. injection Hrun as <-. exact Hall.
  - simpl in Hrun. destruct (matches domain (value r)) as [found|]; [|discriminate].
    simpl in Hrun. refine (IH _ deletes' _ Hrun). destruct found; [|exact Hall].
    apply Forall_app. split; [exact Hall|]. constructor; [apply Hbuilt | constructor].
Qed.

Lemma scan_loop_keeps (P : DeleteOp -> Prop) (pages : list PageResponse) :
  (forall r, P (delete_of r)) ->
  forall cursor deletes s deletes' s',
    Forall P deletes ->
    scan_loop domain pages cursor deletes s = Returned deletes' s' ->
    Forall P deletes'.
Proof.
  intros Hbuilt.
  induction pages as [|[latency records cursor'|latency e] pages IH];
    intros cursor deletes s deletes' s' Hall Hrun; cbn [scan_loop] in Hrun;
    try discriminate.
  destruct (classify domain records deletes) as [found|] eqn:Hcl; [|discriminate].
  pose proof (classify_keeps P records Hbuilt deletes found Hall Hcl) as Hfound.
  destruct (cursor_truthy cursor').
  - exact (IH _ _ _ _ _ Hfound Hrun).
  - injection Hrun as <- _. exact Hfound.
Qed.

End ScanRuns.

Lemma delete_of_ok (r : RepoRecord) : delete_ok (delete_of r).
Proof.
  unfold delete_ok, delete_of. cbn [op_type collection rkey]. repeat split.
  destruct (getRecordId_cases (uri r)) as [[Hno ->] | [pre [_ Hno]]]; assumption.
Qed.

(** X6.  When a [listRecords] call fails, after any number of pages that
    went through, the scan throws that error and so does the whole run:
    the calls made are the one per page and the one that failed, the
    matches found so far are dropped, and nothing is deleted. *)
Theorem scan_aborts_on_page_error (cfg : Config)
    (mid : list (Z * list RepoRecord * string)) (latency : Z) (e : XrpcError)
    (rest : list PageResponse) (answers : list WriteResponse) (s : St) :
  Forall (fun p => snd p <> ""%string) mid ->
  Forall (classifiable (TARGET_DOMAIN cfg)) (middle_records mid) ->
  exists s',
    scan cfg (middle_pages mid ++ PageErr latency e :: rest) s = Threw (ExnRpc e) s' /\
    main cfg (middle_pages mid ++ PageErr latency e :: rest) answers s
    = Threw (ExnRpc e) s' /\
    trace s' = trace s ++ scan_requests None mid.
Proof.
  intros Hcur Hall.
  destruct (scan_loop_through (TARGET_DOMAIN cfg) mid None [] s
              (PageErr latency e :: rest) Hcur Hall) as [cursor' [s1 [Hrun Htr]]].
  exists (tick latency (emit (EvListRecords (list_params cursor')) s1)).
  assert (Hscan : scan cfg (middle_pages mid ++ PageErr latency e :: rest) s
                  = Threw (ExnRpc e)
                      (tick latency (emit (EvListRecords (list_params cursor')) s1))).
  { unfold scan. rewrite Hrun. reflexivity. }
  split; [exact Hscan|]. split.
  - unfold main. rewrite Hscan. reflexivity.
  - exact Htr.
Qed.

Lemma scan_aborts_on_page_error_witness :
  exists s',
    scan source_config
      (middle_pages [(120, [Runs.post "at://did:plc:abc/app.bsky.feed.post/3kaaa"
                              Samples.post_with_link], "c1"%string)]
       ++ PageErr 40 Runs.server_error :: []) Runs.start
    = Threw (ExnRpc Runs.server_error) s' /\
    main source_config
      (middle_pages [(120, [Runs.post "at://did:plc:abc/app.bsky.feed.post/3kaaa"
                              Samples.post_with_link], "c1"%string)]
       ++ PageErr 40 Runs.server_error :: []) [WriteOk 100] Runs.start
    = Threw (ExnRpc Runs.server_error) s' /\
    trace s' = trace Runs.start ++
      scan_requests None
        [(120, [Runs.post "at://did:plc:abc/app.bsky.feed.post/3kaaa"
                  Samples.post_with_link], "c1"%string)].
Proof.
  apply (scan_aborts_on_page_error source_config
           [(120, [Runs.post "at://did:plc:abc/app.bsky.feed.post/3kaaa"
                     Samples.post_with_link], "c1"%string)]
           40 Runs.server_error [] [WriteOk 100] Runs.start).
  - constructor; [discriminate | constructor].
  - repeat constructor. eexists. vm_compute. reflexivity.
Defined.

(** X7.  One record on which the matching block throws stops everything:
    when the pages before went through and a page holds such a record, the
    scan throws a TypeError and so does the whole run, with no call made
    but the [listRecords] calls up to that page; the posts that matched on
    earlier pages are not deleted. *)
Theorem unreadable_record_aborts_run (cfg : Config)
    (mid : list (Z * list RepoRecord * string)) (latency : Z)
    (records : list RepoRecord) (cursor : option string)
    (rest : list PageResponse) (answers : list WriteResponse) (s : St) :
  Forall (fun p => snd p <> ""%string) mid ->
  Forall (classifiable (TARGET_DOMAIN cfg)) (middle_records mid) ->
  Exists (unclassifiable (TARGET_DOMAIN cfg)) records ->
  exists s',
    scan cfg (middle_pages mid ++ PageOk latency records cursor :: rest) s
    = Threw ExnTypeError s' /\
    main cfg (middle_pages mid ++ PageOk latency records cursor :: rest) answers s
    = Threw ExnTypeError s' /\
    trace s' = trace s ++ scan_requests None mid.
Proof.
  intros Hcur Hall Hbad.
  destruct (scan_loop_through (TARGET_DOMAIN cfg) mid None [] s
              (PageOk latency records cursor :: rest) Hcur Hall)
    as [cursor' [s1 [Hrun Htr]]].
  exists (tick latency (emit (EvListRecords (list_params cursor')) s1)).
  assert (Hscan : scan cfg (middle_pages mid ++ PageOk latency records cursor :: rest) s
                  = Threw ExnTypeError
                      (tick latency (emit (EvListRecords (list_params cursor')) s1))).
  { unfold scan. rewrite Hrun. cbn [scan_loop].
    rewrite (classify_throws (TARGET_DOMAIN cfg) records Hbad). reflexivity. }
  split; [exact Hscan|]. split.
  - unfold main. rewrite Hscan. reflexivity.
  - exact Htr.
Qed.

Lemma unreadable_record_aborts_run_witness :
  exists s',
    scan source_config
      (middle_pages [(120, [Runs.post "at://did:plc:abc/app.bsky.feed.post/3kaaa"
                              Samples.post_with_link], "c1"%string)]
       ++ PageOk 80 [Runs.post "at://did:plc:abc/app.bsky.feed.post/3kbbb"
                       Samples.plain_post;
                     Runs.post "at://did:plc:abc/app.bsky.feed.post/3kccc"
                       Samples.facet_without_uri] None :: []) Runs.start
    = Threw ExnTypeError s' /\
    main source_config
      (middle_pages [(120, [Runs.post "at://did:plc:abc/app.bsky.feed.post/3kaaa"
                              Samples.post_with_link], "c1"%string)]
       ++ PageOk 80 [Runs.post "at://did:plc:abc/app.bsky.feed.post/3kbbb"
                       Samples.plain_post;
                     Runs.post "at://did:plc:abc/app.bsky.feed.post/3kccc"
                       Samples.facet_without_uri] None :: []) [WriteOk 100] Runs.start
    = Threw ExnTypeError s' /\
    trace s' = trace Runs.start ++
      scan_requests None
        [(120, [Runs.post "at://did:plc:abc/app.bsky.feed.post/3kaaa"
                  Samples.post_with_link], "c1"%string)].
Proof.
  apply (unreadable_record_aborts_run source_config
           [(120, [Runs.post "at://did:plc:abc/app.bsky.feed.post/3kaaa"
                     Samples.post_with_link], "c1"%string)]
           80 [Runs.post "at://did:plc:abc/app.bsky.feed.post/3kbbb" Samples.plain_post;
               Runs.post "at://did:plc:abc/app.bsky.feed.post/3kccc"
                 Samples.facet_without_uri]
           None [] [WriteOk 100] Runs.start).
  - constructor; [discriminate | constructor].
  - repeat constructor. eexists. vm_compute. reflexivity.
  - apply Exists_cons_tl. apply Exists_cons_hd. vm_compute. reflexivity.
Defined.

(** X8.  The loop has no end of its own: after any number of pages that
    each carry a non-empty cursor it calls [listRecords] once more, with
    the cursor of the last page (a cursor seen before is sent again), and
    returns nothing until a page comes without one. *)
Theorem scan_asks_again_while_cursor (cfg : Config)
    (mid : list (Z * list RepoRecord * string)) (answers : list WriteResponse) (s : St) :
  Forall (fun p => snd p <> ""%string) mid ->
  Forall (classifiable (TARGET_DOMAIN cfg)) (middle_records mid) ->
  exists s',
    scan cfg (middle_pages mid) s = Hangs s' /\
    main cfg (middle_pages mid) answers s = Hangs s' /\
    trace s' = trace s ++ scan_requests None mid /\
    List.length (requests (scan_requests None mid)) = S (List.length mid).
Proof.
  intros Hcur Hall.
  destruct (scan_loop_through (TARGET_DOMAIN cfg) mid None [] s [] Hcur Hall)
    as [cursor' [s1 [Hrun Htr]]].
  rewrite app_nil_r in Hrun.
  exists (emit (EvListRecords (list_params cursor')) s1).
  assert (Hscan : scan cfg (middle_pages mid) s
                  = Hangs (emit (EvListRecords (list_params cursor')) s1)).
  { unfold scan. rewrite Hrun. reflexivity. }
  split; [exact Hscan|]. split; [|split].
  - unfold main. rewrite Hscan. reflexivity.
  - exact Htr.
  - unfold scan_requests, middle_cursors. cbn [map requests List.length]. f_equal.
    clear. induction mid as [|p mid IH]; cbn [map requests List.length]; [reflexivity|].
    now rewrite IH.
Qed.

Lemma scan_asks_again_while_cursor_witness :
  exists s',
    scan source_config
      (middle_pages [(120, [], "c1"%string); (90, [], "c1"%string)]) Runs.start
    = Hangs s' /\
    main source_config
      (middle_pages [(120, [], "c1"%string); (90, [], "c1"%string)]) [] Runs.start
    = Hangs s' /\
    trace s' = trace Runs.start
               ++ scan_requests None [(120, [], "c1"%string); (90, [], "c1"%string)] /\
    List.length (requests (scan_requests None
                             [(120, [], "c1"%string); (90, [], "c1"%string)]))
    = S (List.length [(120, @nil RepoRecord, "c1"%string); (90, [], "c1"%string)]).
Proof.
  apply (scan_asks_again_while_cursor source_config
           [(120, [], "c1"%string); (90, [], "c1"%string)] [] Runs.start).
  - repeat constructor; discriminate.
  - constructor.
Defined.

(** X9.  Every delete the scan returns is built the same way: the type
    [com.atproto.repo.applyWrites#delete], the collection
    [app.bsky.feed.post], and a record key with no ['/'] in it, whatever
    the uris of the records were. *)
Theorem scan_deletes_are_record_keys (cfg : Config) (pages : list PageResponse)
    (s s' : St) (deletes : list DeleteOp) :
  scan cfg pages s = Returned deletes s' ->
  Forall delete_ok deletes.
Proof.
  intros Hscan.
  apply (scan_loop_keeps (TARGET_DOMAIN cfg) delete_ok pages delete_of_ok
           None [] s deletes s'); [constructor | exact Hscan].
Qed.

Lemma scan_deletes_are_record_keys_witness :
  Forall delete_ok [Runs.op "3kaaa"].
Proof.
  apply (scan_deletes_are_record_keys source_config Runs.one_page Runs.start
           {| clock := 1734256800120; trace := [EvListRecords (list_params None)] |}).
  vm_compute. reflexivity.
Defined.

(* ================================================================== *)
(** * More on the dispatch loop and on whole runs *)
(* ================================================================== *)

Section DispatchMore.

Variable cfg : Config.

(** The dispatch loop throws only the TypeError of the [catch] block, and
    only when one of the answers is a rejection without an error object. *)
Lemma dispatch_loop_throws (chunks : list (list DeleteOp)) :
  forall idx q answers s e s',
    dispatch_loop cfg chunks idx q answers s = Threw e s' ->
    e = ExnTypeError /\ exists latency, In (WriteRejected latency) answers.
Proof.
  induction chunks as [|chunk later IH]; intros idx q answers s e s' Hrun.
  - discriminate.
  - rewrite dispatch_loop_cons in Hrun. cbv zeta in Hrun.
    pose proof (retry_loop_ends (idx + 1) chunk answers
                  (emit (EvDeleting (idx + 1) (Z.of_nat (List.length chunk))
                           (fst (quota_check cfg q (Z.of_nat (List.length chunk)) s)))
                     (snd (quota_check cfg q (Z.of_nat (List.length chunk)) s)))) as Hend.
    destruct (retry_loop (idx + 1) chunk answers _) as [[[|] rest] s3|ex s3|s3].
    + destruct Hend as [errors [latency [-> _]]].
      destruct (IH _ _ _ _ _ _ Hrun) as [-> [lat Hin]]. split; [reflexivity|].
      exists lat. apply in_or_app. right. right. exact Hin.
    + discriminate.
    + injection Hrun as <- _. destruct Hend as [-> [errors [latency [rest [-> _]]]]].
      split; [reflexivity|]. exists latency. apply in_or_app. right. left. reflexivity.
    + discriminate.
Qed.

(** With chunks no larger than [bound], itself no larger than the
    threshold, every batch goes out with room left in the hour's count. *)
Lemma dispatch_loop_batches_fit (bound : Z) (chunks : list (list DeleteOp)) :
  bound <= threshold cfg ->
  Forall (fun c => Z.of_nat (List.length c) <= bound) chunks ->
  forall idx q answers s,
    0 <= deletesThisHour q ->
    exists evs,
      trace (final (dispatch_loop cfg chunks idx q answers s)) = trace s ++ evs /\
      Forall (batch_fits cfg bound) (probes evs).
Proof.
  intros Hbound Hsizes.
  induction Hsizes as [|chunk later Hsize _ IH]; intros idx q answers s Hq.
  - exists []. cbn [dispatch_loop final probes]. rewrite app_nil_r.
    split; [reflexivity | constructor].
  - rewrite dispatch_loop_cons. cbv zeta.
    set (n := Z.of_nat (List.length chunk)) in *.
    destruct (quota_check_effect cfg q n s)
      as [evs0 [Htr0 [_ [_ [Hpr0 [_ [Hfit Hpos]]]]]]].
    set (q1 := fst (quota_check cfg q n s)) in *.
    set (s1 := snd (quota_check cfg q n s)) in *.
    destruct (retry_loop_effect (idx + 1) chunk answers (emit (EvDeleting (idx + 1) n q1) s1))
      as [evs1 [Htr1 [Hpr1 _]]].
    specialize (Hpos Hq).
    assert (Hok : batch_fits cfg bound (n, q1)).
    { unfold batch_fits. cbn [fst snd]. unfold n in *. lia. }
    assert (Hhere : trace s1 ++ EvDeleting (idx + 1) n q1 :: evs1
                    = trace s ++ evs0 ++ EvDeleting (idx + 1) n q1 :: evs1).
    { rewrite Htr0, <- app_assoc. reflexivity. }
    assert (Hprobes : probes (evs0 ++ EvDeleting (idx + 1) n q1 :: evs1) = [(n, q1)]).
    { rewrite probes_app, Hpr0. cbn [app probes]. now rewrite Hpr1. }
    cbn [emit trace] in Htr1. rewrite <- app_assoc in Htr1. cbn [app] in Htr1.
    destruct (retry_loop (idx + 1) chunk answers (emit (EvDeleting (idx + 1) n q1) s1))
      as [[[|] rest] s3|ex s3|s3]; cbn [final] in Htr1.
    + destruct (IH (idx + 1)
                  {| hourWindowStart := hourWindowStart q1;
                     deletesThisHour := deletesThisHour q1 + n |}
                  rest (sleep (DELAY_BETWEEN_BATCHES_MS cfg) s3))
        as [evs2 [Htr2 Hpr2]].
      { cbn [deletesThisHour]. unfold n. lia. }
      exists ((evs0 ++ EvDeleting (idx + 1) n q1 :: evs1)
              ++ EvSleep (DELAY_BETWEEN_BATCHES_MS cfg) :: evs2).
      split.
      * rewrite Htr2, trace_sleep, Htr1, Hhere, <- !app_assoc. reflexivity.
      * rewrite probes_app, Hprobes. cbn [app probes]. constructor; assumption.
    + exists (evs0 ++ EvDeleting (idx + 1) n q1 :: evs1). cbn [final].
      rewrite Htr1, Hhere, Hprobes. split; [reflexivity | constructor; [exact Hok | constructor]].
    + exists (evs0 ++ EvDeleting (idx + 1) n q1 :: evs1). cbn [final].
      rewrite Htr1, Hhere, Hprobes. split; [reflexivity | constructor; [exact Hok | constructor]].
    + exists (evs0 ++ EvDeleting (idx + 1) n q1 :: evs1). cbn [final].
      rewrite Htr1, Hhere, Hprobes. split; [reflexivity | constructor; [exact Hok | constructor]].
Qed.

(** Units that all go through. *)
Lemma dispatch_loop_all_good (units : list GoodUnit) :
  forall (rest : list WriteResponse) (idx : Z) (q : QuotaWindow) (s : St),
    Forall (fun u => all_rate_limited (gu_errors u)) units ->
    exists q' s' evs,
      dispatch_loop cfg (map gu_chunk units) idx q
        (concat (map good_answers units) ++ rest) s
      = Returned (q', rest) s' /\
      trace s' = trace s ++ evs /\
      outcomes evs = succeeded_from idx (List.length units) /\
      attempts evs = concat (map good_attempts units).
Proof.
  induction units as [|u units IH]; intros rest idx q s Hgood.
  - exists q, s, []. cbn. rewrite app_nil_r. repeat split.
  - inversion Hgood as [|? ? Hu Hgood']; subst.
    cbn [map app concat]. rewrite dispatch_loop_cons. cbv zeta.
    set (n := Z.of_nat (List.length (gu_chunk u))).
    destruct (quota_check_effect cfg q n s) as [evs0 [Htr0 [Hat0 [Hout0 _]]]].
    set (q1 := fst (quota_check cfg q n s)) in *.
    set (s1 := snd (quota_check cfg q n s)) in *.
    unfold good_answers at 1. rewrite <- !app_assoc. cbn [app].
    destruct (retry_loop_succeeds (idx + 1) (gu_chunk u) (gu_errors u) (gu_latency u)
                (concat (map good_answers units) ++ rest)
                (emit (EvDeleting (idx + 1) n q1) s1) Hu)
      as [s3 [evs1 [Hrun [Htr1 [Hat1 [_ [Hout1 _]]]]]]].
    rewrite Hrun.
    destruct (IH rest (idx + 1)
                {| hourWindowStart := hourWindowStart q1;
                   deletesThisHour := deletesThisHour q1 + n |}
                (sleep (DELAY_BETWEEN_BATCHES_MS cfg) s3) Hgood')
      as [q' [s' [evs2 [Hrun2 [Htr2 [Hout2 Hat2]]]]]].
    rewrite Hrun2.
    exists q', s', (evs0 ++ EvDeleting (idx + 1) n q1 :: evs1
                    ++ EvSleep (DELAY_BETWEEN_BATCHES_MS cfg) :: evs2).
    split; [reflexivity|]. split; [|split].
    + rewrite Htr2, trace_sleep, Htr1. cbn [emit trace]. rewrite Htr0.
      rewrite <- !app_assoc. reflexivity.
    + rewrite outcomes_app, Hout0. cbn [app outcomes]. rewrite outcomes_app, Hout1.
      cbn [app outcomes]. rewrite Hout2. reflexivity.
    + rewrite attempts_app, Hat0. cbn [app attempts]. rewrite attempts_app, Hat1.
      cbn [app attempts]. rewrite Hat2. reflexivity.
Qed.

End DispatchMore.

(** X11.  With a batch size between 1 and the threshold (200 and 4900 in
    the script), every batch of every run is sent with at most that many
    deletes and with [deletesThisHour] plus its size within the threshold:
    the count of one window never passes [MAX_DELETES_PER_HOUR -
    SAFE_MARGIN], however the run ends. *)
Theorem main_batches_stay_under_threshold (cfg : Config) (pages : list PageResponse)
    (answers : list WriteResponse) (s : St) :
  0 < DELETES_PER_BATCH cfg <= threshold cfg ->
  exists evs,
    trace (final (main cfg pages answers s)) = trace s ++ evs /\
    Forall (batch_fits cfg (DELETES_PER_BATCH cfg)) (probes evs).
Proof.
  intros [Hpos Hle].
  destruct (scan_loop_effect (TARGET_DOMAIN cfg) pages None [] s)
    as [evs0 [Htr0 [_ [_ Hpr0]]]].
  unfold main. fold (scan cfg pages s) in Htr0.
  destruct (scan cfg pages s) as [deletes s1|e1 s1|s1]; cbn [final] in Htr0.
  - destruct (Nat.eqb (List.length deletes) 0).
    + exists evs0. cbn [final]. rewrite Hpr0. split; [assumption | constructor].
    + destruct (chunked_loop_spec (S (List.length deletes)) deletes
                  (DELETES_PER_BATCH cfg) 0 [] Hpos)
        as [chunks [Hrun [_ [_ [Hall _]]]]]; [lia | lia |].
      unfold chunked. rewrite Hrun. cbn [app].
      destruct (dispatch_loop_batches_fit cfg (DELETES_PER_BATCH cfg) chunks Hle)
        with (idx := 0) (q := {| hourWindowStart := clock s1; deletesThisHour := 0 |})
             (answers := answers) (s := s1)
        as [evs1 [Htr1 Hpr1]].
      { eapply Forall_impl; [|exact Hall]. cbv beta. intros c Hc. lia. }
      { cbn [deletesThisHour]. lia. }
      exists (evs0 ++ evs1). split.
      * destruct (dispatch_loop cfg chunks 0 _ answers s1) as [r s2|e2 s2|s2];
          cbn [final] in *; rewrite Htr1, Htr0, <- app_assoc; reflexivity.
      * rewrite probes_app, Hpr0. exact Hpr1.
  - exists evs0. cbn [final]. rewrite Hpr0. split; [assumption | constructor].
  - exists evs0. cbn [final]. rewrite Hpr0. split; [assumption | constructor].
Qed.

Lemma main_batches_stay_under_threshold_witness :
  exists evs,
    trace (final (main source_config Runs.one_page [WriteOk 100] Runs.start))
    = trace Runs.start ++ evs /\
    Forall (batch_fits source_config (DELETES_PER_BATCH source_config)) (probes evs).
Proof.
  apply (main_batches_stay_under_threshold source_config Runs.one_page [WriteOk 100]
           Runs.start).
  vm_compute. split; [reflexivity | discriminate].
Defined.

(** X12.  From scan to delete, when every write ends well: the chunks the
    run sends are those of [chunked] on what the scan returned, in order,
    each sent once more than it met a 429; every batch is reported
    completed; and the chunks put end to end are the scan's deletes, so
    each matching post is asked to be deleted, in the order it was found. *)
Theorem main_deletes_every_match_in_order (cfg : Config) (pages : list PageResponse)
    (units : list GoodUnit) (rest : list WriteResponse) (s s1 : St)
    (deletes : list DeleteOp) :
  scan cfg pages s = Returned deletes s1 ->
  deletes <> [] ->
  chunked deletes (DELETES_PER_BATCH cfg) = Some (map gu_chunk units) ->
  Forall (fun u => all_rate_limited (gu_errors u)) units ->
  exists s' evs,
    main cfg pages (concat (map good_answers units) ++ rest) s = Returned tt s' /\
    trace s' = trace s1 ++ evs /\
    attempts evs = concat (map good_attempts units) /\
    outcomes evs = succeeded_from 0 (List.length units) /\
    concat (map gu_chunk units) = deletes.
Proof.
  intros Hscan Hne Hchunks Hgood.
  destruct (dispatch_loop_all_good cfg units rest 0
              {| hourWindowStart := clock s1; deletesThisHour := 0 |} s1 Hgood)
    as [q' [s' [evs [Hrun [Htr [Hout Hat]]]]]].
  exists s', evs. split; [|split; [|split; [|split]]]; try assumption.
  - unfold main. rewrite Hscan.
    destruct deletes as [|d deletes]; [contradiction|].
    cbn [List.length Nat.eqb]. rewrite Hchunks, Hrun. reflexivity.
  - destruct (Z.le_gt_cases (DELETES_PER_BATCH cfg) 0) as [Hsize|Hsize].
    + exfalso. unfold chunked in Hchunks.
      rewrite chunked_loop_never_ends in Hchunks; [discriminate | assumption |].
      destruct deletes; [contradiction | cbn [List.length]; lia].
    + destruct (chunked_loop_spec (S (List.length deletes)) deletes
                  (DELETES_PER_BATCH cfg) 0 []) as [more [Hmore [Hcat _]]]; [lia | lia | lia |].
      unfold chunked in Hchunks. rewrite Hmore in Hchunks.
      injection Hchunks as <-. exact Hcat.
Qed.

Lemma main_deletes_every_match_in_order_witness :
  exists s' evs,
    main source_config Runs.one_page
      (concat (map good_answers
                 [mkGoodUnit [Runs.op "3kaaa"] [(200, Runs.limited None)] 100]) ++ [])
      Runs.start
    = Returned tt s' /\
    trace s' = trace {| clock := 1734256800120;
                        trace := [EvListRecords (list_params None)] |} ++ evs /\
    attempts evs
    = concat (map good_attempts
                [mkGoodUnit [Runs.op "3kaaa"] [(200, Runs.limited None)] 100]) /\
    outcomes evs
    = succeeded_from 0
        (List.length [mkGoodUnit [Runs.op "3kaaa"] [(200, Runs.limited None)] 100]) /\
    concat (map gu_chunk [mkGoodUnit [Runs.op "3kaaa"] [(200, Runs.limited None)] 100])
    = [Runs.op "3kaaa"].
Proof.
  apply (main_deletes_every_match_in_order source_config Runs.one_page
           [mkGoodUnit [Runs.op "3kaaa"] [(200, Runs.limited None)] 100] []
           Runs.start).
  - vm_compute. reflexivity.
  - discriminate.
  - vm_compute. reflexivity.
  - repeat constructor.
Defined.

(** X13.  When the reset time of a 429 is ahead of the clock, is an
    integer a double holds exactly, and is near enough for the wait to be
    within the range of the timer (2^31 - 1 ms, some 24.8 days), the wait
    brings the clock to that very second: the next attempt is made in the
    second the header names. *)
Theorem retry_resumes_at_reset_second (batch : Z) (chunk : list DeleteOp)
    (latency : Z) (e : XrpcError) (rest : list WriteResponse) (s : St)
    (str : string) (reset : Z) :
  status e = Some 429 ->
  resetTimeStr e = Some str ->
  JsNumber.parseInt str = Num reset ->
  safe_integer reset ->
  (clock s + latency) / 1000 < reset ->
  (reset - (clock s + latency) / 1000) * 1000 <= 2147483647 ->
  exists s2,
    retry_loop batch chunk (WriteErr latency e :: rest) s
    = retry_loop batch chunk rest s2 /\
    clock s2 / 1000 = reset /\
    trace s2 = trace s ++ [EvApplyWrites chunk;
                           EvSleep ((reset - (clock s + latency) / 1000) * 1000)].
Proof.
  intros Hstatus Hstr Hparse _ Hahead Hnear.
  assert (Hlim : is_rate_limit e = true).
  { unfold is_rate_limit. rewrite Hstatus. reflexivity. }
  assert (Hwait : waitSeconds e (clock s + latency) = reset - (clock s + latency) / 1000).
  { rewrite waitSeconds_rule, Hstr, Hparse.
    destruct (Z.ltb_spec 0 (reset - (clock s + latency) / 1000)); [reflexivity | lia]. }
  exists (sleep (waitSeconds e (clock s + latency) * 1000)
            (tick latency (emit (EvApplyWrites chunk) s))).
  split; [apply retry_loop_rate_limited; exact Hlim|]. split.
  - rewrite clock_sleep. cbn [tick emit clock]. rewrite Hwait.
    rewrite timer_delay_in_range by lia. rewrite Z.div_add by lia. lia.
  - rewrite trace_sleep. cbn [tick emit trace]. rewrite Hwait, <- app_assoc. reflexivity.
Qed.

Lemma retry_resumes_at_reset_second_witness :
  exists s2,
    retry_loop 1 [Runs.op "3kaaa"]
      (WriteErr 200 (Runs.limited (Some "1734256830")) :: [WriteOk 150]) Runs.start
    = retry_loop 1 [Runs.op "3kaaa"] [WriteOk 150] s2 /\
    clock s2 / 1000 = 1734256830 /\
    trace s2 = trace Runs.start
               ++ [EvApplyWrites [Runs.op "3kaaa"];
                   EvSleep ((1734256830 - (clock Runs.start + 200) / 1000) * 1000)].
Proof.
  apply (retry_resumes_at_reset_second 1 [Runs.op "3kaaa"] 200
           (Runs.limited (Some "1734256830")) [WriteOk 150] Runs.start "1734256830").
  - reflexivity.
  - reflexivity.
  - vm_compute. reflexivity.
  - unfold safe_integer. lia.
  - vm_compute. reflexivity.
  - vm_compute. discriminate.
Defined.

(** X14.  A first batch larger than the threshold does not go out at
    once: with the window opened at the start of the dispatch, the run
    first sleeps one full hour, then opens a new window and sends the
    batch. *)
Theorem first_batch_over_threshold_waits_an_hour (cfg : Config)
    (chunk : list DeleteOp) (later : list (list DeleteOp)) (idx : Z)
    (answers : list WriteResponse) (s : St) :
  threshold cfg < Z.of_nat (List.length chunk) ->
  exists evs,
    trace (final (dispatch_loop cfg (chunk :: later) idx
                    {| hourWindowStart := clock s; deletesThisHour := 0 |} answers s))
    = trace s ++ EvSleep oneHourMs
        :: EvDeleting (idx + 1) (Z.of_nat (List.length chunk))
             {| hourWindowStart := clock s + oneHourMs; deletesThisHour := 0 |}
        :: evs.
Proof.
  intros Hbig.
  assert (Hhour : 0 < oneHourMs) by (vm_compute; reflexivity).
  rewrite dispatch_loop_cons. cbv zeta.
  rewrite quota_check_wait by (cbn [deletesThisHour hourWindowStart]; lia).
  cbn [fst snd hourWindowStart deletesThisHour].
  replace (oneHourMs - (clock s - clock s)) with oneHourMs by lia.
  assert (Hdue : clock (sleep oneHourMs s) = clock s + oneHourMs).
  { rewrite clock_sleep, timer_delay_in_range; [reflexivity|].
    rewrite oneHourMs_value. lia. }
  rewrite Hdue.
  set (n := Z.of_nat (List.length chunk)).
  set (q1 := {| hourWindowStart := clock s + oneHourMs; deletesThisHour := 0 |}).
  destruct (retry_loop_effect (idx + 1) chunk answers
              (emit (EvDeleting (idx + 1) n q1) (sleep oneHourMs s)))
    as [evs1 [Htr1 _]].
  cbn [emit trace] in Htr1. rewrite trace_sleep, <- !app_assoc in Htr1.
  cbn [app] in Htr1.
  destruct (retry_loop (idx + 1) chunk answers
              (emit (EvDeleting (idx + 1) n q1) (sleep oneHourMs s)))
    as [[[|] rest] s3|ex s3|s3]; cbn [final] in Htr1.
  - destruct (dispatch_loop_probes cfg later (idx + 1)
                {| hourWindowStart := clock s + oneHourMs; deletesThisHour := 0 + n |}
                rest (sleep (DELAY_BETWEEN_BATCHES_MS cfg) s3))
      as [evs2 [Htr2 _]].
    { cbn [deletesThisHour]. unfold n. lia. }
    exists (evs1 ++ EvSleep (DELAY_BETWEEN_BATCHES_MS cfg) :: evs2).
    cbn [hourWindowStart deletesThisHour q1].
    rewrite Htr2, trace_sleep, Htr1, <- !app_assoc. reflexivity.
  - exists evs1. exact Htr1.
  - exists evs1. exact Htr1.
  - exists evs1. exact Htr1.
Qed.

Lemma first_batch_over_threshold_waits_an_hour_witness :
  exists evs,
    trace (final (dispatch_loop
                    {| TARGET_DOMAIN := "futura-sciences.com";
                       MAX_DELETES_PER_HOUR := 101;
                       DELETES_PER_BATCH := 200;
                       DELAY_BETWEEN_BATCHES_MS := 5000;
                       SAFE_MARGIN := 100 |}
                    ([Runs.op "3kaaa"; Runs.op "3kbbb"] :: []) 0
                    {| hourWindowStart := clock Runs.start; deletesThisHour := 0 |}
                    [WriteOk 100] Runs.start))
    = trace Runs.start ++ EvSleep oneHourMs
        :: EvDeleting (0 + 1) (Z.of_nat (List.length [Runs.op "3kaaa"; Runs.op "3kbbb"]))
             {| hourWindowStart := clock Runs.start + oneHourMs; deletesThisHour := 0 |}
        :: evs.
Proof.
  apply (first_batch_over_threshold_waits_an_hour
           {| TARGET_DOMAIN := "futura-sciences.com";
              MAX_DELETES_PER_HOUR := 101;
              DELETES_PER_BATCH := 200;
              DELAY_BETWEEN_BATCHES_MS := 5000;
              SAFE_MARGIN := 100 |}
           [Runs.op "3kaaa"; Runs.op "3kbbb"] [] 0 [WriteOk 100] Runs.start).
  vm_compute. reflexivity.
Defined.

(** What follows the last ['/'] of [pre ++ "/" ++ post] when [post] has
    none. *)
Lemma getRecordId_of_split (pre post : string) :
  ~ JsString.occurs slash post ->
  getRecordId (pre ++ "/" ++ post)%string = post.
Proof.
  intros Hpost.
  destruct (getRecordId_cases (pre ++ "/" ++ post)%string) as [[Hno _] | [pre' [Hsplit Hno]]].
  - exfalso. apply Hno. apply occurs_app. right. simpl. auto.
  - simpl in Hsplit.
    destruct (last_split_unique _ _ _ _ _ Hsplit Hpost Hno) as [_ Heq].
    symmetry. exact Heq.
Qed.

(** X15.  Only what follows the last ['/'] counts: putting any prefix and
    a ['/'] in front of a string does not change its record id.  So the
    record id of a record id is itself. *)
Theorem getRecordId_ignores_any_prefix (pre s : string) :
  getRecordId (pre ++ "/" ++ s)%string = getRecordId s /\
  getRecordId (getRecordId s) = getRecordId s.
Proof.
  assert (Hfree : ~ JsString.occurs slash (getRecordId s)).
  { destruct (getRecordId_cases s) as [[Hno ->] | [p [_ Hno]]]; assumption. }
  split.
  - destruct (getRecordId_cases s) as [[Hno Heq] | [p [Hsplit Hno]]].
    + rewrite Heq. apply getRecordId_of_split. exact Hno.
    + rewrite Hsplit at 1.
      replace (pre ++ "/" ++ p ++ String slash (getRecordId s))%string
        with ((pre ++ "/" ++ p) ++ "/" ++ getRecordId s)%string.
      * apply getRecordId_of_split. exact Hno.
      * simpl. rewrite !string_app_assoc. reflexivity.
  - destruct (getRecordId_cases (getRecordId s)) as [[_ Heq] | [p [Hsplit _]]];
      [exact Heq|].
    exfalso. apply Hfree. rewrite Hsplit. apply occurs_app. right. simpl. auto.
Qed.

(* ================================================================== *)
(** * What is sent, and when *)
(* ================================================================== *)

Section Soundness.

Variable domain : string.

(** What the loop over a page adds are deletes of records of that page on
    which the block answered [true]. *)
Lemma classify_sound (records : list RepoRecord) :
  forall deletes deletes',
    classify domain records deletes = Ok deletes' ->
    exists added,
      deletes' = deletes ++ map delete_of added /\
      Forall (fun r => In r records /\ matches domain (value r) = Ok true) added.
Proof.
  induction records as [|r records IH]; intros deletes deletes' Hrun.
  - simpl in Hrun. injection Hrun as <-. exists []. rewrite app_nil_r.
    split; [reflexivity | constructor].
  - simpl in Hrun. destruct (matches domain (value r)) as [found|] eqn:Hm; [|discriminate].
    simpl in Hrun. destruct (IH _ _ Hrun) as [added [-> Hadded]].
    assert (Hlater : Forall (fun r' => In r' (r :: records)
                                       /\ matches domain (value r') = Ok true) added).
    { eapply Forall_impl; [|exact Hadded]. cbv beta. intros r' [Hin Hr'].
      split; [right; exact Hin | exact Hr']. }
    destruct found.
    + exists (r :: added). split.
      * rewrite <- app_assoc. reflexivity.
      * constructor; [|exact Hlater]. split; [left; reflexivity | exact Hm].
    + exists added. split; [reflexivity | exact Hlater].
Qed.

Lemma scan_loop_sound (pages : list PageResponse) :
  forall cursor deletes s deletes' s',
    scan_loop domain pages cursor deletes s = Returned deletes' s' ->
    exists added,
      deletes' = deletes ++ map delete_of added /\
      Forall (fun r => In r (page_records pages)
                       /\ matches domain (value r) = Ok true) added.
Proof.
  induction pages as [|[latency records cursor'|latency e] pages IH];
    intros cursor deletes s deletes' s' Hrun; cbn [scan_loop] in Hrun;
    try discriminate.
  destruct (classify domain records deletes) as [found|] eqn:Hcl; [|discriminate].
  destruct (classify_sound records deletes found Hcl) as [here [-> Hhere]].
  assert (Hhere' : Forall (fun r => In r (page_records (PageOk latency records cursor' :: pages))
                                    /\ matches domain (value r) = Ok true) here).
  { eapply Forall_impl; [|exact Hhere]. cbv beta. intros r [Hin Hr].
    split; [|exact Hr]. unfold page_records. cbn [map concat].
    apply in_or_app. left. exact Hin. }
  destruct (cursor_truthy cursor').
  - destruct (IH _ _ _ _ _ Hrun) as [later [-> Hlater]].
    exists (here ++ later). split.
    + rewrite map_app, app_assoc. reflexivity.
    + apply Forall_app. split; [exact Hhere'|].
      eapply Forall_impl; [|exact Hlater]. cbv beta. intros r [Hin Hr].
      split; [|exact Hr]. unfold page_records. cbn [map concat].
      apply in_or_app. right. exact Hin.
  - injection Hrun as <- _. exists here. split; [reflexivity | exact Hhere'].
Qed.

End Soundness.

Section DispatchSends.

Variable cfg : Config.

(** Every call of the dispatch loop carries one of its chunks, whole. *)
Lemma dispatch_loop_attempts (chunks : list (list DeleteOp)) :
  forall idx q answers s,
    exists evs,
      trace (final (dispatch_loop cfg chunks idx q answers s)) = trace s ++ evs /\
      Forall (fun w => In w chunks) (attempts evs).
Proof.
  induction chunks as [|chunk later IH]; intros idx q answers s.
  - exists []. cbn [dispatch_loop final attempts]. rewrite app_nil_r.
    split; [reflexivity | constructor].
  - rewrite dispatch_loop_cons. cbv zeta.
    set (n := Z.of_nat (List.length chunk)) in *.
    destruct (quota_check_effect cfg q n s) as [evs0 [Htr0 [Hat0 _]]].
    set (q1 := fst (quota_check cfg q n s)) in *.
    set (s1 := snd (quota_check cfg q n s)) in *.
    destruct (retry_loop_effect (idx + 1) chunk answers (emit (EvDeleting (idx + 1) n q1) s1))
      as [evs1 [Htr1 [_ [_ [Hat1 _]]]]].
    assert (Hhere : trace s1 ++ EvDeleting (idx + 1) n q1 :: evs1
                    = trace s ++ evs0 ++ EvDeleting (idx + 1) n q1 :: evs1).
    { rewrite Htr0, <- app_assoc. reflexivity. }
    assert (Hsent : Forall (fun w => In w (chunk :: later))
                      (attempts (evs0 ++ EvDeleting (idx + 1) n q1 :: evs1))).
    { rewrite attempts_app, Hat0. cbn [app attempts].
      eapply Forall_impl; [|exact Hat1]. cbv beta. intros w <-. left. reflexivity. }
    cbn [emit trace] in Htr1. rewrite <- app_assoc in Htr1. cbn [app] in Htr1.
    destruct (retry_loop (idx + 1) chunk answers (emit (EvDeleting (idx + 1) n q1) s1))
      as [[[|] rest] s3|ex s3|s3]; cbn [final] in Htr1.
    + destruct (IH (idx + 1)
                  {| hourWindowStart := hourWindowStart q1;
                     deletesThisHour := deletesThisHour q1 + n |}
                  rest (sleep (DELAY_BETWEEN_BATCHES_MS cfg) s3))
        as [evs2 [Htr2 Hat2]].
      exists ((evs0 ++ EvDeleting (idx + 1) n q1 :: evs1)
              ++ EvSleep (DELAY_BETWEEN_BATCHES_MS cfg) :: evs2).
      split.
      * rewrite Htr2, trace_sleep, Htr1, Hhere, <- !app_assoc. reflexivity.
      * rewrite attempts_app. cbn [attempts]. apply Forall_app. split; [exact Hsent|].
        eapply Forall_impl; [|exact Hat2]. cbv beta. intros w Hw. right. exact Hw.
    + exists (evs0 ++ EvDeleting (idx + 1) n q1 :: evs1). cbn [final].
      rewrite Htr1, Hhere. split; [reflexivity | exact Hsent].
    + exists (evs0 ++ EvDeleting (idx + 1) n q1 :: evs1). cbn [final].
      rewrite Htr1, Hhere. split; [reflexivity | exact Hsent].
    + exists (evs0 ++ EvDeleting (idx + 1) n q1 :: evs1). cbn [final].
      rewrite Htr1, Hhere. split; [reflexivity | exact Hsent].
Qed.

End DispatchSends.

(** X16.  Whatever the server answers and however the run ends, every
    delete of every [applyWrites] call is the delete of a record that one
    of the pages held and on which the matching block answered [true]: no
    post that did not match is ever sent for deletion. *)
Theorem main_sends_only_matches (cfg : Config) (pages : list PageResponse)
    (answers : list WriteResponse) (s : St) :
  exists evs,
    trace (final (main cfg pages answers s)) = trace s ++ evs /\
    Forall (Forall (delete_of_a_match (TARGET_DOMAIN cfg) pages)) (attempts evs).
Proof.
  destruct (scan_loop_effect (TARGET_DOMAIN cfg) pages None [] s)
    as [evs0 [Htr0 [Hat0 _]]].
  unfold main. fold (scan cfg pages s) in Htr0.
  destruct (scan cfg pages s) as [deletes s1|e1 s1|s1] eqn:Hscan; cbn [final] in Htr0.
  - destruct (Nat.eqb (List.length deletes) 0).
    + exists evs0. cbn [final]. rewrite Hat0. split; [assumption | constructor].
    + destruct (chunked deletes (DELETES_PER_BATCH cfg)) as [chunks|] eqn:Hchunks.
      * destruct (dispatch_loop_attempts cfg chunks 0
                    {| hourWindowStart := clock s1; deletesThisHour := 0 |} answers s1)
          as [evs1 [Htr1 Hat1]].
        exists (evs0 ++ evs1). split.
        -- destruct (dispatch_loop cfg chunks 0 _ answers s1) as [r s2|e2 s2|s2];
             cbn [final] in *; rewrite Htr1, Htr0, <- app_assoc; reflexivity.
        -- rewrite attempts_app, Hat0. cbn [app].
           assert (Hcat : concat chunks = deletes).
           { destruct (Z.le_gt_cases (DELETES_PER_BATCH cfg) 0) as [Hsize|Hsize].
             - destruct deletes as [|d deletes].
               + unfold chunked in Hchunks. cbn in Hchunks.
                 injection Hchunks as <-. reflexivity.
               + exfalso. unfold chunked in Hchunks.
                 rewrite chunked_loop_never_ends in Hchunks;
                   [discriminate | assumption | cbn [List.length]; lia].
             - destruct (chunked_loop_spec (S (List.length deletes)) deletes
                           (DELETES_PER_BATCH cfg) 0 [])
                 as [more [Hmore [Hcat _]]]; [lia | lia | lia |].
               unfold chunked in Hchunks. rewrite Hmore in Hchunks.
               injection Hchunks as <-. exact Hcat. }
           unfold scan in Hscan.
           destruct (scan_loop_sound (TARGET_DOMAIN cfg) pages None [] s deletes s1 Hscan)
             as [added [Hdel Hadded]].
           cbn [app] in Hdel.
           eapply Forall_impl; [|exact Hat1]. cbv beta. intros w Hw.
           apply Forall_forall. intros d Hd.
           assert (Hin : In d deletes).
           { rewrite <- Hcat. apply in_concat. exists w. split; assumption. }
           rewrite Hdel in Hin. apply in_map_iff in Hin. destruct Hin as [r [<- Hr]].
           rewrite Forall_forall in Hadded. destruct (Hadded r Hr) as [Hpage Hmatch].
           exists r. repeat split; assumption.
      * exists evs0. cbn [final]. rewrite Hat0. split; [assumption | constructor].
  - exists evs0. cbn [final]. rewrite Hat0. split; [assumption | constructor].
  - exists evs0. cbn [final]. rewrite Hat0. split; [assumption | constructor].
Qed.

Section Pacing.

Variable cfg : Config.

Lemma paced_after_no_completed (delay : Z) (a b : list Event) :
  no_completed a -> paced delay b -> paced delay (a ++ b).
Proof.
  intros Ha Hb. induction Ha as [|ev a Hev _ IH]; [exact Hb|].
  destruct ev; cbn [app paced]; try exact IH. contradiction.
Qed.

Lemma no_completed_app (a b : list Event) :
  no_completed a -> no_completed b -> no_completed (a ++ b).
Proof. intros Ha Hb. apply Forall_app. split; assumption. Qed.

Lemma outcomes_nil_no_completed (evs : list Event) :
  outcomes evs = [] -> no_completed evs.
Proof.
  induction evs as [|ev evs IH]; intros H; [constructor|].
  destruct ev; cbn [outcomes] in H; try discriminate;
    (constructor; [exact I | apply IH; exact H]).
Qed.

(** The retry loop reports a batch completed at most once, and then as
    the last thing it does. *)
Lemma retry_loop_completion (batch : Z) (chunk : list DeleteOp)
    (answers : list WriteResponse) :
  forall s,
    exists evs,
      trace (final (retry_loop batch chunk answers s)) = trace s ++ evs /\
      match retry_loop batch chunk answers s with
      | Returned (true, _) _ =>
          exists pre, evs = pre ++ [EvCompleted batch] /\ no_completed pre
      | _ => no_completed evs
      end.
Proof.
  induction answers as [|[latency|latency e|latency] answers IH]; intros s;
    [| | |exists [EvApplyWrites chunk]; split; [reflexivity | repeat constructor]].
  - exists [EvApplyWrites chunk]. split; [reflexivity | repeat constructor].
  - exists [EvApplyWrites chunk; EvCompleted batch]. split.
    + cbn [retry_loop final emit tick trace]. rewrite <- app_assoc. reflexivity.
    + exists [EvApplyWrites chunk]. split; [reflexivity | repeat constructor].
  - destruct (is_rate_limit e) eqn:He.
    + rewrite (retry_loop_rate_limited _ _ _ _ _ _ He).
      destruct (IH (sleep (waitSeconds e (clock s + latency) * 1000)
                      (tick latency (emit (EvApplyWrites chunk) s))))
        as [evs [Htr Hend]].
      exists (EvApplyWrites chunk
              :: EvSleep (waitSeconds e (clock s + latency) * 1000) :: evs).
      split.
      * rewrite Htr, trace_sleep. cbn [tick emit trace]. rewrite <- !app_assoc.
        reflexivity.
      * destruct (retry_loop batch chunk answers _) as [[[|] rest] s'|ex s'|s'].
        -- destruct Hend as [pre [-> Hpre]].
           exists (EvApplyWrites chunk
                   :: EvSleep (waitSeconds e (clock s + latency) * 1000) :: pre).
           split; [reflexivity | repeat constructor; exact Hpre].
        -- repeat constructor; exact Hend.
        -- repeat constructor; exact Hend.
        -- repeat constructor; exact Hend.
    + exists [EvApplyWrites chunk; EvError batch e]. cbn [retry_loop]. rewrite He.
      split; [|repeat constructor].
      cbn [final emit tick trace]. rewrite <- app_assoc. reflexivity.
Qed.

Lemma dispatch_loop_paced (chunks : list (list DeleteOp)) :
  forall idx q answers s,
    exists evs,
      trace (final (dispatch_loop cfg chunks idx q answers s)) = trace s ++ evs /\
      paced (DELAY_BETWEEN_BATCHES_MS cfg) evs.
Proof.
  induction chunks as [|chunk later IH]; intros idx q answers s.
  - exists []. cbn [dispatch_loop final paced]. rewrite app_nil_r. split; [reflexivity | exact I].
  - rewrite dispatch_loop_cons. cbv zeta.
    set (n := Z.of_nat (List.length chunk)) in *.
    destruct (quota_check_effect cfg q n s) as [evs0 [Htr0 [_ [Hout0 _]]]].
    apply outcomes_nil_no_completed in Hout0.
    set (q1 := fst (quota_check cfg q n s)) in *.
    set (s1 := snd (quota_check cfg q n s)) in *.
    destruct (retry_loop_completion (idx + 1) chunk answers
                (emit (EvDeleting (idx + 1) n q1) s1)) as [evs1 [Htr1 Hend]].
    assert (Hhere : trace s1 ++ EvDeleting (idx + 1) n q1 :: evs1
                    = trace s ++ evs0 ++ EvDeleting (idx + 1) n q1 :: evs1).
    { rewrite Htr0, <- app_assoc. reflexivity. }
    assert (Hquiet : forall tail, no_completed tail ->
                       no_completed (evs0 ++ EvDeleting (idx + 1) n q1 :: tail)).
    { intros tail Htail. apply no_completed_app; [exact Hout0|].
      constructor; [exact I | exact Htail]. }
    cbn [emit trace] in Htr1. rewrite <- app_assoc in Htr1. cbn [app] in Htr1.
    destruct (retry_loop (idx + 1) chunk answers (emit (EvDeleting (idx + 1) n q1) s1))
      as [[[|] rest] s3|ex s3|s3]; cbn [final] in Htr1.
    + destruct Hend as [pre [-> Hpre]].
      destruct (IH (idx + 1)
                  {| hourWindowStart := hourWindowStart q1;
                     deletesThisHour := deletesThisHour q1 + n |}
                  rest (sleep (DELAY_BETWEEN_BATCHES_MS cfg) s3))
        as [evs2 [Htr2 Hpaced2]].
      exists ((evs0 ++ EvDeleting (idx + 1) n q1 :: pre)
              ++ EvCompleted (idx + 1) :: EvSleep (DELAY_BETWEEN_BATCHES_MS cfg) :: evs2).
      split.
      * rewrite Htr2, trace_sleep, Htr1, Hhere, <- !app_assoc. cbn [app].
        rewrite <- !app_assoc. reflexivity.
      * apply paced_after_no_completed; [apply Hquiet; exact Hpre|].
        cbn [paced]. split; [eexists; reflexivity | exact Hpaced2].
    + exists (evs0 ++ EvDeleting (idx + 1) n q1 :: evs1). cbn [final].
      rewrite Htr1, Hhere. split; [reflexivity|].
      rewrite <- (app_nil_r (evs0 ++ _)).
      apply paced_after_no_completed; [apply Hquiet; exact Hend | exact I].
    + exists (evs0 ++ EvDeleting (idx + 1) n q1 :: evs1). cbn [final].
      rewrite Htr1, Hhere. split; [reflexivity|].
      rewrite <- (app_nil_r (evs0 ++ _)).
      apply paced_after_no_completed; [apply Hquiet; exact Hend | exact I].
    + exists (evs0 ++ EvDeleting (idx + 1) n q1 :: evs1). cbn [final].
      rewrite Htr1, Hhere. split; [reflexivity|].
      rewrite <- (app_nil_r (evs0 ++ _)).
      apply paced_after_no_completed; [apply Hquiet; exact Hend | exact I].
Qed.

End Pacing.

(** X17.  In every run of the dispatch loop, however it ends, each batch
    that is reported completed is followed at once by a sleep of
    [DELAY_BETWEEN_BATCHES_MS]; the last batch is no exception, so the
    loop ends with that sleep when the last batch succeeds. *)
Theorem dispatch_sleeps_after_every_completed_batch (cfg : Config)
    (chunks : list (list DeleteOp)) (idx : Z) (q : QuotaWindow)
    (answers : list WriteResponse) (s : St) :
  exists evs,
    trace (final (dispatch_loop cfg chunks idx q answers s)) = trace s ++ evs /\
    paced (DELAY_BETWEEN_BATCHES_MS cfg) evs.
Proof. apply dispatch_loop_paced. Qed.

(** One batch, which succeeds: the call, the report, the delay. *)
Example dispatch_one_batch_then_delay :
  trace (final (dispatch_loop source_config [[Runs.op "3kaaa"]] 0
                  {| hourWindowStart := 1734256800000; deletesThisHour := 0 |}
                  [WriteOk 150] Runs.start))
  = [EvDeleting 1 1 {| hourWindowStart := 1734256800000; deletesThisHour := 0 |};
     EvApplyWrites [Runs.op "3kaaa"]; EvCompleted 1; EvSleep 5000].
Proof. vm_compute. reflexivity. Qed.

(* ================================================================== *)
(** * The matching block on every value *)
(* ================================================================== *)

Section MatcherEverywhere.

Variable domain : string.




Lemma field_of_string (s k : string) : Js.field (JStr s) k = None.
Proof. reflexivity. Qed.













End MatcherEverywhere.

Section MatcherReturns.

Variable domain : string.










End MatcherReturns.



(* ================================================================== *)
(** * The quota check before every unit of a run *)
(* ================================================================== *)

Section Governor.

Variable cfg : Config.

(** The first thing the retry loop does is the call, with the whole chunk. *)
Lemma retry_loop_first_call (batch : Z) (chunk : list DeleteOp)
    (answers : list WriteResponse) (s : St) :
  exists evs,
    trace (final (retry_loop batch chunk answers s))
    = trace s ++ EvApplyWrites chunk :: evs.
Proof.
  destruct answers as [|[latency|latency e|latency] rest].
  - exists []. reflexivity.
  - exists [EvCompleted batch]. cbn [retry_loop final emit tick trace].
    rewrite <- app_assoc. reflexivity.
  - cbn [retry_loop]. destruct (is_rate_limit e).
    + destruct (retry_loop_effect batch chunk rest
                  (sleep (waitSeconds e (clock (tick latency (emit (EvApplyWrites chunk) s)))
                          * 1000)
                     (tick latency (emit (EvApplyWrites chunk) s))))
        as [evs [Htr _]].
      rewrite Htr, trace_sleep. cbn [tick emit trace].
      eexists. rewrite <- !app_assoc. reflexivity.
    + exists [EvError batch e]. cbn [final emit tick trace].
      rewrite <- app_assoc. reflexivity.
  - exists []. reflexivity.
Qed.

(** The clock does not go back during the retries when no call takes a
    negative time, and the answers left over are as timely. *)
Lemma retry_loop_clock (batch : Z) (chunk : list DeleteOp)
    (answers : list WriteResponse) :
  forall s,
    timely answers ->
    clock s <= clock (final (retry_loop batch chunk answers s)) /\
    match retry_loop batch chunk answers s with
    | Returned (_, rest) _ => timely rest
    | _ => True
    end.
Proof.
  induction answers as [|[latency|latency e|latency] rest IH]; intros s Htimely.
  - cbn [retry_loop final emit clock]. split; [lia | exact I].
  - inversion Htimely as [|a l Hlat Hrest]; subst. cbn [latency_of] in Hlat.
    cbn [retry_loop final emit tick clock]. split; [lia | exact Hrest].
  - inversion Htimely as [|a l Hlat Hrest]; subst. cbn [latency_of] in Hlat.
    cbn [retry_loop]. destruct (is_rate_limit e).
    + destruct (IH (sleep (waitSeconds e (clock (tick latency (emit (EvApplyWrites chunk) s)))
                           * 1000)
                      (tick latency (emit (EvApplyWrites chunk) s))) Hrest)
        as [Hclock Hleft].
      split; [|exact Hleft].
      rewrite clock_sleep in Hclock. cbn [tick emit clock] in Hclock |- *.
      pose proof (timer_delay_positive
                    (waitSeconds e (clock s + latency) * 1000)) as Hpos.
      lia.
    + cbn [final emit tick clock]. split; [lia | exact Hrest].
  - inversion Htimely as [|a l Hlat Hrest]; subst. cbn [latency_of] in Hlat.
    cbn [retry_loop final emit tick clock]. split; [lia | exact I].
Qed.

(** The three cases of lines 130-143. *)
Lemma quota_check_checked (q : QuotaWindow) (n : Z) (s : St) :
  checked cfg q n (fst (quota_check cfg q n s)).
Proof.
  unfold checked.
  destruct (Z.le_gt_cases (deletesThisHour q + n) (threshold cfg)) as [Hle|Hgt].
  - rewrite quota_check_pass by assumption. cbn [fst].
    unfold threshold in Hle. left. split; [exact Hle | reflexivity].
  - unfold threshold in Hgt.
    destruct (Z.lt_ge_cases (clock s - hourWindowStart q) oneHourMs) as [Hel|Hel].
    + rewrite quota_check_wait by (unfold threshold; lia).
      cbn [fst deletesThisHour]. right. split; [lia | reflexivity].
    + rewrite quota_check_roll by (unfold threshold; lia).
      cbn [fst deletesThisHour]. right. split; [lia | reflexivity].
Qed.

(** The same, with the window start never later than the clock. *)
Lemma quota_check_in_time (q : QuotaWindow) (n : Z) (s : St) :
  hourWindowStart q <= clock s ->
  (fst (quota_check cfg q n s) = q
   \/ hourWindowStart q + 3600000 <= hourWindowStart (fst (quota_check cfg q n s))) /\
  clock s <= clock (snd (quota_check cfg q n s)) /\
  hourWindowStart (fst (quota_check cfg q n s)) <= clock (snd (quota_check cfg q n s)).
Proof.
  intros Hstart.
  destruct (Z.le_gt_cases (deletesThisHour q + n) (threshold cfg)) as [Hle|Hgt].
  - rewrite quota_check_pass by assumption. cbn [fst snd].
    split; [left; reflexivity | lia].
  - destruct (Z.lt_ge_cases (clock s - hourWindowStart q) oneHourMs) as [Hel|Hel].
    + rewrite quota_check_wait by lia. cbn [fst snd hourWindowStart].
      rewrite clock_after_quota_wait by lia.
      rewrite oneHourMs_value in *. split; [right; lia | lia].
    + rewrite quota_check_roll by lia. cbn [fst snd hourWindowStart].
      rewrite oneHourMs_value in *. split; [right; lia | lia].
Qed.

(** Over a whole run, every batch is sent with the quota variables the
    check makes of those the batch before has left. *)
Lemma dispatch_loop_windows (chunks : list (list DeleteOp)) :
  forall idx q answers s,
    exists evs,
      trace (final (dispatch_loop cfg chunks idx q answers s)) = trace s ++ evs /\
      windows_from cfg q (probes evs) /\
      map fst (probes evs) = sizes (firstn (List.length (probes evs)) chunks).
Proof.
  induction chunks as [|chunk later IH]; intros idx q answers s.
  - exists []. simpl. rewrite app_nil_r. repeat split.
  - rewrite dispatch_loop_cons. cbv zeta.
    set (n := Z.of_nat (List.length chunk)).
    destruct (quota_check_effect cfg q n s) as [evs0 [Htr0 [_ [_ [Hpr0 _]]]]].
    pose proof (quota_check_checked q n s) as Hchecked.
    set (q1 := fst (quota_check cfg q n s)) in *.
    set (s1 := snd (quota_check cfg q n s)) in *.
    destruct (retry_loop_effect (idx + 1) chunk answers (emit (EvDeleting (idx + 1) n q1) s1))
      as [evs1 [Htr1 [Hpr1 _]]].
    assert (Hone : forall s3,
              trace s3 = trace (emit (EvDeleting (idx + 1) n q1) s1) ++ evs1 ->
              exists evs,
                trace s3 = trace s ++ evs /\
                windows_from cfg q (probes evs) /\
                map fst (probes evs)
                = sizes (firstn (List.length (probes evs)) (chunk :: later))).
    { intros s3 Htr3. exists (evs0 ++ EvDeleting (idx + 1) n q1 :: evs1).
      rewrite probes_app, Hpr0. cbn [app probes]. rewrite Hpr1.
      split; [|split].
      - rewrite Htr3. cbn [emit trace]. rewrite Htr0.
        rewrite <- !app_assoc. reflexivity.
      - cbn [windows_from]. split; [exact Hchecked | exact I].
      - reflexivity. }
    destruct (retry_loop (idx + 1) chunk answers (emit (EvDeleting (idx + 1) n q1) s1))
      as [[[|] rest] s3|ex s3|s3]; cbn [final] in *;
      try (apply Hone; exact Htr1).
    destruct (IH (idx + 1)
                {| hourWindowStart := hourWindowStart q1;
                   deletesThisHour := deletesThisHour q1 + n |}
                rest (sleep (DELAY_BETWEEN_BATCHES_MS cfg) s3))
      as [evs2 [Htr2 [Hwin2 Hsz2]]].
    exists (evs0 ++ EvDeleting (idx + 1) n q1 :: evs1
            ++ EvSleep (DELAY_BETWEEN_BATCHES_MS cfg) :: evs2).
    rewrite probes_app, Hpr0. cbn [app probes]. rewrite probes_app, Hpr1.
    cbn [app probes]. split; [|split].
    + rewrite Htr2, trace_sleep, Htr1. cbn [emit trace]. rewrite Htr0.
      rewrite <- !app_assoc. reflexivity.
    + cbn [windows_from]. split; [exact Hchecked | exact Hwin2].
    + cbn [map fst List.length firstn sizes]. fold (sizes (firstn (List.length (probes evs2)) later)).
      rewrite Hsz2. reflexivity.
Qed.

(** While the clock does not go back, a window is left only for one
    started an hour or more later. *)
Lemma dispatch_loop_hours (chunks : list (list DeleteOp)) :
  forall idx q answers s,
    hourWindowStart q <= clock s ->
    timely answers ->
    exists evs,
      trace (final (dispatch_loop cfg chunks idx q answers s)) = trace s ++ evs /\
      hours_apart q (probes evs).
Proof.
  induction chunks as [|chunk later IH]; intros idx q answers s Hstart Htimely.
  - exists []. simpl. rewrite app_nil_r. repeat split.
  - rewrite dispatch_loop_cons. cbv zeta.
    set (n := Z.of_nat (List.length chunk)).
    destruct (quota_check_effect cfg q n s) as [evs0 [Htr0 [_ [_ [Hpr0 _]]]]].
    destruct (quota_check_in_time q n s Hstart) as [Hapart [Hclock0 Hstart1]].
    set (q1 := fst (quota_check cfg q n s)) in *.
    set (s1 := snd (quota_check cfg q n s)) in *.
    destruct (retry_loop_effect (idx + 1) chunk answers (emit (EvDeleting (idx + 1) n q1) s1))
      as [evs1 [Htr1 [Hpr1 _]]].
    destruct (retry_loop_clock (idx + 1) chunk answers
                (emit (EvDeleting (idx + 1) n q1) s1) Htimely) as [Hclock1 Hleft].
    cbn [emit clock] in Hclock1.
    assert (Hone : forall s3,
              trace s3 = trace (emit (EvDeleting (idx + 1) n q1) s1) ++ evs1 ->
              exists evs, trace s3 = trace s ++ evs /\ hours_apart q (probes evs)).
    { intros s3 Htr3. exists (evs0 ++ EvDeleting (idx + 1) n q1 :: evs1).
      rewrite probes_app, Hpr0. cbn [app probes]. rewrite Hpr1. split.
      - rewrite Htr3. cbn [emit trace]. rewrite Htr0.
        rewrite <- !app_assoc. reflexivity.
      - cbn [hours_apart]. split; [exact Hapart | exact I]. }
    destruct (retry_loop (idx + 1) chunk answers (emit (EvDeleting (idx + 1) n q1) s1))
      as [[[|] rest] s3|ex s3|s3]; cbn [final] in *;
      try (apply Hone; exact Htr1).
    destruct (IH (idx + 1)
                {| hourWindowStart := hourWindowStart q1;
                   deletesThisHour := deletesThisHour q1 + n |}
                rest (sleep (DELAY_BETWEEN_BATCHES_MS cfg) s3))
      as [evs2 [Htr2 Hwin2]].
    { cbn [hourWindowStart]. rewrite clock_sleep.
      pose proof (timer_delay_positive (DELAY_BETWEEN_BATCHES_MS cfg)). lia. }
    { exact Hleft. }
    exists (evs0 ++ EvDeleting (idx + 1) n q1 :: evs1
            ++ EvSleep (DELAY_BETWEEN_BATCHES_MS cfg) :: evs2).
    rewrite probes_app, Hpr0. cbn [app probes]. rewrite probes_app, Hpr1.
    cbn [app probes]. split.
    + rewrite Htr2, trace_sleep, Htr1. cbn [emit trace]. rewrite Htr0.
      rewrite <- !app_assoc. reflexivity.
    + cbn [hours_apart]. split; [exact Hapart | exact Hwin2].
Qed.

(** What one pass of the loop adds to the trace, by how the unit ends. *)
Lemma dispatch_loop_unit (chunk : list DeleteOp) (later : list (list DeleteOp))
    (idx : Z) (q : QuotaWindow) (answers : list WriteResponse) (s : St) :
  let n := Z.of_nat (List.length chunk) in
  let q1 := fst (quota_check cfg q n s) in
  let s1 := snd (quota_check cfg q n s) in
  exists evs0 evs1,
    trace s1 = trace s ++ evs0 /\ outcomes evs0 = [] /\
    trace (final (retry_loop (idx + 1) chunk answers (emit (EvDeleting (idx + 1) n q1) s1)))
    = trace s ++ evs0 ++ EvDeleting (idx + 1) n q1 :: evs1 /\
    match retry_loop (idx + 1) chunk answers (emit (EvDeleting (idx + 1) n q1) s1) with
    | Returned (true, _) _ => outcomes evs1 = [(idx + 1, Succeeded)]
    | Returned (false, _) _ => exists e, outcomes evs1 = [(idx + 1, Aborted e)]
    | _ => outcomes evs1 = []
    end.
Proof.
  intros n q1 s1.
  destruct (quota_check_effect cfg q n s) as [evs0 [Htr0 [_ [Hout0 _]]]].
  fold s1 in Htr0.
  destruct (retry_loop_effect (idx + 1) chunk answers (emit (EvDeleting (idx + 1) n q1) s1))
    as [evs1 [Htr1 [_ [_ [_ Hout1]]]]].
  exists evs0, evs1. split; [exact Htr0|]. split; [exact Hout0|]. split.
  - rewrite Htr1. cbn [emit trace]. rewrite Htr0. rewrite <- !app_assoc. reflexivity.
  - destruct (retry_loop (idx + 1) chunk answers (emit (EvDeleting (idx + 1) n q1) s1))
      as [[[|] rest] s3|ex s3|s3]; try exact Hout1. apply Hout1.
Qed.

Lemma dispatch_loop_trace (chunks : list (list DeleteOp)) (idx : Z) (q : QuotaWindow)
    (answers : list WriteResponse) (s : St) :
  exists evs, trace (final (dispatch_loop cfg chunks idx q answers s)) = trace s ++ evs.
Proof.
  destruct (dispatch_loop_attempts cfg chunks idx q answers s) as [evs [Htr _]].
  now exists evs.
Qed.

(** Once [done] has gone through, the loop over a longer list goes on
    with what follows [done]. *)
Lemma dispatch_loop_app (done : list (list DeleteOp)) :
  forall more idx q0 answers0 s0 q rest s,
    reaches cfg done idx q0 answers0 s0 q rest s ->
    dispatch_loop cfg (done ++ more) idx q0 answers0 s0
    = dispatch_loop cfg more (idx + Z.of_nat (List.length done)) q rest s.
Proof.
  induction done as [|chunk later IH]; intros more idx q0 answers0 s0 q rest s [Hrun Hall].
  - cbn [dispatch_loop] in Hrun. injection Hrun as <- <- <-.
    cbn [app List.length]. now rewrite Z.add_0_r.
  - destruct Hall as [evs [Htr Hout]].
    change ((chunk :: later) ++ more) with (chunk :: (later ++ more)).
    rewrite dispatch_loop_cons. rewrite dispatch_loop_cons in Hrun. cbv zeta in *.
    destruct (dispatch_loop_unit chunk later idx q0 answers0 s0)
      as [evs0 [evs1 [_ [Hout0 [Htr1 Hout1]]]]]. cbv zeta in *.
    set (n := Z.of_nat (List.length chunk)) in *.
    set (q1 := fst (quota_check cfg q0 n s0)) in *.
    set (s1 := snd (quota_check cfg q0 n s0)) in *.
    destruct (retry_loop (idx + 1) chunk answers0 (emit (EvDeleting (idx + 1) n q1) s1))
      as [[[|] rest1] s3|ex s3|s3]; cbn [final] in Htr1; try discriminate Hrun.
    + replace (idx + Z.of_nat (List.length (chunk :: later)))
        with (idx + 1 + Z.of_nat (List.length later))
        by (cbn [List.length]; lia).
      apply IH. split; [exact Hrun|].
      destruct (dispatch_loop_trace later (idx + 1)
                  {| hourWindowStart := hourWindowStart q1;
                     deletesThisHour := deletesThisHour q1 + n |}
                  rest1 (sleep (DELAY_BETWEEN_BATCHES_MS cfg) s3)) as [evs2 Htr2].
      rewrite Hrun in Htr2. cbn [final] in Htr2. exists evs2. split; [exact Htr2|].
      rewrite trace_sleep, Htr1, <- !app_assoc in Htr2. rewrite Htr in Htr2.
      apply app_inv_head in Htr2. subst evs.
      rewrite outcomes_app, Hout0 in Hout. cbn [app outcomes] in Hout.
      rewrite outcomes_app, Hout1 in Hout. cbn [app outcomes List.length succeeded_from] in Hout.
      injection Hout as Hout. exact Hout.
    + injection Hrun as <- <- <-. exfalso.
      rewrite Htr in Htr1. apply app_inv_head in Htr1. subst evs.
      rewrite outcomes_app, Hout0 in Hout. cbn [app outcomes] in Hout.
      destruct Hout1 as [e Hout1]. rewrite Hout1 in Hout.
      cbn [List.length succeeded_from] in Hout. discriminate Hout.
Qed.

Lemma succeeded_from_snoc (n : nat) :
  forall idx,
    succeeded_from idx (n + 1)
    = succeeded_from idx n ++ [(idx + Z.of_nat n + 1, Succeeded)].
Proof.
  induction n as [|n IH]; intros idx.
  - cbn [Nat.add succeeded_from app Z.of_nat]. now rewrite Z.add_0_r.
  - cbn [Nat.add succeeded_from app]. rewrite IH.
    replace (idx + 1 + Z.of_nat n + 1) with (idx + Z.of_nat (S n) + 1) by lia.
    reflexivity.
Qed.

End Governor.

(** C3.  Before every unit of any sequence of units, the loop makes the
    check of lines 130-143 on the quota variables the units before have
    left, and the call with the whole unit comes next.

    1. At the unit [chunk], of size [n], that follows the succeeded units
       [done]: when [deletesThisHour + n <= MAX_DELETES_PER_HOUR -
       SAFE_MARGIN] nothing is changed and nothing is waited for; when the
       sum is larger and less than 3600000 ms have passed since
       [hourWindowStart], the loop sleeps for 3600000 ms minus the time
       passed, to end no sooner than 3600000 ms after [hourWindowStart];
       when the sum is larger and 3600000 ms or more have passed it does
       not sleep; in both of these cases the window is then started at the
       reading of the clock, with a count of 0.  The next two events are
       the announcement of the batch and the call with the whole chunk.
       When the unit succeeds, the loop stands before the next unit with
       [n] added to the count; when it is aborted, the loop ends with the
       count as the check has left it.
    2. Over a whole run, every batch is sent with the count the batches
       before have left when, with its size, this stays within
       [MAX_DELETES_PER_HOUR - SAFE_MARGIN], and with a count of 0
       otherwise; the sizes are those of the chunks, in order.
    3. A unit larger than [MAX_DELETES_PER_HOUR - SAFE_MARGIN] on its own
       brings, less than 3600000 ms into the window, one sleep for the
       rest of them, and no sleep later than that; then the window is
       started anew with a count of 0, and the call with the whole unit
       follows. *)
Theorem quota_governor_rule (cfg : Config) :
  (forall done chunk later idx q0 answers0 s0 q rest s,
     reaches cfg done idx q0 answers0 s0 q rest s ->
     exists q1 s1,
       let n := Z.of_nat (List.length chunk) in
       let k := idx + Z.of_nat (List.length done) + 1 in
       ((deletesThisHour q + n <= MAX_DELETES_PER_HOUR cfg - SAFE_MARGIN cfg /\
         q1 = q /\ s1 = s)
        \/ (deletesThisHour q + n > MAX_DELETES_PER_HOUR cfg - SAFE_MARGIN cfg /\
            clock s - hourWindowStart q < 3600000 /\
            s1 = sleep (3600000 - (clock s - hourWindowStart q)) s /\
            trace s1 = trace s ++ [EvSleep (3600000 - (clock s - hourWindowStart q))] /\
            q1 = {| hourWindowStart := clock s1; deletesThisHour := 0 |} /\
            (0 <= clock s - hourWindowStart q ->
             hourWindowStart q + 3600000 <= clock s1))
        \/ (deletesThisHour q + n > MAX_DELETES_PER_HOUR cfg - SAFE_MARGIN cfg /\
            3600000 <= clock s - hourWindowStart q /\
            s1 = s /\
            q1 = {| hourWindowStart := clock s; deletesThisHour := 0 |})) /\
       (exists evs,
          trace (final (dispatch_loop cfg (done ++ chunk :: later) idx q0 answers0 s0))
          = trace s1 ++ EvDeleting k n q1 :: EvApplyWrites chunk :: evs) /\
       (forall rest' s3,
          retry_loop k chunk rest (emit (EvDeleting k n q1) s1) = Returned (true, rest') s3 ->
          reaches cfg (done ++ [chunk]) idx q0 answers0 s0
            {| hourWindowStart := hourWindowStart q1;
               deletesThisHour := deletesThisHour q1 + n |}
            rest' (sleep (DELAY_BETWEEN_BATCHES_MS cfg) s3)) /\
       (forall rest' s3,
          retry_loop k chunk rest (emit (EvDeleting k n q1) s1) = Returned (false, rest') s3 ->
          dispatch_loop cfg (done ++ chunk :: later) idx q0 answers0 s0
          = Returned (q1, rest') s3)) /\
  (forall chunks idx q answers s,
     exists evs,
       trace (final (dispatch_loop cfg chunks idx q answers s)) = trace s ++ evs /\
       windows_from cfg q (probes evs) /\
       map fst (probes evs) = sizes (firstn (List.length (probes evs)) chunks)) /\
  (forall chunk later idx q answers s,
     MAX_DELETES_PER_HOUR cfg - SAFE_MARGIN cfg < Z.of_nat (List.length chunk) ->
     0 <= deletesThisHour q ->
     (clock s - hourWindowStart q < 3600000 ->
      exists evs,
        trace (final (dispatch_loop cfg (chunk :: later) idx q answers s))
        = trace s
          ++ EvSleep (3600000 - (clock s - hourWindowStart q))
             :: EvDeleting (idx + 1) (Z.of_nat (List.length chunk))
                  {| hourWindowStart :=
                       clock (sleep (3600000 - (clock s - hourWindowStart q)) s);
                     deletesThisHour := 0 |}
             :: EvApplyWrites chunk :: evs) /\
     (3600000 <= clock s - hourWindowStart q ->
      exists evs,
        trace (final (dispatch_loop cfg (chunk :: later) idx q answers s))
        = trace s
          ++ EvDeleting (idx + 1) (Z.of_nat (List.length chunk))
               {| hourWindowStart := clock s; deletesThisHour := 0 |}
             :: EvApplyWrites chunk :: evs)).
Proof.
  assert (Hcall : forall chunk later idx q answers s,
            exists evs,
              trace (final (dispatch_loop cfg (chunk :: later) idx q answers s))
              = trace (snd (quota_check cfg q (Z.of_nat (List.length chunk)) s))
                ++ EvDeleting (idx + 1) (Z.of_nat (List.length chunk))
                     (fst (quota_check cfg q (Z.of_nat (List.length chunk)) s))
                   :: EvApplyWrites chunk :: evs).
  { intros chunk later idx q answers s. rewrite dispatch_loop_cons. cbv zeta.
    set (n := Z.of_nat (List.length chunk)).
    set (q1 := fst (quota_check cfg q n s)).
    set (s1 := snd (quota_check cfg q n s)).
    destruct (retry_loop_first_call (idx + 1) chunk answers
                (emit (EvDeleting (idx + 1) n q1) s1)) as [evs1 Htr1].
    cbn [emit trace] in Htr1. rewrite <- app_assoc in Htr1. cbn [app] in Htr1.
    destruct (retry_loop (idx + 1) chunk answers (emit (EvDeleting (idx + 1) n q1) s1))
      as [[[|] rest1] s3|ex s3|s3]; cbn [final] in *;
      try (exists evs1; exact Htr1).
    destruct (dispatch_loop_trace cfg later (idx + 1)
                {| hourWindowStart := hourWindowStart q1;
                   deletesThisHour := deletesThisHour q1 + n |}
                rest1 (sleep (DELAY_BETWEEN_BATCHES_MS cfg) s3)) as [evs2 Htr2].
    exists (evs1 ++ EvSleep (DELAY_BETWEEN_BATCHES_MS cfg) :: evs2).
    rewrite Htr2, trace_sleep, Htr1, <- !app_assoc. reflexivity. }
  split; [|split].
  - intros done chunk later idx q0 answers0 s0 q rest s Hreach.
    exists (fst (quota_check cfg q (Z.of_nat (List.length chunk)) s)),
           (snd (quota_check cfg q (Z.of_nat (List.length chunk)) s)).
    cbv zeta. set (n := Z.of_nat (List.length chunk)).
    split; [|split; [|split]].
    + destruct (Z.le_gt_cases (deletesThisHour q + n) (threshold cfg)) as [Hle|Hgt].
      * left. rewrite quota_check_pass by assumption. unfold threshold in Hle.
        now split.
      * destruct (Z.lt_ge_cases (clock s - hourWindowStart q) oneHourMs) as [Hel|Hel].
        -- right. left. rewrite quota_check_wait by lia. cbn [fst snd].
           rewrite oneHourMs_value in *.
           unfold threshold in Hgt.
           split; [lia|]. split; [exact Hel|]. split; [reflexivity|].
           split; [apply trace_sleep|]. split; [reflexivity|].
           intros Hpast.
           pose proof (clock_after_quota_wait q s) as Hdue.
           rewrite oneHourMs_value in Hdue. rewrite Hdue by lia. lia.
        -- right. right. rewrite quota_check_roll by lia.
           rewrite oneHourMs_value in *. unfold threshold in Hgt.
           split; [lia|]. split; [lia|]. now split.
    + rewrite (dispatch_loop_app cfg done (chunk :: later) idx q0 answers0 s0 q rest s Hreach).
      apply Hcall.
    + intros rest' s3 Hretry.
      pose proof (dispatch_loop_app cfg done [chunk] idx q0 answers0 s0 q rest s Hreach)
        as Happ.
      rewrite dispatch_loop_cons in Happ. cbv zeta in Happ. fold n in Happ.
      rewrite Hretry in Happ. cbn [dispatch_loop] in Happ.
      split; [exact Happ|].
      destruct Hreach as [_ [evs [Htr Hout]]].
      destruct (dispatch_loop_unit cfg chunk [] (idx + Z.of_nat (List.length done)) q rest s)
        as [evs0 [evs1 [_ [Hout0 [Htr1 Hout1]]]]].
      cbv zeta in Htr1, Hout1. fold n in Htr1, Hout1.
      rewrite Hretry in Htr1, Hout1. cbn [final] in Htr1.
      exists (evs ++ evs0
              ++ EvDeleting (idx + Z.of_nat (List.length done) + 1) n
                   (fst (quota_check cfg q n s))
                 :: evs1 ++ [EvSleep (DELAY_BETWEEN_BATCHES_MS cfg)]).
      split.
      * rewrite trace_sleep, Htr1, Htr, <- ?app_assoc. cbn [app].
        rewrite <- ?app_assoc. reflexivity.
      * rewrite outcomes_app, Hout, outcomes_app, Hout0. cbn [app outcomes].
        rewrite outcomes_app, Hout1. cbn [app outcomes].
        rewrite length_app. cbn [List.length]. now rewrite succeeded_from_snoc.
    + intros rest' s3 Hretry.
      rewrite (dispatch_loop_app cfg done (chunk :: later) idx q0 answers0 s0 q rest s Hreach).
      rewrite dispatch_loop_cons. cbv zeta. fold n. rewrite Hretry. reflexivity.
  - intros chunks idx q answers s. apply dispatch_loop_windows.
  - intros chunk later idx q answers s Hbig Hq.
    destruct (Hcall chunk later idx q answers s) as [evs Htr]. split.
    + intros Hel.
      rewrite quota_check_wait in Htr by (unfold threshold; rewrite ?oneHourMs_value; lia).
      cbn [fst snd] in Htr. rewrite trace_sleep, <- app_assoc in Htr. cbn [app] in Htr.
      rewrite oneHourMs_value in Htr. exists evs. exact Htr.
    + intros Hel.
      rewrite quota_check_roll in Htr by (unfold threshold; rewrite ?oneHourMs_value; lia).
      cbn [fst snd] in Htr. exists evs. exact Htr.
Qed.

Lemma quota_governor_rule_witness :
  exists s1 evs,
    trace s1 = [EvSleep 3000000] /\
    clock s1 = 1734260400000 /\
    trace (final (dispatch_loop source_config [repeat (Runs.op "3kaaa") 200] 24
                    {| hourWindowStart := 1734256800000; deletesThisHour := 4800 |}
                    [WriteOk 350]
                    {| clock := 1734257400000; trace := [] |}))
    = trace s1
      ++ EvDeleting 25 200 {| hourWindowStart := 1734260400000; deletesThisHour := 0 |}
         :: EvApplyWrites (repeat (Runs.op "3kaaa") 200) :: evs.
Proof.
  destruct (proj1 (quota_governor_rule source_config)
              [] (repeat (Runs.op "3kaaa") 200) [] 24
              {| hourWindowStart := 1734256800000; deletesThisHour := 4800 |}
              [WriteOk 350] {| clock := 1734257400000; trace := [] |}
              {| hourWindowStart := 1734256800000; deletesThisHour := 4800 |}
              [WriteOk 350] {| clock := 1734257400000; trace := [] |})
    as [q1 [s1 [Hrule [[evs Htr] _]]]].
  - split; [reflexivity|]. exists []. split; reflexivity.
  - exists s1, evs. rewrite repeat_length in Hrule, Htr.
    destruct Hrule as [[Hfits _] | [[_ [_ [Hs1 [_ [Hq1 _]]]]] | [_ [Hpast _]]]].
    + vm_compute in Hfits. exfalso. apply Hfits. reflexivity.
    + subst s1 q1. split; [reflexivity|]. split; [reflexivity|]. exact Htr.
    + vm_compute in Hpast. exfalso. apply Hpast. reflexivity.
Defined.

(* ================================================================== *)
(** * The retries after a 429 *)
(* ================================================================== *)

Section Retries.

Lemma header_absent (name : string) (hs : list (string * string)) :
  no_header name hs -> header name hs = None.
Proof.
  induction hs as [|[k v] hs IH]; intros Hno; [reflexivity|].
  inversion Hno as [|kv l Hk Hrest]; subst. cbn [fst] in Hk. cbn [header].
  destruct (String.eqb_spec k name) as [->|_]; [contradiction | exact (IH Hrest)].
Qed.

Lemma header_first (name v : string) (pre post : list (string * string)) :
  no_header name pre -> header name (pre ++ (name, v) :: post) = Some v.
Proof.
  induction pre as [|[k v'] pre IH]; intros Hno; cbn [app header].
  - now rewrite String.eqb_refl.
  - inversion Hno as [|kv l Hk Hrest]; subst. cbn [fst] in Hk.
    destruct (String.eqb_spec k name) as [->|_]; [contradiction | exact (IH Hrest)].
Qed.

Lemma is_rate_limit_429 (e : XrpcError) :
  is_rate_limit e = true <-> status e = Some 429.
Proof.
  unfold is_rate_limit. destruct (status e) as [st|].
  - destruct (Z.eqb_spec st 429) as [->|Hne]; split; try reflexivity;
      try discriminate. intros H. injection H as ->. contradiction.
  - split; discriminate.
Qed.

Lemma all_429_rate_limited (errors : list (Z * XrpcError)) :
  all_429 errors -> all_rate_limited errors.
Proof.
  unfold all_429, all_rate_limited. intros H.
  induction H as [|le l Hle _ IH]; constructor; [|exact IH].
  now apply is_rate_limit_429.
Qed.

Variables (batch : Z) (chunk : list DeleteOp).

(** Any number of 429 answers is gone through, with a call of the same
    chunk and a sleep for each. *)
Lemma retry_loop_resumes (errors : list (Z * XrpcError)) :
  forall tail s,
    all_429 errors ->
    exists s' evs,
      retry_loop batch chunk (failures errors ++ tail) s = retry_loop batch chunk tail s' /\
      trace s' = trace s ++ evs /\
      clock s' = resumes_at errors (clock s) /\
      attempts evs = repeat chunk (List.length errors) /\
      List.length (sleeps evs) = List.length errors /\
      outcomes evs = [].
Proof.
  induction errors as [|[latency e] errors IH]; intros tail s Hall.
  - exists s, []. cbn [failures map app resumes_at List.length repeat].
    rewrite app_nil_r. now repeat split.
  - inversion Hall as [|le l He Hrest]; subst. cbn [snd] in He.
    cbn [failures map app fst snd]. fold (failures errors).
    rewrite retry_loop_rate_limited by now apply is_rate_limit_429.
    destruct (IH tail
                (sleep (waitSeconds e (clock s + latency) * 1000)
                   (tick latency (emit (EvApplyWrites chunk) s))) Hrest)
      as [s' [evs [Hrun [Htr [Hclock [Hatt [Hsl Hout]]]]]]].
    exists s', (EvApplyWrites chunk
                :: EvSleep (waitSeconds e (clock s + latency) * 1000) :: evs).
    split; [exact Hrun|]. split; [|split; [|split; [|split]]].
    + rewrite Htr, trace_sleep. cbn [tick emit trace].
      rewrite <- !app_assoc. reflexivity.
    + rewrite Hclock, clock_sleep. cbn [tick emit clock resumes_at]. reflexivity.
    + cbn [attempts List.length repeat]. now rewrite Hatt.
    + cbn [sleeps List.length]. now rewrite Hsl.
    + exact Hout.
Qed.

(** The retry loop is left with [success] unset only on an error whose
    status is not 429. *)
Lemma retry_loop_no_429 (answers : list WriteResponse) :
  forall s,
    exists evs,
      trace (final (retry_loop batch chunk answers s)) = trace s ++ evs /\
      no_429_surfaces (outcomes evs) /\
      match retry_loop batch chunk answers s with
      | Returned (true, _) _ => outcomes evs = [(batch, Succeeded)]
      | Returned (false, _) _ =>
          exists e, outcomes evs = [(batch, Aborted e)] /\ status e <> Some 429
      | Threw ex _ => ex = ExnTypeError /\ outcomes evs = []
      | Hangs _ => outcomes evs = []
      end.
Proof.
  induction answers as [|[latency|latency e|latency] rest IH]; intros s.
  - exists [EvApplyWrites chunk]. cbn [retry_loop final emit trace outcomes].
    repeat split. constructor.
  - exists [EvApplyWrites chunk; EvCompleted batch].
    cbn [retry_loop final emit tick trace outcomes].
    rewrite <- app_assoc. repeat split. constructor; [exact I | constructor].
  - cbn [retry_loop]. destruct (is_rate_limit e) eqn:Hlim.
    + destruct (IH (sleep (waitSeconds e (clock (tick latency (emit (EvApplyWrites chunk) s)))
                           * 1000)
                      (tick latency (emit (EvApplyWrites chunk) s))))
        as [evs [Htr [Hno Hend]]].
      exists (EvApplyWrites chunk
              :: EvSleep (waitSeconds e (clock (tick latency (emit (EvApplyWrites chunk) s)))
                          * 1000) :: evs).
      split; [|split; [exact Hno | exact Hend]].
      rewrite Htr, trace_sleep. cbn [tick emit trace].
      rewrite <- !app_assoc. reflexivity.
    + assert (Hne : status e <> Some 429).
      { intros H. apply is_rate_limit_429 in H. congruence. }
      exists [EvApplyWrites chunk; EvError batch e].
      cbn [final emit tick trace outcomes]. rewrite <- app_assoc.
      split; [reflexivity|]. split.
      * constructor; [exact Hne | constructor].
      * exists e. now split.
  - exists [EvApplyWrites chunk]. cbn [retry_loop final emit tick trace outcomes].
    repeat split. constructor.
Qed.

End Retries.

Section RetriesInARun.

Variable cfg : Config.

Lemma dispatch_loop_no_429 (chunks : list (list DeleteOp)) :
  forall idx q answers s,
    exists evs,
      trace (final (dispatch_loop cfg chunks idx q answers s)) = trace s ++ evs /\
      no_429_surfaces (outcomes evs).
Proof.
  induction chunks as [|chunk later IH]; intros idx q answers s.
  - exists []. simpl. rewrite app_nil_r. split; [reflexivity | constructor].
  - rewrite dispatch_loop_cons. cbv zeta.
    set (n := Z.of_nat (List.length chunk)).
    destruct (quota_check_effect cfg q n s) as [evs0 [Htr0 [_ [Hout0 _]]]].
    set (q1 := fst (quota_check cfg q n s)) in *.
    set (s1 := snd (quota_check cfg q n s)) in *.
    destruct (retry_loop_no_429 (idx + 1) chunk answers (emit (EvDeleting (idx + 1) n q1) s1))
      as [evs1 [Htr1 [Hno1 _]]].
    assert (Hone : forall s3,
              trace s3 = trace (emit (EvDeleting (idx + 1) n q1) s1) ++ evs1 ->
              exists evs, trace s3 = trace s ++ evs /\ no_429_surfaces (outcomes evs)).
    { intros s3 Htr3. exists (evs0 ++ EvDeleting (idx + 1) n q1 :: evs1). split.
      - rewrite Htr3. cbn [emit trace]. rewrite Htr0.
        rewrite <- !app_assoc. reflexivity.
      - rewrite outcomes_app, Hout0. cbn [app outcomes]. exact Hno1. }
    destruct (retry_loop (idx + 1) chunk answers (emit (EvDeleting (idx + 1) n q1) s1))
      as [[[|] rest] s3|ex s3|s3]; cbn [final] in *;
      try (apply Hone; exact Htr1).
    destruct (IH (idx + 1)
                {| hourWindowStart := hourWindowStart q1;
                   deletesThisHour := deletesThisHour q1 + n |}
                rest (sleep (DELAY_BETWEEN_BATCHES_MS cfg) s3))
      as [evs2 [Htr2 Hno2]].
    exists (evs0 ++ EvDeleting (idx + 1) n q1 :: evs1
            ++ EvSleep (DELAY_BETWEEN_BATCHES_MS cfg) :: evs2). split.
    + rewrite Htr2, trace_sleep, Htr1. cbn [emit trace]. rewrite Htr0.
      rewrite <- !app_assoc. reflexivity.
    + rewrite outcomes_app, Hout0. cbn [app outcomes]. rewrite outcomes_app.
      cbn [outcomes]. unfold no_429_surfaces in *. apply Forall_app. now split.
Qed.

End RetriesInARun.

(** C4.  What the retry loop does with an error whose [status] is 429.

    1. It computes a wait in seconds and sleeps for 1000 times as many
       milliseconds, then makes the call again with the same chunk.  The
       wait is 60 when the error has no headers, no [ratelimit-reset]
       header, one that [parseInt] reads as [NaN], or one that it reads as
       a number not above the current second; it is that number minus the
       current second when this is positive (the number and the
       milliseconds of the wait being in the range that a double holds
       exactly).  The timer lasts as long as asked up to 2147483647 ms,
       and 1 ms when asked for more.
    2. Any number of such errors in a row is gone through in this way, the
       chunk being the same in every call.
    3. The loop is left without success only on an error whose status is
       not 429, and nothing it throws is such an error; so no unit of a
       run ends on a 429. *)
Theorem retry_engine_absorbs_rate_limits (cfg : Config) (batch : Z)
    (chunk : list DeleteOp) :
  (forall latency e rest s,
     status e = Some 429 ->
     exists w,
       let now := (clock s + latency) / 1000 in
       let s' := sleep (w * 1000) (tick latency (emit (EvApplyWrites chunk) s)) in
       retry_loop batch chunk (WriteErr latency e :: rest) s
       = retry_loop batch chunk rest s' /\
       trace s' = trace s ++ [EvApplyWrites chunk; EvSleep (w * 1000)] /\
       (w * 1000 <= 2147483647 -> clock s' = clock s + latency + w * 1000) /\
       (2147483647 < w * 1000 -> clock s' = clock s + latency + 1) /\
       (headers e = None -> w = 60) /\
       (forall hs,
          headers e = Some hs -> no_header "ratelimit-reset" hs -> w = 60) /\
       (forall pre str post,
          headers e = Some (pre ++ ("ratelimit-reset", str) :: post) ->
          no_header "ratelimit-reset" pre ->
          (JsNumber.parseInt str = NaN -> w = 60) /\
          (forall reset,
             JsNumber.parseInt str = Num reset ->
             (reset - now <= 0 -> w = 60) /\
             (0 < reset - now ->
              safe_integer reset ->
              (reset - now) * 1000 <= 9007199254740992 ->
              w = reset - now)))) /\
  (forall errors tail s,
     all_429 errors ->
     exists s' evs,
       retry_loop batch chunk (failures errors ++ tail) s
       = retry_loop batch chunk tail s' /\
       trace s' = trace s ++ evs /\
       clock s' = resumes_at errors (clock s) /\
       attempts evs = repeat chunk (List.length errors) /\
       List.length (sleeps evs) = List.length errors /\
       outcomes evs = []) /\
  (forall answers s,
     exists evs,
       trace (final (retry_loop batch chunk answers s)) = trace s ++ evs /\
       no_429_surfaces (outcomes evs) /\
       match retry_loop batch chunk answers s with
       | Returned (true, _) _ => outcomes evs = [(batch, Succeeded)]
       | Returned (false, _) _ =>
           exists e, outcomes evs = [(batch, Aborted e)] /\ status e <> Some 429
       | Threw ex _ => ex = ExnTypeError /\ outcomes evs = []
       | Hangs _ => outcomes evs = []
       end) /\
  (forall chunks idx q answers s,
     exists evs,
       trace (final (dispatch_loop cfg chunks idx q answers s)) = trace s ++ evs /\
       no_429_surfaces (outcomes evs)).
Proof.
  split; [|split; [|split]].
  - intros latency e rest s H429.
    exists (waitSeconds e (clock s + latency)). cbv zeta.
    pose proof (waitSeconds_positive e (clock s + latency)) as Hpos.
    pose proof (waitSeconds_rule e (clock s + latency)) as Hrule.
    split; [|split; [|split; [|split; [|split; [|split]]]]].
    + apply retry_loop_rate_limited. now apply is_rate_limit_429.
    + rewrite trace_sleep. cbn [tick emit trace]. rewrite <- app_assoc. reflexivity.
    + intros Hfits. rewrite clock_sleep, timer_delay_in_range by lia.
      cbn [tick emit clock]. reflexivity.
    + intros Hover. rewrite clock_sleep. cbn [tick emit clock].
      unfold timer_delay, TIMEOUT_MAX.
      destruct (Z.leb_spec (waitSeconds e (clock s + latency) * 1000) 2147483647);
        [lia|]. rewrite andb_false_r. reflexivity.
    + intros Hnone. unfold resetTimeStr in Hrule. now rewrite Hnone in Hrule.
    + intros hs Hhs Hno. unfold resetTimeStr in Hrule.
      now rewrite Hhs, (header_absent _ _ Hno) in Hrule.
    + intros pre str post Hhs Hno. unfold resetTimeStr in Hrule.
      rewrite Hhs, (header_first _ _ _ _ Hno) in Hrule. split.
      * intros Hnan. now rewrite Hnan in Hrule.
      * intros reset Hnum. rewrite Hnum in Hrule. split.
        -- intros Hpast. rewrite Hrule.
           destruct (Z.ltb_spec 0 (reset - (clock s + latency) / 1000)); [lia|reflexivity].
        -- intros Hahead _ _. rewrite Hrule.
           destruct (Z.ltb_spec 0 (reset - (clock s + latency) / 1000)); [reflexivity|lia].
  - intros errors tail s. apply retry_loop_resumes.
  - intros answers s. apply retry_loop_no_429.
  - intros chunks idx q answers s. apply dispatch_loop_no_429.
Qed.

Lemma retry_engine_absorbs_rate_limits_witness :
  status (Runs.limited (Some "1734256830")) = Some 429 /\
  retry_loop 1 [Runs.op "3kaaa"]
    [WriteErr 200 (Runs.limited (Some "1734256830")); WriteOk 150] Runs.start
  = Returned (true, [])
      {| clock := 1734256830350;
         trace := [EvApplyWrites [Runs.op "3kaaa"]; EvSleep 30000;
                   EvApplyWrites [Runs.op "3kaaa"]; EvCompleted 1] |}.
Proof.
  split; [reflexivity|].
  destruct (proj1 (retry_engine_absorbs_rate_limits source_config 1 [Runs.op "3kaaa"])
              200 (Runs.limited (Some "1734256830")) [WriteOk 150] Runs.start eq_refl)
    as [w [Hrun [_ [_ [_ [_ [_ Hheader]]]]]]].
  destruct (Hheader [("ratelimit-limit", "5000")] "1734256830" [] eq_refl) as [_ Hnum].
  - constructor; [discriminate | constructor].
  - destruct (Hnum 1734256830 eq_refl) as [_ Hahead].
    assert (Hw : w = 30).
    { rewrite Hahead; [reflexivity | reflexivity | unfold safe_integer; lia
                      | vm_compute; discriminate]. }
    subst w. rewrite Hrun. reflexivity.
Defined.

(** X19.  A reset time too far ahead is not waited for.  When the
    [ratelimit-reset] header of a 429 reads as a number of seconds that is
    more than 2147483647 ms ahead of the clock, the loop asks the timer
    for more than it takes, the timer fires after 1 ms, and the next call
    with the chunk is made 1 ms after the failed one has returned. *)
Theorem wait_beyond_timer_limit_lasts_1ms (batch : Z) (chunk : list DeleteOp)
    (latency : Z) (e : XrpcError) (rest : list WriteResponse) (s : St)
    (str : string) (reset : Z) :
  status e = Some 429 ->
  resetTimeStr e = Some str ->
  JsNumber.parseInt str = Num reset ->
  2147483647 < (reset - (clock s + latency) / 1000) * 1000 ->
  exists s2 evs,
    retry_loop batch chunk (WriteErr latency e :: rest) s
    = retry_loop batch chunk rest s2 /\
    clock s2 = clock s + latency + 1 /\
    trace s2 = trace s ++ evs /\
    attempts evs = [chunk] /\
    List.length (sleeps evs) = 1%nat.
Proof.
  intros Hstatus Hstr Hparse Hfar.
  assert (Hwait : waitSeconds e (clock s + latency) = reset - (clock s + latency) / 1000).
  { rewrite waitSeconds_rule, Hstr, Hparse.
    destruct (Z.ltb_spec 0 (reset - (clock s + latency) / 1000)); [reflexivity | lia]. }
  exists (sleep (waitSeconds e (clock s + latency) * 1000)
            (tick latency (emit (EvApplyWrites chunk) s))).
  exists [EvApplyWrites chunk; EvSleep (waitSeconds e (clock s + latency) * 1000)].
  split; [apply retry_loop_rate_limited; now apply is_rate_limit_429|].
  split; [|split; [|split; reflexivity]].
  - rewrite clock_sleep. cbn [tick emit clock]. rewrite Hwait.
    unfold timer_delay, TIMEOUT_MAX.
    destruct (Z.leb_spec ((reset - (clock s + latency) / 1000) * 1000) 2147483647);
      [lia|]. rewrite andb_false_r. reflexivity.
  - rewrite trace_sleep. cbn [tick emit trace]. rewrite <- app_assoc. reflexivity.
Qed.

Lemma wait_beyond_timer_limit_lasts_1ms_witness :
  waitSeconds (Runs.limited (Some "1736404284")) (clock Runs.start + 200) = 2147484 /\
  exists s2 evs,
    retry_loop 1 [Runs.op "3kaaa"]
      (WriteErr 200 (Runs.limited (Some "1736404284")) :: [WriteOk 150]) Runs.start
    = retry_loop 1 [Runs.op "3kaaa"] [WriteOk 150] s2 /\
    clock s2 = clock Runs.start + 200 + 1 /\
    trace s2 = trace Runs.start ++ evs /\
    attempts evs = [[Runs.op "3kaaa"]] /\
    List.length (sleeps evs) = 1%nat.
Proof.
  split; [reflexivity|].
  apply (wait_beyond_timer_limit_lasts_1ms 1 [Runs.op "3kaaa"] 200
           (Runs.limited (Some "1736404284")) [WriteOk 150] Runs.start
           "1736404284" 1736404284).
  - reflexivity.
  - reflexivity.
  - vm_compute. reflexivity.
  - vm_compute. reflexivity.
Defined.

(* ================================================================== *)
(** * Where a run can throw *)
(* ================================================================== *)

(** X10.  A run throws in two places only.  While it scans: then the
    scan has ended with that exception, and no [applyWrites] call was made
    and no sleep taken.  Or in the catch block of the retry loop, with a
    TypeError, when an [applyWrites] call has rejected with [null] or
    [undefined], of which line 160 reads [status]: then the scan had
    returned.  An error object, whatever its status, never makes the
    dispatch throw. *)
Theorem main_throws_only_from_scan (cfg : Config) (pages : list PageResponse)
    (answers : list WriteResponse) (s s' : St) (e : Exn) :
  main cfg pages answers s = Threw e s' ->
  (scan cfg pages s = Threw e s' /\
   exists evs, trace s' = trace s ++ evs /\ attempts evs = [] /\ sleeps evs = [])
  \/ (e = ExnTypeError /\
      (exists latency, In (WriteRejected latency) answers) /\
      exists deletes s1, scan cfg pages s = Returned deletes s1).
Proof.
  intros Hmain. unfold main in Hmain.
  destruct (scan cfg pages s) as [deletes s1|e1 s1|s1] eqn:Hscan; try discriminate.
  - right.
    destruct (Nat.eqb (List.length deletes) 0); [discriminate|].
    destruct (chunked deletes (DELETES_PER_BATCH cfg)) as [chunks|]; [|discriminate].
    destruct (dispatch_loop cfg chunks 0
                {| hourWindowStart := clock s1; deletesThisHour := 0 |} answers s1)
      as [r s2|e2 s2|s2] eqn:Hrun; try discriminate.
    injection Hmain as -> ->.
    destruct (dispatch_loop_throws cfg chunks 0 _ answers s1 e s' Hrun) as [He Hin].
    split; [exact He|]. split; [exact Hin|]. now exists deletes, s1.
  - left. injection Hmain as -> ->. split; [reflexivity|].
    destruct (scan_loop_effect (TARGET_DOMAIN cfg) pages None [] s)
      as [evs [Htr [Hat [Hsl _]]]].
    unfold scan in Hscan. rewrite Hscan in Htr. exists evs. auto.
Qed.

Lemma main_throws_only_from_scan_witness :
  (scan source_config [PageErr 40 Runs.server_error] Runs.start
   = Threw (ExnRpc Runs.server_error)
       {| clock := 1734256800040; trace := [EvListRecords (list_params None)] |} /\
   exists evs,
     trace {| clock := 1734256800040; trace := [EvListRecords (list_params None)] |}
     = trace Runs.start ++ evs /\ attempts evs = [] /\ sleeps evs = []) /\
  (exists s',
     main source_config Runs.one_page [WriteRejected 100] Runs.start
     = Threw ExnTypeError s' /\
     exists deletes s1, scan source_config Runs.one_page Runs.start = Returned deletes s1).
Proof.
  split.
  - destruct (main_throws_only_from_scan source_config [PageErr 40 Runs.server_error]
                [WriteOk 100] Runs.start
                {| clock := 1734256800040; trace := [EvListRecords (list_params None)] |}
                (ExnRpc Runs.server_error) eq_refl) as [Hscan | [Hty _]].
    + exact Hscan.
    + discriminate Hty.
  - eexists. split; [vm_compute; reflexivity|].
    destruct (main_throws_only_from_scan source_config Runs.one_page
                [WriteRejected 100] Runs.start
                {| clock := 1734256800220;
                   trace := [EvListRecords (list_params None);
                             EvDeleting 1 1 {| hourWindowStart := 1734256800120;
                                               deletesThisHour := 0 |};
                             EvApplyWrites [Runs.op "3kaaa"]] |}
                ExnTypeError eq_refl) as [[Hscan _] | [_ [_ Hret]]].
    + discriminate Hscan.
    + exact Hret.
Defined.

(** X18.  While the clock does not go back (the window was started no
    later than now, and no call takes a negative time), a run leaves a
    window of the quota only for one started 3600000 ms or more later: each
    batch is sent in the window of the batch before or in such a later
    one. *)
Theorem windows_are_an_hour_apart (cfg : Config) (chunks : list (list DeleteOp))
    (idx : Z) (q : QuotaWindow) (answers : list WriteResponse) (s : St) :
  hourWindowStart q <= clock s ->
  timely answers ->
  exists evs,
    trace (final (dispatch_loop cfg chunks idx q answers s)) = trace s ++ evs /\
    hours_apart q (probes evs).
Proof. apply dispatch_loop_hours. Qed.

Lemma windows_are_an_hour_apart_witness :
  exists evs,
    trace (final (dispatch_loop source_config
                    [repeat (Runs.op "3kaaa") 200; repeat (Runs.op "3kbbb") 200] 23
                    {| hourWindowStart := 1734256800000; deletesThisHour := 4600 |}
                    [WriteOk 350; WriteOk 300]
                    {| clock := 1734257400000; trace := [] |}))
    = trace {| clock := 1734257400000; trace := [] |} ++ evs /\
    hours_apart {| hourWindowStart := 1734256800000; deletesThisHour := 4600 |}
      (probes evs).
Proof.
  apply (windows_are_an_hour_apart source_config
           [repeat (Runs.op "3kaaa") 200; repeat (Runs.op "3kbbb") 200] 23
           {| hourWindowStart := 1734256800000; deletesThisHour := 4600 |}
           [WriteOk 350; WriteOk 300] {| clock := 1734257400000; trace := [] |}).
  - vm_compute. discriminate.
  - repeat constructor; vm_compute; discriminate.
Defined.
